(** * gphotos-sync: the media model and the synchronisation engine

    A shallow embedding of [GoogleMedia.py] (the base class of the media
    model) and of [gphotos/GooglePhotosSync.py] (indexing and download
    orchestration), with the properties of the design document stated
    over it. *)

From Stdlib Require Import ZArith Ascii String.
From stdpp Require Import gmap strings list fin_maps.

Local Open Scope string_scope.

(** ** Python exceptions

    Only the exception classes that the two files name, plus the ones
    that the statements they contain raise on their own. *)

Inductive exn_class : Type :=
| HTTPError            (* requests.exceptions.HTTPError *)
| RetryError           (* requests.exceptions.RetryError *)
| ConnectionError      (* requests.exceptions.ConnectionError *)
| Timeout              (* requests.exceptions.Timeout *)
| OSError              (* disk full, permission denied, ... *)
| FileNotFoundError
| KeyboardInterrupt
| AttributeError       (* attribute access on None *)
| KeyError
| NotImplementedError.

#[global] Instance exn_class_eq_dec : EqDecision exn_class.
Proof. solve_decision. Defined.

(** The result of evaluating a Python expression that has no effect on
    the state: a value, or a raised exception. *)
Inductive pyresult (A : Type) : Type :=
| Returns (a : A)
| Raises (e : exn_class).
Arguments Returns {A} a.
Arguments Raises {A} e.

Definition pymap {A B : Type} (f : A -> B) (r : pyresult A) : pyresult B :=
  match r with
  | Returns a => Returns (f a)
  | Raises e => Raises e
  end.

(** ** [os.path.join] (posixpath)

    [join(a, *p)] scans the components from left to right: a component
    that starts with the separator replaces what was built so far, an
    empty path or one that ends with the separator is extended as it is,
    and anything else gets a separator first. *)
Module OsPath.

Definition sep : ascii := "/"%char.

Definition startswith_sep (s : string) : bool :=
  match s with
  | String c _ => Ascii.eqb c sep
  | EmptyString => false
  end.

Fixpoint endswith_sep (s : string) : bool :=
  match s with
  | EmptyString => false
  | String c EmptyString => Ascii.eqb c sep
  | String _ r => endswith_sep r
  end.

Definition is_empty (s : string) : bool :=
  match s with EmptyString => true | _ => false end.

Definition join_step (path b : string) : string :=
  if startswith_sep b then b
  else if is_empty path || endswith_sep path then String.append path b
  else String.append path (String sep b).

Definition join (a : string) (p : list string) : string :=
  fold_left join_step p a.

End OsPath.

(** ** [GoogleMedia.py] *)
Module GoogleMedia.

Inductive MediaType : Type := DRIVE | PICASA | DATABASE | ALBUM_LINK | NONE.

(** The attributes that [__init__] sets.  [MEDIA_FOLDER] and
    [MEDIA_TYPE] are class attributes, copied into the instance. *)
Record GoogleMedia : Type := {
  media_type : MediaType;
  media_folder : string;
  __relative_path : string;
  __root_path : string;
  __duplicate_number : Z
}.

Definition MEDIA_FOLDER : string := "".
Definition MEDIA_TYPE : MediaType := NONE.

Definition __init__ (relative_path root_path : string) : GoogleMedia :=
  {| media_type := MEDIA_TYPE;
     media_folder := MEDIA_FOLDER;
     __relative_path := relative_path;
     __root_path := root_path;
     __duplicate_number := 0 |}.

(** The abstract properties.  The base class raises
    [NotImplementedError] in each of them; a media class overrides
    them.  A media class is a type with its base-class part and its
    own [filename]. *)
Class MediaClass (T : Type) : Type := {
  base : T -> GoogleMedia;
  filename : T -> pyresult string
}.

(** The base class itself, whose [filename] is not implemented. *)
#[export] Instance GoogleMedia_class : MediaClass GoogleMedia := {
  base := fun m => m;
  filename := fun _ => Raises NotImplementedError
}.

Section Accessors.
Context {T : Type} `{MediaClass T}.

Definition local_folder (self : T) : string :=
  OsPath.join (__root_path (base self))
              [media_folder (base self); __relative_path (base self)].

Definition local_full_path (self : T) : pyresult string :=
  pymap (fun f => OsPath.join (local_folder self) [f]) (filename self).

Definition remote_path (self : T) : pyresult string :=
  pymap (fun f => OsPath.join (__relative_path (base self)) [f])
        (filename self).

Definition relative_folder (self : T) : string :=
  __relative_path (base self).

Definition duplicate_number (self : T) : Z :=
  __duplicate_number (base self).

End Accessors.

End GoogleMedia.

(** ** [gphotos/GooglePhotosSync.py] *)
Module GooglePhotosSync.

Definition PAGE_SIZE : nat := 100.
Definition MAX_THREADS : nat := 20.
Definition BATCH_SIZE : nat := 40.

(** *** Python objects and dictionaries *)

(** An exception object is an instance of its class; the class is an
    object of its own.  [==] on objects that define no [__eq__] is
    identity, so an instance never equals a class object. *)
Inductive pyobject : Type :=
| Instance (addr : nat) (c : exn_class)
| ClassObject (c : exn_class).

Definition py_eq (a b : pyobject) : bool :=
  match a, b with
  | Instance i _, Instance j _ => bool_decide (i = j)
  | ClassObject c, ClassObject d => bool_decide (c = d)
  | _, _ => false
  end.

(** The direct base classes, among the classes listed:
    [RequestException] derives from [IOError], that is [OSError]. *)
Definition bases (c : exn_class) : list exn_class :=
  match c with
  | HTTPError | RetryError | ConnectionError | Timeout => [OSError]
  | FileNotFoundError => [OSError]
  | _ => []
  end.

Definition isinstance (e c : exn_class) : bool :=
  bool_decide (e = c) || bool_decide (c ∈ bases e).

(** A [dict] keeps its keys in insertion order; assigning to a key
    that is present replaces the value where it stands. *)
Section Dict.
Context {K V : Type} `{EqDecision K}.

Fixpoint dict_get (k : K) (d : list (K * V)) : option V :=
  match d with
  | [] => None
  | (k', v) :: r => if decide (k = k') then Some v else dict_get k r
  end.

Fixpoint dict_set (k : K) (v : V) (d : list (K * V)) : list (K * V) :=
  match d with
  | [] => [(k, v)]
  | (k', v') :: r =>
      if decide (k = k') then (k, v) :: r else (k', v') :: dict_set k v r
  end.

Fixpoint dict_del (k : K) (d : list (K * V)) : list (K * V) :=
  match d with
  | [] => []
  | (k', v') :: r =>
      if decide (k = k') then r else (k', v') :: dict_del k r
  end.

Definition dict_keys (d : list (K * V)) : list K := map fst d.

End Dict.

(** *** The media records and the collaborators *)

(** Modelled from the spec: the media record ([GooglePhotosMedia] when
    indexing, [DatabaseMedia] when downloading), whose classes are not
    part of these sources, with the attributes that this file reads.
    Dates are timestamps. *)
Record MediaItem : Type := {
  id : string;
  relative_folder : string;
  filename : string;
  url : string;
  is_video : bool;
  modify_date : Z;
  create_date : Z
}.

(** Modelled from the spec: the [relative_path] property of the media
    classes, the path of the file below the mirror root. *)
Definition relative_path (m : MediaItem) : string :=
  OsPath.join (relative_folder m) [filename m].

(** Modelled from the spec: the metadata store [LocalData], which is
    not part of these sources.  It persists the item records and the
    scan watermark, and exposes lookup by (folder, filename), upsert,
    mark-downloaded and watermark get/set.  The records are kept as
    the sequence of upserts, newest first; a lookup returns the newest
    one with the path asked for. *)
Record LocalData : Type := {
  scan_date : option Z;
  saved : list MediaItem;
  downloaded : gset string;
  store_count : nat
}.

Definition get_file_by_path (folder name : string) (db : LocalData)
  : option MediaItem :=
  List.find (fun r => bool_decide (relative_folder r = folder)
                      && bool_decide (filename r = name)) (saved db).

Definition is_indexed (db : LocalData) (m : MediaItem) : option MediaItem :=
  get_file_by_path (relative_folder m) (filename m) db.

Definition save_to_db (m : MediaItem) (update : bool) (db : LocalData)
  : LocalData :=
  {| scan_date := scan_date db; saved := m :: saved db;
     downloaded := downloaded db; store_count := store_count db |}.

Definition put_downloaded (i : string) (db : LocalData) : LocalData :=
  {| scan_date := scan_date db; saved := saved db;
     downloaded := {[ i ]} ∪ downloaded db; store_count := store_count db |}.

Definition set_scan_date (last_date : Z) (db : LocalData) : LocalData :=
  {| scan_date := Some last_date; saved := saved db;
     downloaded := downloaded db; store_count := store_count db |}.

Definition db_store (db : LocalData) : LocalData :=
  {| scan_date := scan_date db; saved := saved db;
     downloaded := downloaded db; store_count := S (store_count db) |}.

(** Modelled from the spec: the Quarantine Ledger [BadIds], which is
    not part of these sources: a map from identifier to (path,
    context), with [check_id_ok], an idempotent [add_id], and
    [store_ids] that rewrites the persisted form wholesale. *)
Record BadIds : Type := {
  items : gmap string (string * string);
  persisted : gmap string (string * string)
}.

Definition check_id_ok (i : string) (b : BadIds) : bool :=
  bool_decide (items b !! i = None).

Definition add_id (path i product_url : string) (b : BadIds) : BadIds :=
  {| items := <[ i := (path, product_url) ]> (items b);
     persisted := persisted b |}.

Definition store_ids (b : BadIds) : BadIds :=
  {| items := items b; persisted := items b |}.

(** The JSON documents of the remote catalog, typed. *)
Record MediaJson : Type := {
  json_id : string;
  baseUrl : option string
}.

Record BatchJson : Type := {
  batch_pageToken : option string;
  mediaItemResults : list (option MediaJson)   (* the "mediaItem" of each result *)
}.

Record PageJson : Type := {
  mediaItems : list MediaItem;
  nextPageToken : option string
}.

Record Y : Type := { year : Z; month : Z; day : Z }.

Record SearchBody : Type := {
  body_pageToken : option string;
  body_pageSize : nat;
  body_startDate : Y;
  body_endDate : Y;
  body_mediaTypes : list string
}.

Inductive Request : Type :=
| ListRequest (pageToken : option string) (pageSize : nat)
| SearchRequest (body : SearchBody)
| BatchGetRequest (mediaItemIds : list string)
| GetRequest (item_id : string).

(** What lies outside the engine, taken as given: the helpers of
    [Utils] and the calendar, the answers of the remote catalog to URL
    resolution, the local disk as the coordinating thread finds it, and
    the worker threads.  Future [n] is the [n]-th task submitted to the
    pool; [task_exception] is what its worker body ends with (nothing
    when it returns), and [task_finish] the poll of the coordinator
    from which [done()] answers true: every worker finishes, since every
    transfer has a timeout. *)
Record World : Type := {
  minimum_date : Z;
  string_to_date : string -> Z;
  ymd : Z -> Y;
  folder_of_date : Z -> string;
  mediaItems_batchGet : list string -> pyresult BatchJson;
  mediaItems_get : string -> pyresult MediaJson;
  os_path_exists : string -> bool;
  task_exception : nat -> option exn_class;
  task_finish : nat -> nat
}.

(** Modelled from the spec: [set_path_by_date], a method of the media
    classes that are not part of these sources; it computes the local
    folder of the record from its creation date, below the media
    folder. *)
Definition set_path_by_date (w : World) (root : string) (m : MediaItem)
  : MediaItem :=
  {| id := id m;
     relative_folder := OsPath.join root [folder_of_date w (create_date m)];
     filename := filename m; url := url m; is_video := is_video m;
     modify_date := modify_date m; create_date := create_date m |}.

(** A task of the pool: the arguments of [do_download_file]. *)
Record Task : Type := {
  task_base_url : string;
  task_media : MediaItem
}.

(** *** The state of a [GooglePhotosSync] object *)
Record State : Type := {
  _db : LocalData;
  _root_folder : string;
  _media_folder : string;
  download_pool : list Task;
  pool_future_to_media : list (nat * MediaItem);
  bad_ids : BadIds;
  files_downloaded : nat;
  files_download_started : nat;
  files_download_skipped : nat;
  files_download_failed : nat;
  files_indexed : nat;
  files_index_skipped : nat;
  _latest_download : Z;
  _startDate : option Z;
  _endDate : option Z;
  includeVideo : bool;
  _rescan : bool;
  _retry_download : bool;
  _video_timeout : Z;
  _image_timeout : Z;
  (* the collaborators, as far as the coordinating thread drives them *)
  api_calls : list Request;       (* requests executed, oldest first *)
  dirs : gset string;             (* directories on the local disk *)
  clock : nat                     (* polls of the pool so far *)
}.


(** Assignment to one attribute. *)
Definition set_db (v : LocalData) (st : State) : State :=
  {| _db := v; _root_folder := _root_folder st;
     _media_folder := _media_folder st;
     download_pool := download_pool st;
     pool_future_to_media := pool_future_to_media st;
     bad_ids := bad_ids st; files_downloaded := files_downloaded st;
     files_download_started := files_download_started st;
     files_download_skipped := files_download_skipped st;
     files_download_failed := files_download_failed st;
     files_indexed := files_indexed st;
     files_index_skipped := files_index_skipped st;
     _latest_download := _latest_download st;
     _startDate := _startDate st; _endDate := _endDate st;
     includeVideo := includeVideo st; _rescan := _rescan st;
     _retry_download := _retry_download st;
     _video_timeout := _video_timeout st;
     _image_timeout := _image_timeout st; api_calls := api_calls st;
     dirs := dirs st; clock := clock st |}.

Definition set_download_pool (v : list Task) (st : State) : State :=
  {| _db := _db st; _root_folder := _root_folder st;
     _media_folder := _media_folder st; download_pool := v;
     pool_future_to_media := pool_future_to_media st;
     bad_ids := bad_ids st; files_downloaded := files_downloaded st;
     files_download_started := files_download_started st;
     files_download_skipped := files_download_skipped st;
     files_download_failed := files_download_failed st;
     files_indexed := files_indexed st;
     files_index_skipped := files_index_skipped st;
     _latest_download := _latest_download st;
     _startDate := _startDate st; _endDate := _endDate st;
     includeVideo := includeVideo st; _rescan := _rescan st;
     _retry_download := _retry_download st;
     _video_timeout := _video_timeout st;
     _image_timeout := _image_timeout st; api_calls := api_calls st;
     dirs := dirs st; clock := clock st |}.

Definition set_pool_future_to_media (v : list (nat * MediaItem)) (st : State) : State :=
  {| _db := _db st; _root_folder := _root_folder st;
     _media_folder := _media_folder st;
     download_pool := download_pool st; pool_future_to_media := v;
     bad_ids := bad_ids st; files_downloaded := files_downloaded st;
     files_download_started := files_download_started st;
     files_download_skipped := files_download_skipped st;
     files_download_failed := files_download_failed st;
     files_indexed := files_indexed st;
     files_index_skipped := files_index_skipped st;
     _latest_download := _latest_download st;
     _startDate := _startDate st; _endDate := _endDate st;
     includeVideo := includeVideo st; _rescan := _rescan st;
     _retry_download := _retry_download st;
     _video_timeout := _video_timeout st;
     _image_timeout := _image_timeout st; api_calls := api_calls st;
     dirs := dirs st; clock := clock st |}.

Definition set_bad_ids (v : BadIds) (st : State) : State :=
  {| _db := _db st; _root_folder := _root_folder st;
     _media_folder := _media_folder st;
     download_pool := download_pool st;
     pool_future_to_media := pool_future_to_media st; bad_ids := v;
     files_downloaded := files_downloaded st;
     files_download_started := files_download_started st;
     files_download_skipped := files_download_skipped st;
     files_download_failed := files_download_failed st;
     files_indexed := files_indexed st;
     files_index_skipped := files_index_skipped st;
     _latest_download := _latest_download st;
     _startDate := _startDate st; _endDate := _endDate st;
     includeVideo := includeVideo st; _rescan := _rescan st;
     _retry_download := _retry_download st;
     _video_timeout := _video_timeout st;
     _image_timeout := _image_timeout st; api_calls := api_calls st;
     dirs := dirs st; clock := clock st |}.

Definition set_files_downloaded (v : nat) (st : State) : State :=
  {| _db := _db st; _root_folder := _root_folder st;
     _media_folder := _media_folder st;
     download_pool := download_pool st;
     pool_future_to_media := pool_future_to_media st;
     bad_ids := bad_ids st; files_downloaded := v;
     files_download_started := files_download_started st;
     files_download_skipped := files_download_skipped st;
     files_download_failed := files_download_failed st;
     files_indexed := files_indexed st;
     files_index_skipped := files_index_skipped st;
     _latest_download := _latest_download st;
     _startDate := _startDate st; _endDate := _endDate st;
     includeVideo := includeVideo st; _rescan := _rescan st;
     _retry_download := _retry_download st;
     _video_timeout := _video_timeout st;
     _image_timeout := _image_timeout st; api_calls := api_calls st;
     dirs := dirs st; clock := clock st |}.

Definition set_files_download_started (v : nat) (st : State) : State :=
  {| _db := _db st; _root_folder := _root_folder st;
     _media_folder := _media_folder st;
     download_pool := download_pool st;
     pool_future_to_media := pool_future_to_media st;
     bad_ids := bad_ids st; files_downloaded := files_downloaded st;
     files_download_started := v;
     files_download_skipped := files_download_skipped st;
     files_download_failed := files_download_failed st;
     files_indexed := files_indexed st;
     files_index_skipped := files_index_skipped st;
     _latest_download := _latest_download st;
     _startDate := _startDate st; _endDate := _endDate st;
     includeVideo := includeVideo st; _rescan := _rescan st;
     _retry_download := _retry_download st;
     _video_timeout := _video_timeout st;
     _image_timeout := _image_timeout st; api_calls := api_calls st;
     dirs := dirs st; clock := clock st |}.

Definition set_files_download_skipped (v : nat) (st : State) : State :=
  {| _db := _db st; _root_folder := _root_folder st;
     _media_folder := _media_folder st;
     download_pool := download_pool st;
     pool_future_to_media := pool_future_to_media st;
     bad_ids := bad_ids st; files_downloaded := files_downloaded st;
     files_download_started := files_download_started st;
     files_download_skipped := v;
     files_download_failed := files_download_failed st;
     files_indexed := files_indexed st;
     files_index_skipped := files_index_skipped st;
     _latest_download := _latest_download st;
     _startDate := _startDate st; _endDate := _endDate st;
     includeVideo := includeVideo st; _rescan := _rescan st;
     _retry_download := _retry_download st;
     _video_timeout := _video_timeout st;
     _image_timeout := _image_timeout st; api_calls := api_calls st;
     dirs := dirs st; clock := clock st |}.

Definition set_files_download_failed (v : nat) (st : State) : State :=
  {| _db := _db st; _root_folder := _root_folder st;
     _media_folder := _media_folder st;
     download_pool := download_pool st;
     pool_future_to_media := pool_future_to_media st;
     bad_ids := bad_ids st; files_downloaded := files_downloaded st;
     files_download_started := files_download_started st;
     files_download_skipped := files_download_skipped st;
     files_download_failed := v; files_indexed := files_indexed st;
     files_index_skipped := files_index_skipped st;
     _latest_download := _latest_download st;
     _startDate := _startDate st; _endDate := _endDate st;
     includeVideo := includeVideo st; _rescan := _rescan st;
     _retry_download := _retry_download st;
     _video_timeout := _video_timeout st;
     _image_timeout := _image_timeout st; api_calls := api_calls st;
     dirs := dirs st; clock := clock st |}.

Definition set_files_indexed (v : nat) (st : State) : State :=
  {| _db := _db st; _root_folder := _root_folder st;
     _media_folder := _media_folder st;
     download_pool := download_pool st;
     pool_future_to_media := pool_future_to_media st;
     bad_ids := bad_ids st; files_downloaded := files_downloaded st;
     files_download_started := files_download_started st;
     files_download_skipped := files_download_skipped st;
     files_download_failed := files_download_failed st;
     files_indexed := v; files_index_skipped := files_index_skipped st;
     _latest_download := _latest_download st;
     _startDate := _startDate st; _endDate := _endDate st;
     includeVideo := includeVideo st; _rescan := _rescan st;
     _retry_download := _retry_download st;
     _video_timeout := _video_timeout st;
     _image_timeout := _image_timeout st; api_calls := api_calls st;
     dirs := dirs st; clock := clock st |}.

Definition set_files_index_skipped (v : nat) (st : State) : State :=
  {| _db := _db st; _root_folder := _root_folder st;
     _media_folder := _media_folder st;
     download_pool := download_pool st;
     pool_future_to_media := pool_future_to_media st;
     bad_ids := bad_ids st; files_downloaded := files_downloaded st;
     files_download_started := files_download_started st;
     files_download_skipped := files_download_skipped st;
     files_download_failed := files_download_failed st;
     files_indexed := files_indexed st; files_index_skipped := v;
     _latest_download := _latest_download st;
     _startDate := _startDate st; _endDate := _endDate st;
     includeVideo := includeVideo st; _rescan := _rescan st;
     _retry_download := _retry_download st;
     _video_timeout := _video_timeout st;
     _image_timeout := _image_timeout st; api_calls := api_calls st;
     dirs := dirs st; clock := clock st |}.

Definition set_latest_download (v : Z) (st : State) : State :=
  {| _db := _db st; _root_folder := _root_folder st;
     _media_folder := _media_folder st;
     download_pool := download_pool st;
     pool_future_to_media := pool_future_to_media st;
     bad_ids := bad_ids st; files_downloaded := files_downloaded st;
     files_download_started := files_download_started st;
     files_download_skipped := files_download_skipped st;
     files_download_failed := files_download_failed st;
     files_indexed := files_indexed st;
     files_index_skipped := files_index_skipped st;
     _latest_download := v; _startDate := _startDate st;
     _endDate := _endDate st; includeVideo := includeVideo st;
     _rescan := _rescan st; _retry_download := _retry_download st;
     _video_timeout := _video_timeout st;
     _image_timeout := _image_timeout st; api_calls := api_calls st;
     dirs := dirs st; clock := clock st |}.

Definition set_api_calls (v : list Request) (st : State) : State :=
  {| _db := _db st; _root_folder := _root_folder st;
     _media_folder := _media_folder st;
     download_pool := download_pool st;
     pool_future_to_media := pool_future_to_media st;
     bad_ids := bad_ids st; files_downloaded := files_downloaded st;
     files_download_started := files_download_started st;
     files_download_skipped := files_download_skipped st;
     files_download_failed := files_download_failed st;
     files_indexed := files_indexed st;
     files_index_skipped := files_index_skipped st;
     _latest_download := _latest_download st;
     _startDate := _startDate st; _endDate := _endDate st;
     includeVideo := includeVideo st; _rescan := _rescan st;
     _retry_download := _retry_download st;
     _video_timeout := _video_timeout st;
     _image_timeout := _image_timeout st; api_calls := v;
     dirs := dirs st; clock := clock st |}.

Definition set_dirs (v : gset string) (st : State) : State :=
  {| _db := _db st; _root_folder := _root_folder st;
     _media_folder := _media_folder st;
     download_pool := download_pool st;
     pool_future_to_media := pool_future_to_media st;
     bad_ids := bad_ids st; files_downloaded := files_downloaded st;
     files_download_started := files_download_started st;
     files_download_skipped := files_download_skipped st;
     files_download_failed := files_download_failed st;
     files_indexed := files_indexed st;
     files_index_skipped := files_index_skipped st;
     _latest_download := _latest_download st;
     _startDate := _startDate st; _endDate := _endDate st;
     includeVideo := includeVideo st; _rescan := _rescan st;
     _retry_download := _retry_download st;
     _video_timeout := _video_timeout st;
     _image_timeout := _image_timeout st; api_calls := api_calls st;
     dirs := v; clock := clock st |}.

Definition set_clock (v : nat) (st : State) : State :=
  {| _db := _db st; _root_folder := _root_folder st;
     _media_folder := _media_folder st;
     download_pool := download_pool st;
     pool_future_to_media := pool_future_to_media st;
     bad_ids := bad_ids st; files_downloaded := files_downloaded st;
     files_download_started := files_download_started st;
     files_download_skipped := files_download_skipped st;
     files_download_failed := files_download_failed st;
     files_indexed := files_indexed st;
     files_index_skipped := files_index_skipped st;
     _latest_download := _latest_download st;
     _startDate := _startDate st; _endDate := _endDate st;
     includeVideo := includeVideo st; _rescan := _rescan st;
     _retry_download := _retry_download st;
     _video_timeout := _video_timeout st;
     _image_timeout := _image_timeout st; api_calls := api_calls st;
     dirs := dirs st; clock := v |}.

Definition set_startDate (v : option Z) (st : State) : State :=
  {| _db := _db st; _root_folder := _root_folder st;
     _media_folder := _media_folder st;
     download_pool := download_pool st;
     pool_future_to_media := pool_future_to_media st;
     bad_ids := bad_ids st; files_downloaded := files_downloaded st;
     files_download_started := files_download_started st;
     files_download_skipped := files_download_skipped st;
     files_download_failed := files_download_failed st;
     files_indexed := files_indexed st;
     files_index_skipped := files_index_skipped st;
     _latest_download := _latest_download st; _startDate := v;
     _endDate := _endDate st; includeVideo := includeVideo st;
     _rescan := _rescan st; _retry_download := _retry_download st;
     _video_timeout := _video_timeout st;
     _image_timeout := _image_timeout st; api_calls := api_calls st;
     dirs := dirs st; clock := clock st |}.

Definition set_endDate (v : option Z) (st : State) : State :=
  {| _db := _db st; _root_folder := _root_folder st;
     _media_folder := _media_folder st;
     download_pool := download_pool st;
     pool_future_to_media := pool_future_to_media st;
     bad_ids := bad_ids st; files_downloaded := files_downloaded st;
     files_download_started := files_download_started st;
     files_download_skipped := files_download_skipped st;
     files_download_failed := files_download_failed st;
     files_indexed := files_indexed st;
     files_index_skipped := files_index_skipped st;
     _latest_download := _latest_download st;
     _startDate := _startDate st; _endDate := v;
     includeVideo := includeVideo st; _rescan := _rescan st;
     _retry_download := _retry_download st;
     _video_timeout := _video_timeout st;
     _image_timeout := _image_timeout st; api_calls := api_calls st;
     dirs := dirs st; clock := clock st |}.

Definition set_includeVideo (v : bool) (st : State) : State :=
  {| _db := _db st; _root_folder := _root_folder st;
     _media_folder := _media_folder st;
     download_pool := download_pool st;
     pool_future_to_media := pool_future_to_media st;
     bad_ids := bad_ids st; files_downloaded := files_downloaded st;
     files_download_started := files_download_started st;
     files_download_skipped := files_download_skipped st;
     files_download_failed := files_download_failed st;
     files_indexed := files_indexed st;
     files_index_skipped := files_index_skipped st;
     _latest_download := _latest_download st;
     _startDate := _startDate st; _endDate := _endDate st;
     includeVideo := v; _rescan := _rescan st;
     _retry_download := _retry_download st;
     _video_timeout := _video_timeout st;
     _image_timeout := _image_timeout st; api_calls := api_calls st;
     dirs := dirs st; clock := clock st |}.

Definition rescan_setter (v : bool) (st : State) : State :=
  {| _db := _db st; _root_folder := _root_folder st;
     _media_folder := _media_folder st;
     download_pool := download_pool st;
     pool_future_to_media := pool_future_to_media st;
     bad_ids := bad_ids st; files_downloaded := files_downloaded st;
     files_download_started := files_download_started st;
     files_download_skipped := files_download_skipped st;
     files_download_failed := files_download_failed st;
     files_indexed := files_indexed st;
     files_index_skipped := files_index_skipped st;
     _latest_download := _latest_download st;
     _startDate := _startDate st; _endDate := _endDate st;
     includeVideo := includeVideo st; _rescan := v;
     _retry_download := _retry_download st;
     _video_timeout := _video_timeout st;
     _image_timeout := _image_timeout st; api_calls := api_calls st;
     dirs := dirs st; clock := clock st |}.

Definition retry_download_setter (v : bool) (st : State) : State :=
  {| _db := _db st; _root_folder := _root_folder st;
     _media_folder := _media_folder st;
     download_pool := download_pool st;
     pool_future_to_media := pool_future_to_media st;
     bad_ids := bad_ids st; files_downloaded := files_downloaded st;
     files_download_started := files_download_started st;
     files_download_skipped := files_download_skipped st;
     files_download_failed := files_download_failed st;
     files_indexed := files_indexed st;
     files_index_skipped := files_index_skipped st;
     _latest_download := _latest_download st;
     _startDate := _startDate st; _endDate := _endDate st;
     includeVideo := includeVideo st; _rescan := _rescan st;
     _retry_download := v; _video_timeout := _video_timeout st;
     _image_timeout := _image_timeout st; api_calls := api_calls st;
     dirs := dirs st; clock := clock st |}.

Definition video_timeout_setter (v : Z) (st : State) : State :=
  {| _db := _db st; _root_folder := _root_folder st;
     _media_folder := _media_folder st;
     download_pool := download_pool st;
     pool_future_to_media := pool_future_to_media st;
     bad_ids := bad_ids st; files_downloaded := files_downloaded st;
     files_download_started := files_download_started st;
     files_download_skipped := files_download_skipped st;
     files_download_failed := files_download_failed st;
     files_indexed := files_indexed st;
     files_index_skipped := files_index_skipped st;
     _latest_download := _latest_download st;
     _startDate := _startDate st; _endDate := _endDate st;
     includeVideo := includeVideo st; _rescan := _rescan st;
     _retry_download := _retry_download st; _video_timeout := v;
     _image_timeout := _image_timeout st; api_calls := api_calls st;
     dirs := dirs st; clock := clock st |}.

Definition image_timeout_setter (v : Z) (st : State) : State :=
  {| _db := _db st; _root_folder := _root_folder st;
     _media_folder := _media_folder st;
     download_pool := download_pool st;
     pool_future_to_media := pool_future_to_media st;
     bad_ids := bad_ids st; files_downloaded := files_downloaded st;
     files_download_started := files_download_started st;
     files_download_skipped := files_download_skipped st;
     files_download_failed := files_download_failed st;
     files_indexed := files_indexed st;
     files_index_skipped := files_index_skipped st;
     _latest_download := _latest_download st;
     _startDate := _startDate st; _endDate := _endDate st;
     includeVideo := includeVideo st; _rescan := _rescan st;
     _retry_download := _retry_download st;
     _video_timeout := _video_timeout st; _image_timeout := v;
     api_calls := api_calls st; dirs := dirs st; clock := clock st |}.

(** The property setters that parse a date: an empty or missing value
    leaves the attribute as it is. *)
Definition truthy (val : option string) : bool :=
  match val with
  | Some s => negb (OsPath.is_empty s)
  | None => false
  end.

Definition start_date_setter (w : World) (val : option string)
    (st : State) : State :=
  match val with
  | Some s =>
      if truthy val then set_startDate (Some (string_to_date w s)) st
      else st
  | None => st
  end.

Definition end_date_setter (w : World) (val : option string)
    (st : State) : State :=
  match val with
  | Some s =>
      if truthy val then set_endDate (Some (string_to_date w s)) st
      else st
  | None => st
  end.

(** *** Statements: state passing with exceptions

    A statement runs to its end, raises, or (the polling loop of
    [download_file] only) is still going round when the polls allowed
    are used up.  The state is the one reached in each case: what a
    statement did before it raised stays done. *)
Inductive Res (A : Type) : Type :=
| Normal (a : A) (st : State)
| Raised (e : exn_class) (st : State)
| Spinning (st : State).
Arguments Normal {A} a st.
Arguments Raised {A} e st.
Arguments Spinning {A} st.

Definition M (A : Type) : Type := State -> Res A.

Definition ret {A : Type} (a : A) : M A := fun st => Normal a st.

Definition bind {A B : Type} (m : M A) (k : A -> M B) : M B :=
  fun st =>
    match m st with
    | Normal a st' => k a st'
    | Raised e st' => Raised e st'
    | Spinning st' => Spinning st'
    end.

Definition raise {A : Type} (e : exn_class) : M A := fun st => Raised e st.

Definition modify (f : State -> State) : M unit := fun st => Normal tt (f st).

Definition gets {A : Type} (f : State -> A) : M A := fun st => Normal (f st) st.

Notation "x <- m ;; k" := (bind m (fun x => k))
  (at level 100, m at next level, right associativity).
Notation "m ;;; k" := (bind m (fun _ => k))
  (at level 100, right associativity).

(** [try: body  except ...: handler]: [handler e] is the clause that
    catches [e], if there is one. *)
Definition try_except {A : Type} (body : M A)
    (handler : exn_class -> option (M A)) : M A :=
  fun st =>
    match body st with
    | Raised e st' =>
        match handler e with
        | Some h => h st'
        | None => Raised e st'
        end
    | r => r
    end.

(** [try: body  finally: cleanup]: the cleanup runs on both ways out,
    and an exception of its own replaces the one in flight. *)
Definition try_finally {A : Type} (body : M A) (cleanup : M unit) : M A :=
  fun st =>
    match body st with
    | Normal a st' =>
        match cleanup st' with
        | Normal _ st'' => Normal a st''
        | Raised e st'' => Raised e st''
        | Spinning st'' => Spinning st''
        end
    | Raised e st' =>
        match cleanup st' with
        | Normal _ st'' => Raised e st''
        | Raised e' st'' => Raised e' st''
        | Spinning st'' => Spinning st''
        end
    | Spinning st' => Spinning st'
    end.

Definition state_of {A : Type} (r : Res A) : State :=
  match r with
  | Normal _ st => st
  | Raised _ st => st
  | Spinning st => st
  end.

(** [for x in l: body x] *)
Fixpoint for_each {A : Type} (l : list A) (body : A -> M unit) : M unit :=
  match l with
  | [] => ret tt
  | x :: r => body x ;;; for_each r body
  end.

(** *** [__init__] (the attributes this development reads) *)
Definition __init__ (w : World) (root_folder : string) (db : LocalData)
    (ledger : gmap string (string * string)) : State :=
  {| _db := db; _root_folder := root_folder; _media_folder := "photos";
     download_pool := []; pool_future_to_media := [];
     bad_ids := {| items := ledger; persisted := ledger |};
     files_downloaded := 0; files_download_started := 0;
     files_download_skipped := 0; files_download_failed := 0;
     files_indexed := 0; files_index_skipped := 0;
     _latest_download := default (minimum_date w) (scan_date db);
     _startDate := None; _endDate := None; includeVideo := true;
     _rescan := false; _retry_download := false;
     _video_timeout := 2000; _image_timeout := 60;
     api_calls := []; dirs := ∅; clock := 0 |}.

(** *** Indexing *)

Definition write_media_index (media : MediaItem) (update : bool) : M unit :=
  modify (fun st => set_db (save_to_db media update (_db st)) st) ;;;
  modify (fun st =>
    if (_latest_download st <? create_date media)%Z
    then set_latest_download (create_date media) st else st).

(** The request that [search_media] sends. *)
Definition search_request (w : World) (page_token : option string)
    (start_date end_date : option Z) (do_video : bool) : Request :=
  if negb (bool_decide (is_Some start_date))
     && negb (bool_decide (is_Some end_date)) && do_video
  then ListRequest page_token PAGE_SIZE
  else
    let start := default {| year := 1900; month := 1; day := 1 |}
                         (ymd w <$> start_date) in
    let end_ := default {| year := 3000; month := 1; day := 1 |}
                        (ymd w <$> end_date) in
    let type_list := if negb do_video then ["PHOTO"] else ["ALL_MEDIA"] in
    SearchRequest {| body_pageToken := page_token;
                     body_pageSize := PAGE_SIZE;
                     body_startDate := start;
                     body_endDate := end_;
                     body_mediaTypes := type_list |}.

(** [search_media], given the answer of the catalog to its request. *)
Definition search_media (w : World) (answer : pyresult PageJson)
    (page_token : option string) (start_date end_date : option Z)
    (do_video : bool) : M PageJson :=
  modify (fun st => set_api_calls
    (api_calls st ++ [search_request w page_token start_date end_date do_video])
    st) ;;;
  match answer with
  | Returns items_json => ret items_json
  | Raises e => raise e
  end.

(** The start boundary of the scan (the first statement of
    [index_photos_media]). *)
Definition effective_start_date (st : State) : option Z :=
  if _rescan st then None
  else match _startDate st with
       | Some d => Some d
       | None => scan_date (_db st)
       end.

(** The body of the loop over the items of a page. *)
Definition index_item (w : World) (media_item_json : MediaItem) : M unit :=
  media_folder <- gets _media_folder ;;
  let media_item := set_path_by_date w media_folder media_item_json in
  row <- gets (fun st => is_indexed (_db st) media_item) ;;
  match row with
  | None =>
      modify (fun st => set_files_indexed (files_indexed st + 1) st) ;;;
      write_media_index media_item false ;;;
      n <- gets files_indexed ;;
      if bool_decide (n `mod` 2000 = 0)
      then modify (fun st => set_db (db_store (_db st)) st)
      else ret tt
  | Some r =>
      if (modify_date r <? modify_date media_item)%Z then
        modify (fun st => set_files_indexed (files_indexed st + 1) st) ;;;
        write_media_index media_item true
      else
        modify (fun st =>
          set_files_index_skipped (files_index_skipped st + 1) st)
  end.

Definition json_empty (j : PageJson) : bool :=
  match mediaItems j, nextPageToken j with
  | [], None => true
  | _, _ => false
  end.

Definition empty_json : PageJson :=
  {| mediaItems := []; nextPageToken := None |}.

(** The [while items_json] loop.  [catalog] holds the answers that
    the remote catalog gives to the calls still to come, in order;
    past its end it answers with an empty document. *)
Fixpoint index_pages (w : World) (start_date : option Z)
    (catalog : list (pyresult PageJson)) (items_json : PageJson) : M unit :=
  if json_empty items_json then ret tt
  else
    match mediaItems items_json with
    | [] => ret tt                                  (* break *)
    | media_json =>
        for_each media_json (index_item w) ;;;
        let next_page := nextPageToken items_json in
        if truthy next_page then
          end_date <- gets _endDate ;;
          do_video <- gets includeVideo ;;
          match catalog with
          | answer :: rest =>
              items_json' <- search_media w answer next_page start_date
                                          end_date do_video ;;
              index_pages w start_date rest items_json'
          | [] =>
              search_media w (Returns empty_json) next_page start_date
                           end_date do_video ;;;
              ret tt
          end
        else ret tt                                 (* break *)
    end.

Definition index_photos_media (w : World)
    (catalog : list (pyresult PageJson)) : M unit :=
  start_date <- gets effective_start_date ;;
  end_date <- gets _endDate ;;
  do_video <- gets includeVideo ;;
  items_json <- search_media w (hd (Returns empty_json) catalog) None
                             start_date end_date do_video ;;
  index_pages w start_date (tl catalog) items_json ;;;
  explicit_start <- gets _startDate ;;
  if negb (bool_decide (is_Some explicit_start)) then
    modify (fun st => set_db (set_scan_date (_latest_download st) (_db st)) st)
  else ret tt.

(** *** The worker body

    [do_download_file] runs on a worker thread.  It reads its
    arguments and the timeouts, and writes to the local disk only: a
    map from the paths of the files that exist to how much of the
    remote body each holds.

    Scope.  [tempfile.NamedTemporaryFile] is taken to return: the
    model starts from the disk on which the temporary file has been
    created.  Where it raises instead (the folder is missing, say),
    it does so before the [try] block, with the disk as it was; that
    case is not covered by this model. *)
Inductive Content : Type := Empty | Partial | Complete.

(** What the calls of the worker body meet: the exception, if any,
    that each of them raises, and the name that
    [NamedTemporaryFile] picks. *)
Record Transfer : Type := {
  temp_name : string;
  session_get : string -> Z -> option exn_class;   (* url, timeout *)
  copyfileobj : option exn_class;
  temp_file_close : option exn_class;
  response_close : option exn_class;
  os_rename : option exn_class;
  os_utime : option exn_class
}.

(** The statements of the [try] block, from the state of the disk in
    which the temporary file has just been created. *)
Definition try_block (t : Transfer) (download_url : string) (timeout : Z)
    (temp local_full_path : string) (fs : gmap string Content)
  : gmap string Content * option exn_class :=
  match session_get t download_url timeout with
  | Some e => (fs, Some e)
  | None =>
  match copyfileobj t with
  | Some e => (<[ temp := Partial ]> fs, Some e)
  | None =>
  let fs := <[ temp := Complete ]> fs in
  match temp_file_close t with
  | Some e => (fs, Some e)
  | None =>
  match response_close t with
  | Some e => (fs, Some e)
  | None =>
  match os_rename t with
  | Some e => (fs, Some e)
  | None =>
  let fs := <[ local_full_path := Complete ]> (delete temp fs) in
  match os_utime t with
  | Some e => (fs, Some e)
  | None => (fs, None)
  end end end end end end.

Definition do_download_file (st : State) (t : Transfer) (base_url : string)
    (media_item : MediaItem) (fs : gmap string Content)
  : gmap string Content * pyresult unit :=
  let local_folder := OsPath.join (_root_folder st) [relative_folder media_item] in
  let local_full_path := OsPath.join local_folder [filename media_item] in
  let '(download_url, timeout) :=
    if is_video media_item
    then (String.append base_url "=dv", _video_timeout st)
    else (String.append base_url "=d", _image_timeout st) in
  let temp_file := OsPath.join local_folder [temp_name t] in
  let fs := <[ temp_file := Empty ]> fs in
  match try_block t download_url timeout temp_file local_full_path fs with
  | (fs, None) => (fs, Returns tt)
  | (fs, Some e) =>
      if isinstance e KeyboardInterrupt then (fs, Raises e)
      else
        (* except BaseException: os.remove(temp_file.name); raise *)
        match fs !! temp_file with
        | Some _ => (delete temp_file fs, Raises e)
        | None => (fs, Raises FileNotFoundError)
        end
  end.

(** *** The coordinating thread and its futures

    Future [n] stands for the [n]-th task handed to [download_pool].
    [future.exception()] waits for the worker and returns what it
    raised; [future.done()] asks whether it has finished.

    Scope.  Every task is taken to have been taken up by a worker by
    the time [cancel()] is called on its future: [cancel()] then finds
    it running or finished and leaves it alone.  A future that is
    still pending would be cancelled, and [exception()] would raise
    [CancelledError] for it; the runs in which that happens are not
    covered by this model, and nothing is concluded here about what
    follows a [KeyboardInterrupt] in [download_batch]. *)
Definition future_exception (w : World) (future : nat) : option exn_class :=
  task_exception w future.

Definition future_done (w : World) (now : nat) (future : nat) : bool :=
  bool_decide (task_finish w future <= now).

Definition future_cancel (future : nat) : M unit := ret tt.

(** The body of the loop of [do_download_complete]. *)
Definition complete_one (w : World) (future : nat) : M unit :=
  media_item <- gets (fun st => dict_get future (pool_future_to_media st)) ;;
  match future_exception w future with
  | Some e =>
      modify (fun st =>
        set_files_download_failed (files_download_failed st + 1) st) ;;;
      match media_item with
      | None => raise AttributeError
      | Some m =>
          (if isinstance e HTTPError
           then modify (fun st => set_bad_ids
                  (add_id (relative_path m) (id m) (url m) (bad_ids st)) st)
           else ret tt) ;;;
          if py_eq (Instance future e) (ClassObject KeyboardInterrupt)
          then raise e
          else ret tt
      end
  | None =>
      match media_item with
      | None => raise AttributeError
      | Some m =>
          modify (fun st => set_db (put_downloaded (id m) (_db st)) st) ;;;
          modify (fun st =>
            set_files_downloaded (files_downloaded st + 1) st)
      end
  end ;;;
  d <- gets pool_future_to_media ;;
  match dict_get future d with
  | None => raise KeyError
  | Some _ => modify (set_pool_future_to_media (dict_del future d))
  end.

Definition do_download_complete (w : World) (futures_list : list nat)
  : M unit :=
  for_each futures_list (complete_one w).

(** The [while] loop of [download_file], for at most [polls] rounds.
    Each round looks at the pool one poll later. *)
Fixpoint wait_for_free_thread (w : World) (polls : nat) : M unit :=
  fun st =>
    if bool_decide (MAX_THREADS <= length (pool_future_to_media st)) then
      match polls with
      | 0 => Spinning st
      | S polls' =>
          let done_list :=
            List.filter (future_done w (clock st))
                        (dict_keys (pool_future_to_media st)) in
          (modify (fun st => set_clock (S (clock st)) st) ;;;
           do_download_complete w done_list ;;;
           wait_for_free_thread w polls') st
      end
    else Normal tt st.

(** Every worker finishes; this many rounds see all the futures of
    the dictionary done. *)
Definition latest_finish (w : World) (d : list (nat * MediaItem)) : nat :=
  foldr (fun f acc => Nat.max (task_finish w f) acc) 0 (dict_keys d).

Definition polls_needed (w : World) (st : State) : nat :=
  S (latest_finish w (pool_future_to_media st) - clock st).

(** [download_pool.submit] and the entry in the dictionary. *)
Definition submit (base_url : string) (media_item : MediaItem) : M unit :=
  modify (fun st =>
    let future := length (download_pool st) in
    set_pool_future_to_media
      (dict_set future media_item (pool_future_to_media st))
      (set_download_pool
         (download_pool st ++
            [{| task_base_url := base_url; task_media := media_item |}])
         st)).

Definition download_file (w : World) (media_item : MediaItem)
    (media_json : MediaJson) : M unit :=
  match baseUrl media_json with
  | None => raise KeyError
  | Some base_url =>
      polls <- gets (polls_needed w) ;;
      wait_for_free_thread w polls ;;;
      modify (fun st =>
        set_files_download_started (files_download_started st + 1) st) ;;;
      submit base_url media_item
  end.

Definition execute (request : Request) {A : Type} (answer : pyresult A)
  : M A :=
  modify (fun st => set_api_calls (api_calls st ++ [request]) st) ;;;
  match answer with
  | Returns json => ret json
  | Raises e => raise e
  end.

Definition http_or_retry (e : exn_class) : bool :=
  isinstance e HTTPError || isinstance e RetryError.

Definition quarantine (media_item : MediaItem) : M unit :=
  modify (fun st => set_bad_ids
    (add_id (relative_path media_item) (id media_item) (url media_item)
            (bad_ids st)) st).

(** The body of the loop of [find_bad_items]. *)
Definition find_bad_item (w : World) (entry : string * MediaItem) : M unit :=
  let '(item_id, media_item) := entry in
  media_folder <- gets _media_folder ;;
  let media_item := set_path_by_date w media_folder media_item in
  try_except
    (media_item_json <- execute (GetRequest item_id)
                                (mediaItems_get w item_id) ;;
     download_file w media_item media_item_json)
    (fun e =>
       if http_or_retry e then Some (
         quarantine media_item ;;;
         modify (fun st =>
           set_files_download_failed (files_download_failed st + 1) st))
       else None).

Definition find_bad_items (w : World) (batch : list (string * MediaItem))
  : M unit :=
  for_each batch (find_bad_item w).

(** The body of the loop of [download_batch] over the results.  Only
    the [batchGet] call of the [try] block can raise an HTTP or retry
    error, so the records of [batch] are as they were when the
    fallback runs. *)
Definition download_result (w : World) (batch : list (string * MediaItem))
    (media_item_json : option MediaJson) : M unit :=
  match media_item_json with
  | None => ret tt
  | Some json =>
      match dict_get (json_id json) batch with
      | None => raise AttributeError
      | Some media_item =>
          media_folder <- gets _media_folder ;;
          download_file w (set_path_by_date w media_folder media_item) json
      end
  end.

Definition download_batch (w : World) (batch : list (string * MediaItem))
  : M unit :=
  try_except
    (r_json <- execute (BatchGetRequest (dict_keys batch))
                       (mediaItems_batchGet w (dict_keys batch)) ;;
     for_each (mediaItemResults r_json) (download_result w batch))
    (fun e =>
       if isinstance e KeyboardInterrupt then Some (
         futures <- gets (fun st => dict_keys (pool_future_to_media st)) ;;
         for_each futures future_cancel ;;;
         raise e)
       else if http_or_retry e then Some (find_bad_items w batch)
       else None).

(** [grouper]: [zip_longest] over [BATCH_SIZE] copies of one iterator,
    the last block filled up with [None]. *)
Fixpoint grouper_loop (rounds : nat) (l : list MediaItem)
  : list (list (option MediaItem)) :=
  match rounds, l with
  | S rounds', _ :: _ =>
      let block := take BATCH_SIZE l in
      (map Some block ++ replicate (BATCH_SIZE - length block) None)%list
        :: grouper_loop rounds' (drop BATCH_SIZE l)
  | _, _ => []
  end.

Definition grouper (iterable : list MediaItem)
  : list (list (option MediaItem)) :=
  grouper_loop (length iterable) iterable.

(** The body of the loop over the candidates of a block. *)
Definition check_candidate (w : World) (media_item : MediaItem)
    (batch : list (string * MediaItem)) : M (list (string * MediaItem)) :=
  root_folder <- gets _root_folder ;;
  let local_folder := OsPath.join root_folder [relative_folder media_item] in
  let local_full_path := OsPath.join local_folder [filename media_item] in
  if os_path_exists w local_full_path then
    modify (fun st =>
      set_files_download_skipped (files_download_skipped st + 1) st) ;;;
    modify (fun st => set_db (put_downloaded (id media_item) (_db st)) st) ;;;
    ret batch
  else
    ok <- gets (fun st => check_id_ok (id media_item) (bad_ids st)) ;;
    if ok then
      is_dir <- gets (fun st => bool_decide (local_folder ∈ dirs st)) ;;
      (if negb is_dir
       then modify (fun st => set_dirs ({[ local_folder ]} ∪ dirs st) st)
       else ret tt) ;;;
      ret (dict_set (id media_item) media_item batch)
    else ret batch.

Fixpoint collect_batch (w : World) (items : list MediaItem)
    (batch : list (string * MediaItem)) : M (list (string * MediaItem)) :=
  match items with
  | [] => ret batch
  | media_item :: rest =>
      batch' <- check_candidate w media_item batch ;;
      collect_batch w rest batch'
  end.

Definition download_block (w : World)
    (media_items_block : list (option MediaItem)) : M unit :=
  let items := omap (fun mi => mi) media_items_block in
  batch <- collect_batch w items [] ;;
  if bool_decide (0 < length batch) then download_batch w batch else ret tt.

(** [candidates] is what [DatabaseMedia.get_media_by_search] streams
    from the store. *)
Definition download_photo_media (w : World) (candidates : list MediaItem)
  : M unit :=
  try_finally
    (for_each (grouper candidates) (download_block w))
    (futures_left <- gets (fun st => dict_keys (pool_future_to_media st)) ;;
     do_download_complete w futures_left ;;;
     modify (fun st => set_bad_ids (store_ids (bad_ids st)) st)).

(** *** Reconciliation: [check_for_removed]

    [os.walk] and [os.path.relpath] belong to the Python library and to
    the disk; they are taken as given.  [os_walk top] lists the
    directories below [top] as (directory, names of its files). *)
Section CheckForRemoved.
Variable os_walk : string -> list (string * list string).
Variable relpath : string -> string -> string.

(** The body of the inner loop: whether the file is removed. *)
Definition file_is_removed (st : State) (dir_name file_name : string) : bool :=
  let local_path := relpath dir_name (_root_folder st) in
  if String.prefix "." file_name || String.prefix "gphotos" file_name
  then false                                         (* continue *)
  else
    match get_file_by_path local_path file_name (_db st) with
    | Some _ => false
    | None => true
    end.

(** One round of the outer loop: the calls of [os.remove] for the
    files of a directory, in order.  The round assigns to no
    attribute and writes nothing to the store: the state is as it
    was. *)
Definition check_directory (st : State) (entry : string * list string)
  : list string * State :=
  let '(dir_name, file_names) := entry in
  ((fun file_name => OsPath.join dir_name [file_name])
   <$> List.filter (file_is_removed st dir_name) file_names,
   st).

(** The loop over the directories that [os.walk] yields. *)
Fixpoint check_directories (st : State)
    (listing : list (string * list string)) : list string * State :=
  match listing with
  | [] => ([], st)
  | entry :: rest =>
      let '(removed, st1) := check_directory st entry in
      let '(removed', st2) := check_directories st1 rest in
      ((removed ++ removed')%list, st2)
  end.

(** The names passed to [os.remove], in order, and the state in which
    the method returns. *)
Definition check_for_removed (st : State) : list string * State :=
  let start_folder := OsPath.join (_root_folder st) [_media_folder st] in
  check_directories st (os_walk start_folder).

End CheckForRemoved.

End GooglePhotosSync.

(** ** Vocabulary of the properties *)
Module SyncSpec.
Import GooglePhotosSync.

Local Open Scope Z_scope.

(** What a stretch of a scan leaves behind: the records [new] upserted
    (newest first), the running maximum moved over their creation
    dates, and the persisted watermark and the settings untouched. *)
Definition scanned (st st' : State) (new : list MediaItem) : Prop :=
  scan_date (_db st') = scan_date (_db st)
  /\ saved (_db st') = (new ++ saved (_db st))%list
  /\ _latest_download st'
     = foldr Z.max (_latest_download st) (create_date <$> new)
  /\ _startDate st' = _startDate st
  /\ _endDate st' = _endDate st
  /\ includeVideo st' = includeVideo st
  /\ _rescan st' = _rescan st
  /\ _media_folder st' = _media_folder st.

(** The requests of a scan: all for the same boundaries and media
    kinds, whatever the page. *)
Definition searches (w : World) (start_date : option Z) (st : State)
    (calls : list Request) : Prop :=
  Forall (fun r => exists page_token,
            r = search_request w page_token start_date (_endDate st)
                               (includeVideo st)) calls.

(** The statement ended: it returned or it raised. *)
Definition not_spinning {A : Type} (r : Res A) : Prop :=
  match r with Spinning _ => False | _ => True end.


(** *** Concrete inputs *)

Definition empty_store : LocalData :=
  {| scan_date := None; saved := []; downloaded := ∅; store_count := 0 |}.

(** A store last scanned up to timestamp 100. *)
Definition scanned_store : LocalData :=
  {| scan_date := Some 100; saved := []; downloaded := ∅; store_count := 0 |}.

Definition photo (name : string) (created : Z) : MediaItem :=
  {| id := name; relative_folder := "photos/2019/01";
     filename := String.append name ".jpg";
     url := String.append "https://photos.example/" name;
     is_video := false; modify_date := created; create_date := created |}.

(** A world in which the catalog fails every bulk resolution and
    resolves every identifier but ["B"] on its own, the disk holds none
    of the files, and every worker returns at once. *)
Definition quiet_world : World :=
  {| minimum_date := 0;
     string_to_date := fun _ => 50;
     ymd := fun _ => {| year := 2019; month := 1; day := 1 |};
     folder_of_date := fun _ => "2019/01";
     mediaItems_batchGet := fun _ => Raises HTTPError;
     mediaItems_get := fun i =>
       if bool_decide (i = "B") then Raises HTTPError
       else Returns {| json_id := i;
                       baseUrl := Some (String.append "https://lh3.example/" i) |};
     os_path_exists := fun _ => false;
     task_exception := fun _ => None;
     task_finish := fun _ => 0%nat |}.

(** One page with one new item, created before the last scan ended. *)
Definition late_upload : list (pyresult PageJson) :=
  [Returns {| mediaItems := [photo "A" 50]; nextPageToken := None |}].

(** One page with one new item, created after the last scan. *)
Definition new_upload : list (pyresult PageJson) :=
  [Returns {| mediaItems := [photo "A" 150]; nextPageToken := None |}].

(** *** Invariants of statements *)

(** [P] holds after the statement if it held before, whichever way
    the statement ends. *)
Definition preserves {A : Type} (P : State -> Prop) (m : M A) : Prop :=
  forall st, P st -> P (state_of (m st)).

(** What collecting finished tasks may change, and what it may not:
    nothing is submitted and nothing is asked of the catalog; the
    dictionary of futures shrinks; the ledger and the failure count
    grow. *)
Definition collecting (st st' : State) : Prop :=
  download_pool st' = download_pool st
  /\ api_calls st' = api_calls st
  /\ files_download_started st' = files_download_started st
  /\ _root_folder st' = _root_folder st
  /\ _media_folder st' = _media_folder st
  /\ dom (items (bad_ids st)) ⊆ dom (items (bad_ids st'))
  /\ (files_download_failed st <= files_download_failed st')%nat
  /\ (length (pool_future_to_media st')
      <= length (pool_future_to_media st))%nat
  /\ (clock st <= clock st')%nat.

(** The backpressure bound. *)
Definition within_bound (st : State) : Prop :=
  (length (pool_future_to_media st) <= MAX_THREADS)%nat.

(** What a stretch of a download run leaves behind, from [st0] on:
    the tasks submitted are for records that satisfy [ok], with their
    path set by date; the ledger has lost no identifier. *)
Definition dispatched (w : World) (ok : MediaItem -> Prop)
    (st0 st : State) : Prop :=
  dom (items (bad_ids st0)) ⊆ dom (items (bad_ids st))
  /\ _media_folder st = _media_folder st0
  /\ _root_folder st = _root_folder st0
  /\ exists tasks,
       download_pool st = (download_pool st0 ++ tasks)%list
       /\ Forall (fun t => exists m,
                    ok m
                    /\ task_media t
                       = set_path_by_date w (_media_folder st0) m) tasks.

(** The local path that [download_photo_media] looks for. *)
Definition local_full_path (st : State) (m : MediaItem) : string :=
  OsPath.join (OsPath.join (_root_folder st) [relative_folder m])
              [filename m].

(** A world like [quiet_world] in which the worker of every task
    ends with the exception [e]. *)
Definition worker_raises (e : exn_class) : World :=
  {| minimum_date := minimum_date quiet_world;
     string_to_date := string_to_date quiet_world;
     ymd := ymd quiet_world;
     folder_of_date := folder_of_date quiet_world;
     mediaItems_batchGet := mediaItems_batchGet quiet_world;
     mediaItems_get := mediaItems_get quiet_world;
     os_path_exists := os_path_exists quiet_world;
     task_exception := fun _ => Some e;
     task_finish := task_finish quiet_world |}.

(** A fresh object with [n] downloads of the same record in flight. *)
Definition in_flight (n : nat) : State :=
  let m := photo "A" 50 in
  set_pool_future_to_media ((fun i => (i, m)) <$> seq 0 n)
    (set_download_pool
       (replicate n {| task_base_url := "https://lh3.example/A";
                       task_media := m |})
       (__init__ quiet_world "/data" empty_store ∅)).

(** A transfer that is interrupted while the body is copied. *)
Definition interrupted_transfer : Transfer :=
  {| temp_name := "tmpk3x9";
     session_get := fun _ _ => None;
     copyfileobj := Some KeyboardInterrupt;
     temp_file_close := None;
     response_close := None;
     os_rename := None;
     os_utime := None |}.

(** *** The fallback to one request per item *)

(** The get-by-id of an entry of a batch fails. *)
Definition get_fails (w : World) (entry : string * MediaItem) : bool :=
  match mediaItems_get w entry.1 with
  | Raises _ => true
  | Returns _ => false
  end.

(** The task that a successful get-by-id of an entry leads to. *)
Definition resolve (w : World) (folder : string)
    (entry : string * MediaItem) : option Task :=
  match mediaItems_get w entry.1 with
  | Returns json =>
      (fun base_url =>
         {| task_base_url := base_url;
            task_media := set_path_by_date w folder entry.2 |})
      <$> baseUrl json
  | Raises _ => None
  end.

(** The get-by-id of an entry answers with a document that carries a
    base URL, or fails with an HTTP or retry error. *)
Definition resolvable (w : World) (entry : string * MediaItem) : Prop :=
  match mediaItems_get w entry.1 with
  | Returns json => is_Some (baseUrl json)
  | Raises e => http_or_retry e = true
  end.

(** A batch of two: the catalog resolves ["A"] and rejects ["B"]. *)
Definition batch_AB : list (string * MediaItem) :=
  [("A", photo "A" 50); ("B", photo "B" 60)].

(** *** Vocabulary of the further properties *)

(** The store holds a record at the path of [m] that is at least as
    recent as [m]. *)
Definition covered (db : LocalData) (m : MediaItem) : Prop :=
  exists r, is_indexed db m = Some r /\ (modify_date m <= modify_date r)%Z.

(** The catalog answered with a document. *)
Definition answered {A : Type} (r : pyresult A) : Prop :=
  match r with Returns _ => True | Raises _ => False end.

(** A bulk request asks for at least one and at most [BATCH_SIZE]
    identifiers, each once. *)
Definition well_sized (r : Request) : Prop :=
  match r with
  | BatchGetRequest ids =>
      (0 < length ids <= BATCH_SIZE)%nat /\ NoDup ids
  | _ => True
  end.

(** The task that a result of the bulk resolution leads to. *)
Definition task_of_result (w : World) (folder : string)
    (batch : list (string * MediaItem)) (result : option MediaJson)
  : option Task :=
  json ← result;
  media_item ← dict_get (json_id json) batch;
  base_url ← baseUrl json;
  Some {| task_base_url := base_url;
          task_media := set_path_by_date w folder media_item |}.

(** A result of the bulk resolution is null, or names a record of the
    batch and carries a base URL. *)
Definition dispatchable (batch : list (string * MediaItem))
    (result : option MediaJson) : Prop :=
  match result with
  | None => True
  | Some json =>
      is_Some (dict_get (json_id json) batch) /\ is_Some (baseUrl json)
  end.

(** The worker of future [f] returned. *)
Definition returned (w : World) (f : nat) : bool :=
  match task_exception w f with None => true | Some _ => false end.

(** Future [f] has been collected: it is not in the dictionary. *)
Definition collected (st : State) (f : nat) : bool :=
  negb (bool_decide (f ∈ dict_keys (pool_future_to_media st))).

(** The books of the coordinating thread are in order: the futures in
    flight are distinct, each stands for a task of the pool and maps to
    the record of that task; the count of downloads started is the
    number of tasks; the count of files downloaded is the number of
    tasks collected whose worker returned, and the record of each of
    them is marked downloaded in the store. *)
Definition accounted (w : World) (st : State) : Prop :=
  NoDup (dict_keys (pool_future_to_media st))
  /\ (forall f m, (f, m) ∈ pool_future_to_media st ->
        exists t, download_pool st !! f = Some t /\ task_media t = m)
  /\ files_download_started st = length (download_pool st)
  /\ files_downloaded st
     = length (List.filter (fun f => returned w f && collected st f)
                           (seq 0 (length (download_pool st))))
  /\ (forall f t, download_pool st !! f = Some t ->
        returned w f = true -> collected st f = true ->
        id (task_media t) ∈ downloaded (_db st)).

(** A transfer in which the copy and [os.utime] end as given, and the
    other calls return. *)
Definition transfer_with (copy utime : option exn_class) : Transfer :=
  {| temp_name := "tmpk3x9"; session_get := fun _ _ => None;
     copyfileobj := copy; temp_file_close := None; response_close := None;
     os_rename := None; os_utime := utime |}.

Definition fresh_sync : State := __init__ quiet_world "/data" empty_store ∅.

(** Whatever [db] covers, [db'] covers. *)
Definition extends_cover (db db' : LocalData) : Prop :=
  forall x, covered db x -> covered db' x.

(** A stretch of a scan that wrote nothing: the store, the count of
    records indexed, the running maximum and the settings are as they
    were. *)
Definition only_skipped (st st' : State) : Prop :=
  _db st' = _db st
  /\ files_indexed st' = files_indexed st
  /\ _latest_download st' = _latest_download st
  /\ _media_folder st' = _media_folder st
  /\ _startDate st' = _startDate st.

(** The count of records indexed has moved with the records written. *)
Definition tallied (st st' : State) : Prop :=
  exists new,
    saved (_db st') = (new ++ saved (_db st))%list
    /\ files_indexed st' = (files_indexed st + length new)%nat.

(** What holds of a scan whichever way it ends. *)
Definition scan_facts (catalog : list (pyresult PageJson)) (st : State)
    (r : Res unit) : Prop :=
  _media_folder (state_of r) = _media_folder st
  /\ _startDate (state_of r) = _startDate st
  /\ extends_cover (_db st) (_db (state_of r))
  /\ tallied st (state_of r)
  /\ match r with
     | Normal _ _ => True
     | Raised e _ => Raises e ∈ catalog
     | Spinning _ => False
     end.

(** The statement ends, by returning or by raising, from every
    state. *)
Definition halts {A : Type} (m : M A) : Prop :=
  forall st, not_spinning (m st).

(** A world whose catalog raises [e] at every resolution. *)
Definition catalog_raises (e : exn_class) : World :=
  {| minimum_date := minimum_date quiet_world;
     string_to_date := string_to_date quiet_world;
     ymd := ymd quiet_world;
     folder_of_date := folder_of_date quiet_world;
     mediaItems_batchGet := fun _ => Raises e;
     mediaItems_get := fun _ => Raises e;
     os_path_exists := os_path_exists quiet_world;
     task_exception := task_exception quiet_world;
     task_finish := task_finish quiet_world |}.

(** A world whose catalog resolves every identifier, in bulk and on
    its own, and whose disk holds every file ([on_disk]) or none. *)
Definition resolved (i : string) : MediaJson :=
  {| json_id := i; baseUrl := Some (String.append "https://lh3.example/" i) |}.

Definition answering_world (on_disk : bool) : World :=
  {| minimum_date := minimum_date quiet_world;
     string_to_date := string_to_date quiet_world;
     ymd := ymd quiet_world;
     folder_of_date := folder_of_date quiet_world;
     mediaItems_batchGet := fun ids =>
       Returns {| batch_pageToken := None;
                  mediaItemResults := (fun i => Some (resolved i)) <$> ids |};
     mediaItems_get := fun i => Returns (resolved i);
     os_path_exists := fun _ => on_disk;
     task_exception := task_exception quiet_world;
     task_finish := task_finish quiet_world |}.

(** A world whose catalog gives the bulk answer [results] to every
    bulk resolution. *)
Definition catalog_answers (results : list (option MediaJson)) : World :=
  {| minimum_date := minimum_date quiet_world;
     string_to_date := string_to_date quiet_world;
     ymd := ymd quiet_world;
     folder_of_date := folder_of_date quiet_world;
     mediaItems_batchGet := fun _ =>
       Returns {| batch_pageToken := None; mediaItemResults := results |};
     mediaItems_get := mediaItems_get quiet_world;
     os_path_exists := os_path_exists quiet_world;
     task_exception := task_exception quiet_world;
     task_finish := task_finish quiet_world |}.

(** The requests sent since [st0] are well sized. *)
Definition asked_well (st0 st : State) : Prop :=
  exists calls,
    api_calls st = (api_calls st0 ++ calls)%list /\ Forall well_sized calls.

(** A request of a scan fits the settings: a plain listing of the
    library only when there is no boundary and videos are included, a
    search otherwise, for photos only unless videos are included; a
    page of [PAGE_SIZE] either way. *)
Definition request_fits (st : State) (start_date : option Z) (r : Request)
  : Prop :=
  match r with
  | ListRequest _ size =>
      size = PAGE_SIZE
      /\ start_date = None /\ _endDate st = None /\ includeVideo st = true
  | SearchRequest body =>
      body_pageSize body = PAGE_SIZE
      /\ body_mediaTypes body
         = (if includeVideo st then ["ALL_MEDIA"] else ["PHOTO"])
      /\ (is_Some start_date \/ is_Some (_endDate st)
          \/ includeVideo st = false)
  | _ => False
  end.

(** *** Vocabulary of the reconciliation *)

(** The files of a listing that are removed, judged by the store of
    [st]. *)
Definition removals (relpath : string -> string -> string) (st : State)
    (listing : list (string * list string)) : list string :=
  flat_map
    (fun '(dir_name, file_names) =>
       (fun file_name => OsPath.join dir_name [file_name])
       <$> List.filter (file_is_removed relpath st dir_name) file_names)
    listing.

(** What [os.walk] lists once the files named in [removed] have been
    removed from the disk: the same directories, without those
    files. *)
Definition listing_without (removed : list string)
    (listing : list (string * list string)) : list (string * list string) :=
  (fun '(dir_name, file_names) =>
     (dir_name,
      List.filter
        (fun file_name =>
           negb (bool_decide (OsPath.join dir_name [file_name] ∈ removed)))
        file_names))
  <$> listing.

(** *** Vocabulary of the runs that are not interrupted *)

(** No bulk resolution of the catalog is interrupted from the
    keyboard. *)
Definition never_interrupted (w : World) : Prop :=
  forall ids, mediaItems_batchGet w ids <> Raises KeyboardInterrupt.

(** The statement does not end with a [KeyboardInterrupt]. *)
Definition quiet {A : Type} (m : M A) : Prop :=
  forall st st', m st <> Raised KeyboardInterrupt st'.

(** A world whose catalog fails every bulk resolution with [bulk] and
    every get-by-id with [single]. *)
Definition failing_catalog (bulk single : exn_class) : World :=
  {| minimum_date := minimum_date quiet_world;
     string_to_date := string_to_date quiet_world;
     ymd := ymd quiet_world;
     folder_of_date := folder_of_date quiet_world;
     mediaItems_batchGet := fun _ => Raises bulk;
     mediaItems_get := fun _ => Raises single;
     os_path_exists := os_path_exists quiet_world;
     task_exception := task_exception quiet_world;
     task_finish := task_finish quiet_world |}.
End SyncSpec.

(** * Properties *)

(** ** Paths *)
Module OsPathFacts.
Import OsPath.

Lemma append_cons (c : ascii) (a b : string) :
  String.append (String c a) b = String c (String.append a b).
Proof. reflexivity. Qed.

Lemma append_nil_r (s : string) : String.append s "" = s.
Proof.
  induction s as [|c s IH]; [reflexivity | now rewrite append_cons, IH].
Qed.

Lemma append_assoc (a b c : string) :
  String.append (String.append a b) c = String.append a (String.append b c).
Proof.
  induction a as [|x a IH]; [reflexivity | now rewrite !append_cons, IH].
Qed.

Lemma is_empty_true (s : string) : is_empty s = true -> s = "".
Proof. destruct s; [reflexivity | discriminate]. Qed.

Lemma is_empty_append (a b : string) :
  is_empty (String.append a b) = is_empty a && is_empty b.
Proof. destruct a; reflexivity. Qed.

Lemma startswith_sep_append (a b : string) :
  startswith_sep (String.append a b)
  = if is_empty a then startswith_sep b else startswith_sep a.
Proof. destruct a; reflexivity. Qed.

Lemma endswith_sep_cons (c : ascii) (s : string) :
  endswith_sep (String c s)
  = if is_empty s then Ascii.eqb c sep else endswith_sep s.
Proof. destruct s; reflexivity. Qed.

Lemma endswith_sep_append (a b : string) :
  endswith_sep (String.append a b)
  = if is_empty b then endswith_sep a else endswith_sep b.
Proof.
  induction a as [|c a IH].
  - destruct b; reflexivity.
  - rewrite append_cons, !endswith_sep_cons, is_empty_append, IH.
    destruct (is_empty a) eqn:Ea, (is_empty b) eqn:Eb; reflexivity.
Qed.

Lemma startswith_not_empty (s : string) :
  startswith_sep s = true -> is_empty s = false.
Proof. destruct s; [discriminate | reflexivity]. Qed.

(** Joining is associative: the right-hand components may be joined
    first. *)
Lemma join_step_assoc (x r f : string) :
  join_step (join_step x r) f = join_step x (join_step r f).
Proof.
  unfold join_step.
  destruct (startswith_sep f) eqn:Ef.
  { rewrite Ef. reflexivity. }
  destruct (startswith_sep r) eqn:Er.
  { pose proof (startswith_not_empty _ Er) as Nr. rewrite Nr.
    rewrite orb_false_l.
    destruct (endswith_sep r);
      rewrite startswith_sep_append, Nr, Er; reflexivity. }
  destruct (is_empty r) eqn:Nr.
  { apply is_empty_true in Nr. subst r. rewrite orb_true_l.
    change (String.append "" f) with f. rewrite Ef.
    destruct (is_empty x) eqn:Nx.
    - apply is_empty_true in Nx. subst x. reflexivity.
    - rewrite !orb_false_l. destruct (endswith_sep x) eqn:Ex.
      + rewrite append_nil_r, Nx, Ex. reflexivity.
      + rewrite is_empty_append, Nx, andb_false_l, orb_false_l.
        rewrite endswith_sep_append.
        change (is_empty (String sep "")) with false.
        change (endswith_sep (String sep "")) with true.
        rewrite append_assoc. reflexivity. }
  rewrite orb_false_l.
  assert (Hs : forall y, startswith_sep (String.append r y) = false).
  { intro y. rewrite startswith_sep_append, Nr. exact Er. }
  destruct (is_empty x || endswith_sep x) eqn:Hx.
  - rewrite is_empty_append, Nr, andb_false_r, orb_false_l.
    rewrite endswith_sep_append, Nr.
    destruct (endswith_sep r); rewrite Hs, append_assoc; reflexivity.
  - rewrite is_empty_append.
    change (is_empty (String sep r)) with false.
    rewrite andb_false_r, orb_false_l.
    rewrite endswith_sep_append.
    change (is_empty (String sep r)) with false.
    rewrite endswith_sep_cons, Nr.
    destruct (endswith_sep r); rewrite Hs, append_assoc; reflexivity.
Qed.

Lemma join_app (a : string) (p q : list string) :
  join a (p ++ q) = join (join a p) q.
Proof. unfold join. apply fold_left_app. Qed.

Lemma join_join_last (a : string) (p : list string) (r f : string) :
  join a (p ++ [join r [f]]) = join a (p ++ [r; f]).
Proof.
  rewrite !join_app. generalize (join a p). intro x.
  unfold join. simpl. symmetry. apply join_step_assoc.
Qed.

(** The cases of [join], run. *)
Example join_components :
  join "/data" ["photos"; "2019/01"; "a.jpg"] = "/data/photos/2019/01/a.jpg".
Proof. reflexivity. Qed.

Example join_absolute_component : join "/data" ["/mnt"; "a.jpg"] = "/mnt/a.jpg".
Proof. reflexivity. Qed.

Example join_after_separator : join "/data/" ["a.jpg"] = "/data/a.jpg".
Proof. reflexivity. Qed.

Example join_empty_components : join "" ["a"; ""] = "a/".
Proof. reflexivity. Qed.

End OsPathFacts.

(** ** The path accessors of [GoogleMedia] *)
Module GoogleMediaFacts.
Import GoogleMedia.

Section Laws.
Context {T : Type} `{MediaClass T}.

(** C10.  For every media item, [local_full_path] is the join of
    the root path, the media folder, the relative path and the file
    name; [remote_path] is the join of the relative path and the
    file name; hence [local_full_path] is the join of the root path,
    the media folder and [remote_path], and it is the join of
    [local_folder] and the file name.  Where [filename] raises (the
    base class), each of the accessors raises the same. *)
Theorem path_composition_law (self : T) :
  let root := __root_path (base self) in
  let folder := media_folder (base self) in
  let rel := __relative_path (base self) in
  local_full_path self
    = pymap (fun f => OsPath.join root [folder; rel; f]) (filename self)
  /\ remote_path self
    = pymap (fun f => OsPath.join rel [f]) (filename self)
  /\ local_full_path self
    = pymap (fun r => OsPath.join root [folder; r]) (remote_path self)
  /\ local_full_path self
    = pymap (fun f => OsPath.join (local_folder self) [f]) (filename self).
Proof.
  intros root folder rel.
  unfold local_full_path, remote_path, local_folder.
  fold root folder rel.
  destruct (filename self) as [f|e]; cbv beta iota delta [pymap];
    [|repeat split].
  assert (E : OsPath.join (OsPath.join root [folder; rel]) [f]
              = OsPath.join root [folder; rel; f]).
  { symmetry. apply (OsPathFacts.join_app root [folder; rel] [f]). }
  split; [now rewrite E|]. split; [reflexivity|]. split; [|reflexivity].
  rewrite E. symmetry.
  f_equal. apply (OsPathFacts.join_join_last root [folder] rel f).
Qed.

End Laws.

End GoogleMediaFacts.

(** ** The synchronisation engine *)
Module GooglePhotosSyncFacts.
Import GooglePhotosSync SyncSpec.

Local Open Scope Z_scope.

(** One step of a statement: the monad operations unfolded, the
    statements of the engine left as they are. *)
Ltac run := cbv beta iota delta [bind gets modify ret raise].

(** *** Indexing *)

Lemma scanned_trans (st1 st2 st3 : State) (new1 new2 : list MediaItem) :
  scanned st1 st2 new1 -> scanned st2 st3 new2 ->
  scanned st1 st3 (new2 ++ new1).
Proof.
  intros (A1 & A2 & A3 & A4 & A5 & A6 & A7 & A8)
         (B1 & B2 & B3 & B4 & B5 & B6 & B7 & B8).
  repeat split; try congruence.
  - rewrite B2, A2. now rewrite app_assoc.
  - rewrite B3, A3, fmap_app, foldr_app. reflexivity.
Qed.

Lemma write_media_index_scanned (media : MediaItem) (update : bool)
    (st : State) :
  exists st', write_media_index media update st = Normal tt st'
              /\ scanned st st' [media]
              /\ api_calls st' = api_calls st.
Proof.
  unfold write_media_index, bind, modify. simpl.
  destruct (_latest_download st <? create_date media) eqn:E;
    eexists; (split; [reflexivity|]); repeat split; simpl.
  - apply Z.ltb_lt in E. lia.
  - apply Z.ltb_ge in E. lia.
Qed.

Lemma index_item_scanned (w : World) (m : MediaItem) (st : State) :
  exists st' new, index_item w m st = Normal tt st'
                  /\ scanned st st' new
                  /\ api_calls st' = api_calls st.
Proof.
  unfold index_item. run.
  destruct (is_indexed _ _) as [r|].
  - destruct (modify_date r <? modify_date _); run.
    + match goal with |- context [write_media_index ?a ?b ?s] =>
        destruct (write_media_index_scanned a b s) as (st' & -> & S & C)
      end.
      exists st', [set_path_by_date w (_media_folder st) m].
      split; [reflexivity|]. split; [exact S | exact C].
    + eexists _, []. split; [reflexivity|]. repeat split.
  - run.
    match goal with |- context [write_media_index ?a ?b ?s] =>
      destruct (write_media_index_scanned a b s) as (st' & -> & S & C)
    end.
    destruct (bool_decide _); run;
      eexists _, [set_path_by_date w (_media_folder st) m];
      (split; [reflexivity|]); (split; [exact S | exact C]).
Qed.

Lemma index_items_scanned (w : World) (l : list MediaItem) (st : State) :
  exists st' new, for_each l (index_item w) st = Normal tt st'
                  /\ scanned st st' new
                  /\ api_calls st' = api_calls st.
Proof.
  revert st. induction l as [|m l IH]; intro st; simpl.
  - exists st, []. repeat split.
  - unfold bind.
    destruct (index_item_scanned w m st) as (st1 & n1 & -> & S1 & C1).
    destruct (IH st1) as (st2 & n2 & E2 & S2 & C2).
    exists st2, (n2 ++ n1)%list. split; [exact E2|].
    split; [eapply scanned_trans; eassumption | congruence].
Qed.

Lemma search_media_run (w : World) (answer : pyresult PageJson)
    (page_token : option string) (start_date end_date : option Z)
    (do_video : bool) (st : State) :
  let st' := set_api_calls
    (api_calls st ++ [search_request w page_token start_date end_date
                                     do_video]) st in
  search_media w answer page_token start_date end_date do_video st
  = match answer with
    | Returns items_json => Normal items_json st'
    | Raises e => Raised e st'
    end.
Proof. unfold search_media. run. destruct answer; reflexivity. Qed.

Lemma index_pages_eq (w : World) (start_date : option Z)
    (catalog : list (pyresult PageJson)) (items_json : PageJson) :
  index_pages w start_date catalog items_json
  = if json_empty items_json then ret tt
    else
      match mediaItems items_json with
      | [] => ret tt
      | media_json =>
          for_each media_json (index_item w) ;;;
          let next_page := nextPageToken items_json in
          if truthy next_page then
            end_date <- gets _endDate ;;
            do_video <- gets includeVideo ;;
            match catalog with
            | answer :: rest =>
                items_json' <- search_media w answer next_page start_date
                                            end_date do_video ;;
                index_pages w start_date rest items_json'
            | [] =>
                search_media w (Returns empty_json) next_page start_date
                             end_date do_video ;;;
                ret tt
            end
          else ret tt
      end.
Proof. destruct catalog; reflexivity. Qed.

Lemma index_pages_scanned (w : World) (start_date : option Z)
    (catalog : list (pyresult PageJson)) :
  forall (items_json : PageJson) (st : State),
  exists new calls,
    let r := index_pages w start_date catalog items_json st in
    not_spinning r
    /\ scanned st (state_of r) new
    /\ api_calls (state_of r) = (api_calls st ++ calls)%list
    /\ searches w start_date st calls.
Proof.
  induction catalog as [|answer rest IH]; intros items_json st.
  - rewrite index_pages_eq.
    destruct (json_empty items_json).
    { exists [], []. simpl. rewrite app_nil_r. repeat split. constructor. }
    destruct (mediaItems items_json) as [|m l] eqn:El.
    { exists [], []. simpl. rewrite app_nil_r. repeat split. constructor. }
    run.
    destruct (index_items_scanned w (m :: l) st) as (st1 & n1 & -> & S1 & C1).
    cbv zeta.
    destruct (truthy _).
    + rewrite search_media_run. cbv zeta. cbv iota.
      exists n1. eexists. cbv zeta. simpl state_of.
      split; [exact I|]. split; [exact S1|].
      split; [simpl; rewrite C1; reflexivity|].
      constructor; [|constructor].
      destruct S1 as (_ & _ & _ & _ & <- & <- & _). eauto.
    + exists n1, []. simpl. rewrite app_nil_r.
      split; [exact I|]. split; [exact S1|]. split; [exact C1|constructor].
  - rewrite index_pages_eq.
    destruct (json_empty items_json).
    { exists [], []. simpl. rewrite app_nil_r. repeat split. constructor. }
    destruct (mediaItems items_json) as [|m l] eqn:El.
    { exists [], []. simpl. rewrite app_nil_r. repeat split. constructor. }
    run.
    destruct (index_items_scanned w (m :: l) st) as (st1 & n1 & -> & S1 & C1).
    cbv zeta.
    destruct (truthy _).
    + rewrite search_media_run. cbv zeta.
      assert (Hreq : exists page_token,
                search_request w (nextPageToken items_json) start_date
                               (_endDate st1) (includeVideo st1)
                = search_request w page_token start_date (_endDate st)
                                 (includeVideo st)).
      { destruct S1 as (_ & _ & _ & _ & -> & -> & _). eauto. }
      destruct answer as [j|e].
      * match goal with |- context [index_pages _ _ _ _ ?s] =>
          destruct (IH j s) as (n2 & c2 & N2 & S2 & C2 & Q2)
        end.
        cbv zeta in N2, S2, C2.
        exists (n2 ++ n1)%list. eexists. cbv zeta.
        split; [exact N2|].
        split; [eapply scanned_trans; [exact S1 | exact S2]|].
        split.
        { rewrite C2. simpl api_calls. rewrite C1, <- app_assoc.
          reflexivity. }
        constructor; [exact Hreq|].
        revert Q2. unfold searches. simpl.
        destruct S1 as (_ & _ & _ & _ & -> & -> & _). exact (fun H => H).
      * exists n1. eexists. simpl state_of.
        split; [exact I|]. split; [exact S1|].
        split; [simpl; rewrite C1; reflexivity|].
        constructor; [exact Hreq | constructor].
    + exists n1, []. simpl. rewrite app_nil_r.
      split; [exact I|]. split; [exact S1|]. split; [exact C1|constructor].
Qed.

(** A whole indexing run.  It ends; its requests all carry the start
    boundary chosen at the outset; and the persisted watermark is
    written, to the running maximum, when there is no explicit start
    date, and at no other time. *)
Lemma index_photos_media_run (w : World)
    (catalog : list (pyresult PageJson)) (st : State) :
  exists new calls,
    let r := index_photos_media w catalog st in
    api_calls (state_of r) = (api_calls st ++ calls)%list
    /\ searches w (effective_start_date st) st calls
    /\ calls <> []
    /\ match r with
       | Normal _ st' =>
           saved (_db st') = (new ++ saved (_db st))%list
           /\ _latest_download st'
              = foldr Z.max (_latest_download st) (create_date <$> new)
           /\ scan_date (_db st')
              = match _startDate st with
                | None => Some (_latest_download st')
                | Some _ => scan_date (_db st)
                end
       | Raised _ st' => scanned st st' new
       | Spinning _ => False
       end.
Proof.
  unfold index_photos_media. run. rewrite search_media_run. cbv zeta.
  set (first := search_request w None (effective_start_date st)
                               (_endDate st) (includeVideo st)).
  assert (Hfirst : exists page_token,
            first = search_request w page_token (effective_start_date st)
                                   (_endDate st) (includeVideo st))
    by (unfold first; eauto).
  destruct (hd (Returns empty_json) catalog) as [j|e].
  - match goal with |- context [index_pages _ ?b ?c ?j ?s] =>
      destruct (index_pages_scanned w b c j s) as (new & calls & N & S & C & Q);
      destruct (index_pages w b c j s) as [[] st'|e st'|st'] eqn:E
    end; cbv zeta in N, S, C; simpl state_of in *; [| |destruct N].
    + exists new, (first :: calls). simpl in C.
      assert (Hcalls : forall s, api_calls s = api_calls st'
                -> api_calls s = (api_calls st ++ first :: calls)%list).
      { intros s ->. rewrite C, <- app_assoc. reflexivity. }
      destruct S as (S1 & S2 & S3 & S4 & S5 & S6 & S7 & S8).
      simpl in S1, S2, S3, S4.
      split.
      { destruct (bool_decide (is_Some (_startDate st'))); apply Hcalls;
          reflexivity. }
      split; [constructor; [exact Hfirst | exact Q]|].
      split; [discriminate|].
      rewrite S4. destruct (_startDate st) as [d|]; simpl; auto.
    + exists new, (first :: calls). simpl in C.
      split; [rewrite C, <- app_assoc; reflexivity|].
      split; [constructor; [exact Hfirst | exact Q]|].
      split; [discriminate | exact S].
  - exists [], [first]. simpl. repeat split.
    + constructor; [exact Hfirst | constructor].
    + discriminate.
Qed.

(** The running maximum starts at the persisted watermark, and a scan
    keeps it at or above it. *)
Lemma init_watermark_le_latest (w : World) (root : string)
    (db : LocalData) (ledger : gmap string (string * string)) (pre : Z) :
  scan_date db = Some pre ->
  pre <= _latest_download (__init__ w root db ledger).
Proof. intros E. simpl. rewrite E. simpl. lia. Qed.

Lemma foldr_max_ge (l : list Z) (a : Z) : a <= foldr Z.max a l.
Proof. induction l as [|x l IH]; simpl; lia. Qed.

Lemma foldr_max_bounds (l : list Z) (a : Z) :
  Forall (fun x => x <= foldr Z.max a l) l.
Proof.
  induction l as [|x l IH]; simpl; constructor; [lia|].
  eapply Forall_impl; [exact IH|]. simpl. intros. lia.
Qed.

(** A scan that ends keeps the running maximum at or above the
    persisted watermark, so that this holds at every scan of an
    object. *)
Lemma index_keeps_watermark_le_latest (w : World)
    (catalog : list (pyresult PageJson)) (st st' : State) :
  (forall pre, scan_date (_db st) = Some pre -> pre <= _latest_download st) ->
  index_photos_media w catalog st = Normal tt st' ->
  forall pre, scan_date (_db st') = Some pre -> pre <= _latest_download st'.
Proof.
  intros Hinv E pre Hpre.
  destruct (index_photos_media_run w catalog st)
    as (new & calls & _ & _ & _ & H).
  cbv zeta in H. rewrite E in H. destruct H as (_ & H2 & H3).
  rewrite H3 in Hpre. destruct (_startDate st).
  - specialize (Hinv pre Hpre). rewrite H2.
    pose proof (foldr_max_ge (create_date <$> new) (_latest_download st)).
    lia.
  - injection Hpre as <-. lia.
Qed.

(** Claim C3, amended.  The persisted watermark is written exactly
    when no explicit start date was given, whether or not an end date
    was: a run that ends without a start date leaves it at the running
    maximum, which is the larger of its value before the run and the
    creation dates of the records written during the run; a run with a
    start date, and one that the catalog fails, leave it as it was. *)
Theorem scan_date_written_iff_no_start_date (w : World)
    (catalog : list (pyresult PageJson)) (st : State) :
  match index_photos_media w catalog st with
  | Normal _ st' =>
      scan_date (_db st')
      = match _startDate st with
        | None => Some (_latest_download st')
        | Some _ => scan_date (_db st)
        end
      /\ exists new,
           saved (_db st') = (new ++ saved (_db st))%list
           /\ _latest_download st'
              = foldr Z.max (_latest_download st) (create_date <$> new)
  | Raised _ st' => scan_date (_db st') = scan_date (_db st)
  | Spinning _ => False
  end.
Proof.
  destruct (index_photos_media_run w catalog st)
    as (new & calls & _ & _ & _ & H).
  cbv zeta in H.
  destruct (index_photos_media w catalog st) as [[] st'|e st'|st'].
  - destruct H as (H1 & H2 & H3). split; [exact H3|]. exists new. auto.
  - apply H.
  - exact H.
Qed.

(** Claim C3 as stated fails: a manually bounded scan does not always
    leave the persisted watermark unchanged.  A scan bounded by an end
    date only, on a store never scanned before, writes it. *)
Lemma end_date_scan_writes_scan_date :
  ~ (forall (w : World) (catalog : list (pyresult PageJson))
            (st st' : State),
       index_photos_media w catalog st = Normal tt st' ->
       _startDate st <> None \/ _endDate st <> None ->
       scan_date (_db st') = scan_date (_db st)).
Proof.
  intros claim.
  pose (st := end_date_setter quiet_world (Some "2019-01-01")
                (__init__ quiet_world "/data" empty_store ∅)).
  destruct (index_photos_media quiet_world [] st) as [[] st'|e st'|st'] eqn:E;
    try (vm_compute in E; discriminate).
  assert (Hclaim : scan_date (_db st') = scan_date (_db st)).
  { apply (claim quiet_world [] st st' E). right. discriminate. }
  vm_compute in E. injection E as <-. vm_compute in Hclaim. discriminate.
Qed.

(** Claim C4, amended.  The start boundary of every request of a run
    is: none when [rescan] is set, whatever the start date; otherwise
    the explicit start date when there is one; otherwise the
    persisted watermark. *)
Theorem start_boundary_precedence (w : World)
    (catalog : list (pyresult PageJson)) (st : State) :
  exists boundary calls,
    api_calls (state_of (index_photos_media w catalog st))
    = (api_calls st ++ calls)%list
    /\ calls <> []
    /\ Forall (fun r => exists page_token,
                 r = search_request w page_token boundary (_endDate st)
                                    (includeVideo st)) calls
    /\ (_rescan st = true -> boundary = None)
    /\ (_rescan st = false ->
        forall d, _startDate st = Some d -> boundary = Some d)
    /\ (_rescan st = false -> _startDate st = None ->
        boundary = scan_date (_db st)).
Proof.
  destruct (index_photos_media_run w catalog st)
    as (new & calls & C & Q & N & _).
  exists (effective_start_date st), calls.
  split; [exact C|]. split; [exact N|]. split; [exact Q|].
  unfold effective_start_date.
  split; [intros ->; reflexivity|].
  split; [intros -> d ->; reflexivity | intros -> ->; reflexivity].
Qed.

(** Claim C4 as stated fails: with [rescan] set, an explicit start date
    does not take effect.  The one request of the run is for the whole
    library, not for the items from the start date on. *)
Lemma rescan_overrides_start_date :
  ~ (forall (w : World) (catalog : list (pyresult PageJson)) (st : State)
            (d : Z),
       _startDate st = Some d ->
       exists calls,
         api_calls (state_of (index_photos_media w catalog st))
         = (api_calls st ++ calls)%list
         /\ calls <> []
         /\ Forall (fun r => exists page_token,
                      r = search_request w page_token (Some d) (_endDate st)
                                         (includeVideo st)) calls).
Proof.
  intros claim.
  pose (st := rescan_setter true
                (start_date_setter quiet_world (Some "2019-01-01")
                   (__init__ quiet_world "/data" empty_store ∅))).
  destruct (claim quiet_world [] st 50 eq_refl) as (calls & E & _ & Q).
  vm_compute in E. subst calls.
  inversion Q as [|r l [page_token Hr] _]. vm_compute in Hr. discriminate.
Qed.

(** Claim C8, amended.  For every scan without an explicit start
    date, on an object whose running maximum is at or above the
    persisted watermark (as [__init__] leaves it), the watermark after
    the scan is at or above the watermark before it, and is the larger
    of the running maximum before the scan and the creation dates of
    the records written during the scan; no record written is newer
    than it. *)
Theorem watermark_monotone (w : World)
    (catalog : list (pyresult PageJson)) (st : State) :
  _startDate st = None ->
  (forall pre, scan_date (_db st) = Some pre -> pre <= _latest_download st) ->
  match index_photos_media w catalog st with
  | Normal _ st' =>
      exists new post,
        saved (_db st') = (new ++ saved (_db st))%list
        /\ scan_date (_db st') = Some post
        /\ post = foldr Z.max (_latest_download st) (create_date <$> new)
        /\ (forall pre, scan_date (_db st) = Some pre -> pre <= post)
        /\ Forall (fun m => create_date m <= post) new
  | Raised _ st' => scan_date (_db st') = scan_date (_db st)
  | Spinning _ => False
  end.
Proof.
  intros Hs Hinv.
  destruct (index_photos_media_run w catalog st)
    as (new & calls & _ & _ & _ & H).
  cbv zeta in H.
  destruct (index_photos_media w catalog st) as [[] st'|e st'|st'].
  - destruct H as (H1 & H2 & H3). rewrite Hs in H3.
    exists new, (_latest_download st').
    split; [exact H1|]. split; [exact H3|]. split; [exact H2|].
    rewrite H2. split.
    + intros pre Hpre. specialize (Hinv pre Hpre).
      pose proof (foldr_max_ge (create_date <$> new) (_latest_download st)).
      lia.
    + pose proof (foldr_max_bounds (create_date <$> new)
                                   (_latest_download st)) as B.
      rewrite Forall_fmap in B. exact B.
  - apply H.
  - exact H.
Qed.

Lemma watermark_monotone_witness :
  let st := __init__ quiet_world "/data" scanned_store ∅ in
  _startDate st = None
  /\ (forall pre, scan_date (_db st) = Some pre -> pre <= _latest_download st)
  /\ match index_photos_media quiet_world new_upload st with
     | Normal _ st' =>
         exists new post,
           saved (_db st') = (new ++ saved (_db st))%list
           /\ scan_date (_db st') = Some post
           /\ post = foldr Z.max (_latest_download st) (create_date <$> new)
           /\ (forall pre, scan_date (_db st) = Some pre -> pre <= post)
           /\ Forall (fun m => create_date m <= post) new
     | Raised _ st' => scan_date (_db st') = scan_date (_db st)
     | Spinning _ => False
     end.
Proof.
  intro st.
  assert (H1 : _startDate st = None) by reflexivity.
  assert (H2 : forall pre, scan_date (_db st) = Some pre
                           -> pre <= _latest_download st).
  { intros pre E. injection E as <-. vm_compute. discriminate. }
  split; [exact H1|]. split; [exact H2|].
  exact (watermark_monotone quiet_world new_upload st H1 H2).
Defined.

(** Claim C8 as stated fails: a scan that indexes one item created
    before the previous scan ended leaves the watermark where it was,
    not at the creation date of the item indexed. *)
Lemma watermark_is_not_max_indexed :
  ~ (forall (w : World) (catalog : list (pyresult PageJson))
            (st st' : State) (new : list MediaItem),
       _startDate st = None -> _endDate st = None -> _rescan st = false ->
       (forall pre, scan_date (_db st) = Some pre
                    -> pre <= _latest_download st) ->
       index_photos_media w catalog st = Normal tt st' ->
       saved (_db st') = (new ++ saved (_db st))%list ->
       new <> [] ->
       exists m, m ∈ new
                 /\ scan_date (_db st') = Some (create_date m)
                 /\ Forall (fun m' => create_date m' <= create_date m) new).
Proof.
  intros claim.
  pose (st := __init__ quiet_world "/data" scanned_store ∅).
  destruct (index_photos_media quiet_world late_upload st)
    as [[] st'|e st'|st'] eqn:E; try (vm_compute in E; discriminate).
  assert (Hsaved : saved (_db st')
                   = [set_path_by_date quiet_world "photos" (photo "A" 50)]).
  { vm_compute in E. injection E as <-. reflexivity. }
  assert (Hscan : scan_date (_db st') = Some 100).
  { vm_compute in E. injection E as <-. reflexivity. }
  destruct (claim quiet_world late_upload st st'
              [set_path_by_date quiet_world "photos" (photo "A" 50)]
              eq_refl eq_refl eq_refl) as (m & Hin & Hm & _).
  - intros pre [= <-]. vm_compute. discriminate.
  - exact E.
  - exact Hsaved.
  - discriminate.
  - apply list_elem_of_singleton in Hin. subst m.
    rewrite Hscan in Hm. vm_compute in Hm. discriminate.
Qed.

(** *** Statements and invariants *)

Lemma preserves_ret {A : Type} (P : State -> Prop) (a : A) :
  preserves P (ret a).
Proof. intros st H. exact H. Qed.

Lemma preserves_raise {A : Type} (P : State -> Prop) (e : exn_class) :
  preserves P (@raise A e).
Proof. intros st H. exact H. Qed.

Lemma preserves_gets {A : Type} (P : State -> Prop) (f : State -> A) :
  preserves P (gets f).
Proof. intros st H. exact H. Qed.

Lemma preserves_modify (P : State -> Prop) (f : State -> State) :
  (forall st, P st -> P (f st)) -> preserves P (modify f).
Proof. intros Hf st H. apply Hf, H. Qed.

Lemma preserves_bind {A B : Type} (P : State -> Prop) (m : M A)
    (k : A -> M B) :
  preserves P m -> (forall a, preserves P (k a)) -> preserves P (bind m k).
Proof.
  intros Hm Hk st H. unfold bind. specialize (Hm st H).
  destruct (m st) as [a st'|e st'|st']; simpl in *; [|assumption..].
  apply Hk, Hm.
Qed.

Lemma preserves_for_each {A : Type} (P : State -> Prop) (l : list A)
    (body : A -> M unit) :
  (forall x, x ∈ l -> preserves P (body x)) -> preserves P (for_each l body).
Proof.
  induction l as [|x l IH]; intros Hb; simpl.
  - apply preserves_ret.
  - apply preserves_bind.
    + apply Hb. left.
    + intros _. apply IH. intros y Hy. apply Hb. now right.
Qed.

Lemma preserves_try_except {A : Type} (P : State -> Prop) (body : M A)
    (handler : exn_class -> option (M A)) :
  preserves P body ->
  (forall e h, handler e = Some h -> preserves P h) ->
  preserves P (try_except body handler).
Proof.
  intros Hb Hh st H. unfold try_except. specialize (Hb st H).
  destruct (body st) as [a st'|e st'|st']; simpl in *; try assumption.
  destruct (handler e) as [h|] eqn:E; [|assumption].
  eapply Hh; eassumption.
Qed.

Lemma preserves_try_finally {A : Type} (P : State -> Prop) (body : M A)
    (cleanup : M unit) :
  preserves P body -> preserves P cleanup ->
  preserves P (try_finally body cleanup).
Proof.
  intros Hb Hc st H. unfold try_finally. specialize (Hb st H).
  destruct (body st) as [a st'|e st'|st']; simpl in *; try assumption;
    specialize (Hc st' Hb); destruct (cleanup st'); assumption.
Qed.

Lemma for_each_cons {A : Type} (x : A) (r : list A) (body : A -> M unit)
    (st : State) :
  for_each (x :: r) body st
  = match body x st with
    | Normal _ st' => for_each r body st'
    | Raised e st' => Raised e st'
    | Spinning st' => Spinning st'
    end.
Proof. reflexivity. Qed.

(** The lemmas that say which statement keeps which invariant. *)
Create HintDb preserves.
#[local] Hint Resolve preserves_ret preserves_raise preserves_gets
  : preserves.

(** *** [collecting] is a preorder *)

Lemma collecting_refl (st : State) : collecting st st.
Proof. repeat split; reflexivity. Qed.

Lemma collecting_trans (st1 st2 st3 : State) :
  collecting st1 st2 -> collecting st2 st3 -> collecting st1 st3.
Proof.
  intros (A1 & A2 & A3 & A4 & A5 & A6 & A7 & A8 & A9)
         (B1 & B2 & B3 & B4 & B5 & B6 & B7 & B8 & B9).
  repeat split; try congruence; try (etrans; eassumption).
Qed.

(** *** Dictionaries *)

Lemma dict_del_length {V : Type} (k : nat) (d : list (nat * V)) :
  (length (dict_del k d) <= length d)%nat.
Proof.
  induction d as [|[k' v] d IH]; simpl; [lia|].
  destruct (decide (k = k')); simpl; lia.
Qed.

Lemma dict_set_length {V : Type} (k : nat) (v : V) (d : list (nat * V)) :
  (length (dict_set k v d) <= S (length d))%nat.
Proof.
  induction d as [|[k' v'] d IH]; simpl; [lia|].
  destruct (decide (k = k')); simpl; lia.
Qed.

Lemma dict_get_app_skip {V : Type} (k : nat) (pre r : list (nat * V)) :
  k ∉ dict_keys pre -> dict_get k (pre ++ r) = dict_get k r.
Proof.
  induction pre as [|[k' v'] pre IH]; simpl; [reflexivity|].
  intros N. rewrite not_elem_of_cons in N. destruct N as [N1 N2].
  rewrite decide_False by exact N1. apply IH, N2.
Qed.

Lemma dict_del_app_skip {V : Type} (k : nat) (pre r : list (nat * V)) :
  k ∉ dict_keys pre -> dict_del k (pre ++ r) = (pre ++ dict_del k r)%list.
Proof.
  induction pre as [|[k' v'] pre IH]; simpl; [reflexivity|].
  intros N. rewrite not_elem_of_cons in N. destruct N as [N1 N2].
  rewrite decide_False by exact N1. now rewrite IH.
Qed.

(** *** Collecting finished tasks *)

(** An exception object is never the class [KeyboardInterrupt]. *)
Lemma instance_is_not_class (addr : nat) (e c : exn_class) :
  py_eq (Instance addr e) (ClassObject c) = false.
Proof. reflexivity. Qed.

Lemma isinstance_HTTPError (e : exn_class) :
  isinstance e HTTPError = true <-> e = HTTPError.
Proof. destruct e; vm_compute; split; congruence. Qed.

(** One finished task, found in the dictionary.  The statement
    returns, whatever the task ended with. *)
Lemma complete_one_run (w : World) (future : nat) (m : MediaItem)
    (st : State) :
  dict_get future (pool_future_to_media st) = Some m ->
  complete_one w future st
  = Normal tt
      (set_pool_future_to_media
         (dict_del future (pool_future_to_media st))
         match future_exception w future with
         | Some e =>
             let st1 := set_files_download_failed
                          (files_download_failed st + 1) st in
             if isinstance e HTTPError
             then set_bad_ids (add_id (relative_path m) (id m) (url m)
                                      (bad_ids st1)) st1
             else st1
         | None =>
             set_files_downloaded (files_downloaded st + 1)
               (set_db (put_downloaded (id m) (_db st)) st)
         end).
Proof.
  intros Hm. unfold complete_one. run. rewrite Hm.
  destruct (future_exception w future) as [e|]; run.
  - rewrite instance_is_not_class.
    destruct (isinstance e HTTPError); run; simpl; rewrite Hm; reflexivity.
  - simpl. rewrite Hm. reflexivity.
Qed.

Lemma complete_one_collecting (w : World) (future : nat) (st : State) :
  collecting st (state_of (complete_one w future st)).
Proof.
  destruct (dict_get future (pool_future_to_media st)) as [m|] eqn:Hm.
  - rewrite (complete_one_run w future m st Hm). simpl state_of.
    destruct (future_exception w future) as [e|]; cbv zeta.
    + destruct (isinstance e HTTPError); repeat split; simpl;
        try reflexivity; try lia; try apply dict_del_length.
      rewrite dom_insert_L. set_solver.
    + repeat split; simpl; try reflexivity; try lia.
      apply dict_del_length.
  - unfold complete_one. run. rewrite Hm.
    destruct (future_exception w future) as [e|]; run; simpl.
    + repeat split; simpl; try reflexivity; lia.
    + apply collecting_refl.
Qed.

Lemma collecting_preserved (st0 : State) (w : World) (future : nat) :
  preserves (collecting st0) (complete_one w future).
Proof.
  intros st H. eapply collecting_trans; [exact H|].
  apply complete_one_collecting.
Qed.

Lemma do_download_complete_collecting (w : World) (futures_list : list nat)
    (st : State) :
  collecting st (state_of (do_download_complete w futures_list st)).
Proof.
  apply (preserves_for_each (collecting st)); [|apply collecting_refl].
  intros future _. apply collecting_preserved.
Qed.

(** Collecting the futures that satisfy [P] among those of the
    dictionary returns, and leaves the others in the dictionary. *)
Lemma collect_filtered (w : World) (P : nat -> bool)
    (r pre : list (nat * MediaItem)) (st : State) :
  pool_future_to_media st = (pre ++ r)%list ->
  (forall k, k ∈ dict_keys pre -> P k = false) ->
  exists st',
    do_download_complete w (List.filter P (dict_keys r)) st = Normal tt st'
    /\ pool_future_to_media st'
       = (pre ++ List.filter (fun kv => negb (P kv.1)) r)%list.
Proof.
  revert pre st. induction r as [|[k v] r IH]; intros pre st Hpool Hpre.
  - exists st. split; [reflexivity|]. exact Hpool.
  - simpl. destruct (P k) eqn:Pk; simpl.
    + assert (Hk : k ∉ dict_keys pre).
      { intros Hin. apply Hpre in Hin. congruence. }
      unfold do_download_complete. simpl. unfold bind at 1.
      rewrite (complete_one_run w k v st).
      2:{ rewrite Hpool, dict_get_app_skip by exact Hk. simpl.
          now rewrite decide_True. }
      match goal with |- context [for_each _ _ ?s] =>
        destruct (IH pre s) as (st' & E & Hp)
      end.
      * simpl. rewrite Hpool, dict_del_app_skip by exact Hk. simpl.
        now rewrite decide_True.
      * exact Hpre.
      * exists st'. split; [exact E | exact Hp].
    + destruct (IH (pre ++ [(k, v)])%list st) as (st' & E & Hp).
      * rewrite Hpool, <- app_assoc. reflexivity.
      * intros k' Hin. unfold dict_keys in Hin.
        rewrite map_app, elem_of_app in Hin. destruct Hin as [Hin|Hin].
        -- apply Hpre, Hin.
        -- simpl in Hin. apply list_elem_of_singleton in Hin. now subst.
      * exists st'. split; [exact E|]. rewrite Hp, <- app_assoc. reflexivity.
Qed.

(** *** Waiting for a free thread *)

Lemma wait_for_free_thread_eq (w : World) (polls : nat) (st : State) :
  wait_for_free_thread w polls st
  = if bool_decide (MAX_THREADS <= length (pool_future_to_media st))%nat then
      match polls with
      | O => Spinning st
      | S polls' =>
          let done_list :=
            List.filter (future_done w (clock st))
                        (dict_keys (pool_future_to_media st)) in
          (modify (fun st => set_clock (S (clock st)) st) ;;;
           do_download_complete w done_list ;;;
           wait_for_free_thread w polls') st
      end
    else Normal tt st.
Proof. destruct polls; reflexivity. Qed.

Lemma wait_collecting (w : World) (polls : nat) (st : State) :
  collecting st (state_of (wait_for_free_thread w polls st)).
Proof.
  revert st. induction polls as [|p IH]; intro st;
    rewrite wait_for_free_thread_eq; case_bool_decide;
    try apply collecting_refl.
  cbv zeta. run. simpl pool_future_to_media. simpl clock.
  set (st1 := set_clock (S (clock st)) st).
  set (done_list := List.filter _ _).
  assert (H1 : collecting st st1).
  { repeat split; simpl; try reflexivity; lia. }
  pose proof (do_download_complete_collecting w done_list st1) as H2.
  destruct (do_download_complete w done_list st1) as [[] st2|e st2|st2];
    simpl in *; try (eapply collecting_trans; eassumption).
  eapply collecting_trans; [|apply IH].
  eapply collecting_trans; eassumption.
Qed.

(** The loop is left only with a thread free. *)
Lemma wait_leaves_thread_free (w : World) (polls : nat) (st st' : State) :
  wait_for_free_thread w polls st = Normal tt st' ->
  (length (pool_future_to_media st') < MAX_THREADS)%nat.
Proof.
  revert st. induction polls as [|p IH]; intro st;
    rewrite wait_for_free_thread_eq; case_bool_decide as Hc;
    try discriminate; try (intros [= <-]; lia).
  cbv zeta. run. simpl pool_future_to_media. simpl clock.
  destruct (do_download_complete _ _ _) as [[] st2|e st2|st2];
    try discriminate.
  apply IH.
Qed.

Lemma latest_finish_ge (w : World) (d : list (nat * MediaItem)) (k : nat) :
  k ∈ dict_keys d -> (task_finish w k <= latest_finish w d)%nat.
Proof.
  unfold latest_finish. induction (dict_keys d) as [|k' l IH]; simpl.
  - intros H. inversion H.
  - rewrite elem_of_cons. intros [->|H]; [lia|]. specialize (IH H). lia.
Qed.

Lemma latest_finish_filter (w : World) (P : nat * MediaItem -> bool)
    (d : list (nat * MediaItem)) :
  (latest_finish w (List.filter P d) <= latest_finish w d)%nat.
Proof.
  unfold latest_finish, dict_keys.
  induction d as [|kv d IH]; simpl; [lia|].
  destruct (P kv); simpl; lia.
Qed.

(** With the polls it is given, the loop of [download_file] ends,
    and it returns: by then every worker has finished and has been
    collected. *)
Lemma wait_ends (w : World) (polls : nat) (st : State) :
  (polls_needed w st <= polls)%nat ->
  exists st', wait_for_free_thread w polls st = Normal tt st'.
Proof.
  revert st. induction polls as [|p IH]; intro st; unfold polls_needed;
    intros Hp; [lia|].
  rewrite wait_for_free_thread_eq. case_bool_decide as Hc; [|eauto].
  cbv zeta. run. simpl pool_future_to_media. simpl clock.
  set (st1 := set_clock (S (clock st)) st).
  destruct (collect_filtered w (future_done w (clock st))
              (pool_future_to_media st) [] st1 eq_refl)
    as (st2 & E1 & Hpool).
  { intros k Hk. inversion Hk. }
  simpl in Hpool.
  pose proof (do_download_complete_collecting w
                (List.filter (future_done w (clock st))
                   (dict_keys (pool_future_to_media st))) st1) as Hcol.
  simpl pool_future_to_media in E1. rewrite E1 in Hcol |- *.
  simpl state_of in Hcol.
  destruct (pool_future_to_media st2) as [|[k v] rest] eqn:E2.
  - rewrite wait_for_free_thread_eq, E2.
    rewrite bool_decide_eq_false_2; [eauto|]. unfold MAX_THREADS. simpl. lia.
  - apply IH. unfold polls_needed. rewrite E2.
    assert (Hk : (clock st < task_finish w k)%nat).
    { assert (Hin : (k, v) ∈ List.filter
                      (fun kv => negb (future_done w (clock st) kv.1))
                      (pool_future_to_media st)).
      { rewrite <- Hpool. left. }
      apply list_elem_of_In, filter_In in Hin. destruct Hin as [_ Hn].
      simpl in Hn. unfold future_done in Hn.
      apply negb_true_iff, bool_decide_eq_false in Hn. lia. }
    assert (Hle : (latest_finish w ((k, v) :: rest)
                   <= latest_finish w (pool_future_to_media st))%nat).
    { rewrite Hpool. apply latest_finish_filter. }
    assert (Hge : (task_finish w k <= latest_finish w ((k, v) :: rest))%nat).
    { apply latest_finish_ge. left. }
    assert (Hclock : (S (clock st) <= clock st2)%nat).
    { destruct Hcol as (_ & _ & _ & _ & _ & _ & _ & _ & Hc2).
      simpl in Hc2. exact Hc2. }
    lia.
Qed.

(** *** Submitting a task *)

(** [download_file] returns, for a document that carries a base URL:
    it waits until a thread is free, and then submits. *)
Lemma download_file_run (w : World) (media_item : MediaItem)
    (media_json : MediaJson) (base_url : string) (st : State) :
  baseUrl media_json = Some base_url ->
  exists st1,
    wait_for_free_thread w (polls_needed w st) st = Normal tt st1
    /\ download_file w media_item media_json st
       = Normal tt
           (set_pool_future_to_media
              (dict_set (length (download_pool st1)) media_item
                        (pool_future_to_media st1))
              (set_download_pool
                 (download_pool st1 ++
                    [{| task_base_url := base_url;
                        task_media := media_item |}])
                 (set_files_download_started
                    (files_download_started st1 + 1) st1))).
Proof.
  intros Hb. destruct (wait_ends w (polls_needed w st) st) as (st1 & E);
    [lia|].
  exists st1. split; [exact E|].
  unfold download_file. rewrite Hb. run. rewrite E. reflexivity.
Qed.

Lemma download_file_without_url (w : World) (media_item : MediaItem)
    (media_json : MediaJson) (st : State) :
  baseUrl media_json = None ->
  download_file w media_item media_json st = Raised KeyError st.
Proof. intros Hb. unfold download_file. now rewrite Hb. Qed.

(** *** The backpressure bound *)

(** Structural steps of a proof that a statement keeps an invariant
    that the assignments in it do not touch. *)
Ltac preserve :=
  repeat lazymatch goal with
    | |- preserves _ (ret _) => apply preserves_ret
    | |- preserves _ (raise _) => apply preserves_raise
    | |- preserves _ (gets _) => apply preserves_gets
    | |- preserves _ (bind _ _) => apply preserves_bind; [|intros ?]
    | |- preserves _ (for_each _ _) => apply preserves_for_each; intros ? ?
    | |- preserves _ (try_finally _ _) => apply preserves_try_finally
    | |- preserves _ (modify _) =>
        apply preserves_modify; intros ? ?; simpl; assumption
    | |- preserves _ (if ?c then _ else _) => destruct c
    | |- preserves _ (match ?x with _ => _ end) => destruct x
    end;
  try solve [auto with preserves].

Lemma collecting_within_bound (st st' : State) :
  collecting st st' -> within_bound st -> within_bound st'.
Proof.
  unfold within_bound. intros (_ & _ & _ & _ & _ & _ & _ & H & _). lia.
Qed.

Lemma complete_one_within_bound (w : World) (future : nat) :
  preserves within_bound (complete_one w future).
Proof.
  intros st H. eapply collecting_within_bound; [|exact H].
  apply complete_one_collecting.
Qed.

Lemma do_download_complete_within_bound (w : World)
    (futures_list : list nat) :
  preserves within_bound (do_download_complete w futures_list).
Proof.
  intros st H. eapply collecting_within_bound; [|exact H].
  apply do_download_complete_collecting.
Qed.

#[local] Hint Resolve complete_one_within_bound
  do_download_complete_within_bound : preserves.

Lemma download_file_within_bound (w : World) (media_item : MediaItem)
    (media_json : MediaJson) :
  preserves within_bound (download_file w media_item media_json).
Proof.
  intros st H. destruct (baseUrl media_json) as [base_url|] eqn:Hb.
  - destruct (download_file_run w media_item media_json base_url st Hb)
      as (st1 & Hw & ->).
    apply wait_leaves_thread_free in Hw.
    unfold within_bound. simpl.
    pose proof (dict_set_length (length (download_pool st1)) media_item
                                (pool_future_to_media st1)).
    lia.
  - rewrite download_file_without_url by exact Hb. exact H.
Qed.

#[local] Hint Resolve download_file_within_bound : preserves.

Lemma execute_preserves {A : Type} (P : State -> Prop) (request : Request)
    (answer : pyresult A) :
  (forall st calls, P st -> P (set_api_calls calls st)) ->
  preserves P (execute request answer).
Proof.
  intros Hp. unfold execute. apply preserves_bind.
  - apply preserves_modify. intros st H. apply Hp, H.
  - intros _. destruct answer; preserve.
Qed.

Lemma find_bad_item_within_bound (w : World) (entry : string * MediaItem) :
  preserves within_bound (find_bad_item w entry).
Proof.
  unfold find_bad_item. destruct entry as [item_id media_item]. preserve.
  apply preserves_try_except.
  - preserve. apply execute_preserves. intros st calls H. exact H.
  - intros e h. destruct (http_or_retry e); [|discriminate].
    intros [= <-]. unfold quarantine. preserve.
Qed.

#[local] Hint Resolve find_bad_item_within_bound : preserves.

Lemma download_batch_within_bound (w : World)
    (batch : list (string * MediaItem)) :
  preserves within_bound (download_batch w batch).
Proof.
  unfold download_batch. apply preserves_try_except.
  - preserve.
    + apply execute_preserves. intros st calls H. exact H.
    + unfold download_result. preserve.
  - intros e h. destruct (isinstance e KeyboardInterrupt).
    { intros [= <-]. unfold future_cancel. preserve. }
    destruct (http_or_retry e); [|discriminate].
    intros [= <-]. unfold find_bad_items. preserve.
Qed.

#[local] Hint Resolve download_batch_within_bound : preserves.

Lemma check_candidate_preserves (P : State -> Prop) (w : World)
    (media_item : MediaItem) (batch : list (string * MediaItem)) :
  (forall st n, P st -> P (set_files_download_skipped n st)) ->
  (forall st db, P st -> P (set_db db st)) ->
  (forall st d, P st -> P (set_dirs d st)) ->
  preserves P (check_candidate w media_item batch).
Proof.
  intros H1 H2 H3. unfold check_candidate. preserve;
    apply preserves_modify; intros st H; auto.
Qed.

Lemma collect_batch_preserves (P : State -> Prop) (w : World)
    (items : list MediaItem) (batch : list (string * MediaItem)) :
  (forall st n, P st -> P (set_files_download_skipped n st)) ->
  (forall st db, P st -> P (set_db db st)) ->
  (forall st d, P st -> P (set_dirs d st)) ->
  preserves P (collect_batch w items batch).
Proof.
  intros H1 H2 H3. revert batch.
  induction items as [|m items IH]; intro batch; simpl; preserve.
  apply check_candidate_preserves; assumption.
Qed.

Lemma download_photo_media_within_bound (w : World)
    (candidates : list MediaItem) :
  preserves within_bound (download_photo_media w candidates).
Proof.
  unfold download_photo_media. preserve.
  unfold download_block. preserve.
  apply collect_batch_preserves; intros; assumption.
Qed.

(** *** The claims on the download run *)

(** Claim C1 fails on the code.  The future of the one task in flight
    holds a [KeyboardInterrupt]; [do_download_complete] counts it as a
    failed download, removes the future and returns: the test
    [e == KeyboardInterrupt] compares the exception object with the
    class, and nothing is raised again.  (The ledger is left alone.) *)
Theorem cancellation_is_not_raised_again :
  let w := worker_raises KeyboardInterrupt in
  let st := in_flight 1 in
  future_exception w 0 = Some KeyboardInterrupt
  /\ exists st',
       do_download_complete w [0%nat] st = Normal tt st'
       /\ files_download_failed st' = S (files_download_failed st)
       /\ pool_future_to_media st' = []
       /\ bad_ids st' = bad_ids st.
Proof.
  intros w st. split; [reflexivity|].
  eexists. split; [reflexivity|]. repeat split.
Qed.

(** Claim C2 fails on the code.  The transfer is interrupted while the
    body is copied; [do_download_file] lets the [KeyboardInterrupt]
    out with the temporary file, partly written, still in the folder
    of the record. *)
Theorem cancelled_download_leaves_temp_file :
  let st := __init__ quiet_world "/data" empty_store ∅ in
  let m := photo "A" 50 in
  do_download_file st interrupted_transfer "https://lh3.example/A" m ∅
  = ({[ "/data/photos/2019/01/tmpk3x9" := Partial ]},
     Raises KeyboardInterrupt).
Proof. vm_compute. reflexivity. Qed.

(** The sibling path: on any other exception raised before the
    rename, the temporary file is removed and nothing is at the final
    path that was not there. *)
Lemma failed_download_removes_temp_file (st : State) (t : Transfer)
    (base_url : string) (m : MediaItem) (fs : gmap string Content)
    (e : exn_class) :
  let folder := OsPath.join (_root_folder st) [relative_folder m] in
  let temp := OsPath.join folder [temp_name t] in
  let final := OsPath.join folder [filename m] in
  temp <> final ->
  os_utime t = None ->
  (do_download_file st t base_url m fs).2 = Raises e ->
  e <> KeyboardInterrupt ->
  (do_download_file st t base_url m fs).1 !! temp = None
  /\ (do_download_file st t base_url m fs).1 !! final = fs !! final.
Proof.
  intros folder temp final Hne Hu. unfold do_download_file.
  fold folder. fold temp. fold final.
  destruct (is_video m); unfold try_block;
    (destruct (session_get t _ _) as [e1|];
       [|destruct (copyfileobj t) as [e2|];
         [|destruct (temp_file_close t) as [e3|];
           [|destruct (response_close t) as [e4|];
             [|destruct (os_rename t) as [e5|];
               [|rewrite Hu]]]]]);
    match goal with
    | |- context [isinstance ?x KeyboardInterrupt] =>
        destruct (isinstance x KeyboardInterrupt) eqn:Hk
    | _ => idtac
    end; simpl; intros He Hn;
    try discriminate;
    try (injection He as ->; destruct e; try discriminate Hk;
         congruence);
    repeat rewrite ?lookup_insert_eq, ?lookup_delete_eq; simpl;
    try (injection He as <-);
    (split; [now rewrite ?lookup_delete_eq
            | now rewrite ?lookup_delete_ne, ?lookup_insert_ne by congruence]).
Qed.

(** Claim C5.  For every finished task that [do_download_complete]
    collects: if it failed, the failure count goes up by one and the
    record is added to the Quarantine Ledger if and only if the
    exception is an [HTTPError] (so never for a local I/O error), the
    store being left alone; if it succeeded, the record is marked
    downloaded in the store and the success count goes up by one.
    Either way the future leaves the dictionary and the loop goes on
    to the next. *)
Theorem completion_handling (w : World) (future : nat) (rest : list nat)
    (m : MediaItem) (st : State) :
  dict_get future (pool_future_to_media st) = Some m ->
  exists st',
    do_download_complete w (future :: rest) st
    = do_download_complete w rest st'
    /\ pool_future_to_media st' = dict_del future (pool_future_to_media st)
    /\ match future_exception w future with
       | Some e =>
           files_download_failed st' = S (files_download_failed st)
           /\ (e = HTTPError ->
               bad_ids st' = add_id (relative_path m) (id m) (url m)
                                    (bad_ids st)
               /\ check_id_ok (id m) (bad_ids st') = false)
           /\ (e <> HTTPError -> bad_ids st' = bad_ids st)
           /\ (e = OSError -> bad_ids st' = bad_ids st)
           /\ _db st' = _db st
           /\ files_downloaded st' = files_downloaded st
       | None =>
           _db st' = put_downloaded (id m) (_db st)
           /\ id m ∈ downloaded (_db st')
           /\ files_downloaded st' = S (files_downloaded st)
           /\ files_download_failed st' = files_download_failed st
           /\ bad_ids st' = bad_ids st
       end.
Proof.
  intros Hm. eexists. split.
  { unfold do_download_complete. simpl. unfold bind at 1.
    rewrite (complete_one_run w future m st Hm). reflexivity. }
  split; [reflexivity|].
  destruct (future_exception w future) as [e|]; cbv zeta.
  - assert (Hnot : e <> HTTPError -> isinstance e HTTPError = false).
    { intros N. destruct (isinstance e HTTPError) eqn:E; [|reflexivity].
      apply isinstance_HTTPError in E. contradiction. }
    split.
    { destruct (isinstance e HTTPError); simpl; lia. }
    split.
    { intros ->. simpl. split; [reflexivity|].
      unfold check_id_ok. simpl. rewrite lookup_insert_eq.
      now apply bool_decide_eq_false_2. }
    split.
    { intros N. rewrite (Hnot N). reflexivity. }
    split.
    { intros ->. reflexivity. }
    destruct (isinstance e HTTPError); split; reflexivity.
  - simpl. repeat split; try lia. set_solver.
Qed.

Lemma completion_handling_witness :
  let w := worker_raises HTTPError in
  let st := in_flight 1 in
  let m := photo "A" 50 in
  dict_get 0%nat (pool_future_to_media st) = Some m
  /\ exists st',
       do_download_complete w [0%nat] st = do_download_complete w [] st'
       /\ files_download_failed st' = S (files_download_failed st)
       /\ check_id_ok (id m) (bad_ids st') = false.
Proof.
  intros w st m.
  assert (H : dict_get 0%nat (pool_future_to_media st) = Some m)
    by reflexivity.
  split; [exact H|].
  destruct (completion_handling w 0%nat [] m st H)
    as (st' & E & _ & F & Q & _).
  exists st'. split; [exact E|]. split; [exact F|].
  exact (proj2 (Q eq_refl)).
Defined.

(** Claim C6.  The dictionary of futures never holds more than
    [MAX_THREADS] futures.  [download_file] ends; when it returns it
    has waited until fewer than [MAX_THREADS] were in flight, nothing
    but collecting having happened meanwhile, and has then submitted
    one task; and collecting, a batch and a whole download run all keep
    the bound, whichever way they end. *)
Theorem backpressure_bound (w : World) (media_item : MediaItem)
    (media_json : MediaJson) (st : State) :
  within_bound st ->
  match download_file w media_item media_json st with
  | Normal _ st' =>
      exists base_url st1,
        baseUrl media_json = Some base_url
        /\ wait_for_free_thread w (polls_needed w st) st = Normal tt st1
        /\ collecting st st1
        /\ (length (pool_future_to_media st1) < MAX_THREADS)%nat
        /\ download_pool st'
           = (download_pool st1 ++
                [{| task_base_url := base_url;
                    task_media := media_item |}])%list
        /\ pool_future_to_media st'
           = dict_set (length (download_pool st1)) media_item
                      (pool_future_to_media st1)
        /\ within_bound st'
  | Raised _ st' => st' = st
  | Spinning _ => False
  end
  /\ (forall futures_list,
        within_bound (state_of (do_download_complete w futures_list st)))
  /\ (forall batch, within_bound (state_of (download_batch w batch st)))
  /\ (forall candidates,
        within_bound (state_of (download_photo_media w candidates st))).
Proof.
  intros H. split; [|split; [|split]].
  - pose proof (download_file_within_bound w media_item media_json st H)
      as Hb.
    destruct (baseUrl media_json) as [base_url|] eqn:Hu.
    + destruct (download_file_run w media_item media_json base_url st Hu)
        as (st1 & Hw & E).
      rewrite E in Hb |- *. exists base_url, st1.
      split; [reflexivity|]. split; [exact Hw|].
      split.
      { pose proof (wait_collecting w (polls_needed w st) st) as Hc.
        now rewrite Hw in Hc. }
      split; [eapply wait_leaves_thread_free; exact Hw|].
      split; [reflexivity|]. split; [reflexivity | exact Hb].
    + rewrite download_file_without_url by exact Hu. reflexivity.
  - intros l. apply do_download_complete_within_bound, H.
  - intros batch. apply download_batch_within_bound, H.
  - intros candidates. apply download_photo_media_within_bound, H.
Qed.

Lemma backpressure_bound_witness :
  let w := quiet_world in
  let st := in_flight MAX_THREADS in
  let m := photo "B" 60 in
  let json := {| json_id := "B"; baseUrl := Some "https://lh3.example/B" |} in
  within_bound st
  /\ match download_file w m json st with
     | Normal _ st' =>
         exists base_url st1,
           baseUrl json = Some base_url
           /\ wait_for_free_thread w (polls_needed w st) st = Normal tt st1
           /\ collecting st st1
           /\ (length (pool_future_to_media st1) < MAX_THREADS)%nat
           /\ download_pool st'
              = (download_pool st1 ++
                   [{| task_base_url := base_url; task_media := m |}])%list
           /\ pool_future_to_media st'
              = dict_set (length (download_pool st1)) m
                         (pool_future_to_media st1)
           /\ within_bound st'
     | Raised _ st' => st' = st
     | Spinning _ => False
     end.
Proof.
  intros w st m json.
  assert (H : within_bound st).
  { unfold within_bound. vm_compute. apply le_n. }
  split; [exact H|].
  pose proof (backpressure_bound w m json st H) as B.
  destruct B as [B _].
  exact B.
Defined.

(** The same input, run: all twenty futures are collected at the first
    poll, and the new task is alone in flight. *)
Example download_file_at_the_bound :
  match download_file quiet_world (photo "B" 60)
          {| json_id := "B"; baseUrl := Some "https://lh3.example/B" |}
          (in_flight MAX_THREADS) with
  | Normal _ st' =>
      dict_keys (pool_future_to_media st') = [20%nat]
      /\ files_downloaded st' = 20%nat
      /\ length (download_pool st') = 21%nat
  | _ => False
  end.
Proof. vm_compute. repeat split. Qed.

(** *** Candidates and the Quarantine Ledger *)

Lemma collecting_dispatched (w : World) (ok : MediaItem -> Prop)
    (st0 st st' : State) :
  collecting st st' -> dispatched w ok st0 st -> dispatched w ok st0 st'.
Proof.
  intros (C1 & _ & _ & C4 & C5 & C6 & _) (D1 & D2 & D3 & tasks & D4 & D5).
  split; [etrans; eassumption|]. split; [congruence|].
  split; [congruence|]. exists tasks. split; [congruence | exact D5].
Qed.

Lemma dispatched_refl (w : World) (ok : MediaItem -> Prop) (st : State) :
  dispatched w ok st st.
Proof.
  split; [reflexivity|]. split; [reflexivity|]. split; [reflexivity|].
  exists []. split; [now rewrite app_nil_r | constructor].
Qed.

Lemma complete_one_dispatched (w : World) (ok : MediaItem -> Prop)
    (st0 : State) (future : nat) :
  preserves (dispatched w ok st0) (complete_one w future).
Proof.
  intros st H. eapply collecting_dispatched; [|exact H].
  apply complete_one_collecting.
Qed.

Lemma download_file_dispatched (w : World) (ok : MediaItem -> Prop)
    (st0 : State) (m : MediaItem) (media_json : MediaJson) :
  ok m ->
  preserves (dispatched w ok st0)
    (download_file w (set_path_by_date w (_media_folder st0) m) media_json).
Proof.
  intros Hok st H. destruct (baseUrl media_json) as [base_url|] eqn:Hb.
  - destruct (download_file_run w (set_path_by_date w (_media_folder st0) m)
                media_json base_url st Hb) as (st1 & Hw & ->).
    pose proof (wait_collecting w (polls_needed w st) st) as Hc.
    rewrite Hw in Hc. simpl in Hc.
    destruct (collecting_dispatched w ok st0 st st1 Hc H)
      as (D1 & D2 & D3 & tasks & D4 & D5).
    simpl. split; [exact D1|]. split; [exact D2|]. split; [exact D3|].
    eexists (tasks ++ [_])%list. simpl. split.
    + rewrite D4, <- app_assoc. reflexivity.
    + apply Forall_app. split; [exact D5|].
      constructor; [|constructor]. exists m. split; [exact Hok|reflexivity].
  - rewrite download_file_without_url by exact Hb. exact H.
Qed.

Lemma preserves_bind_gets {A B : Type} (P : State -> Prop)
    (f : State -> A) (k : A -> M B) :
  (forall st, P st -> P (state_of (k (f st) st))) ->
  preserves P (bind (gets f) k).
Proof. intros Hk st H. unfold bind, gets. apply Hk, H. Qed.

Lemma dispatched_quarantine (w : World) (ok : MediaItem -> Prop)
    (st0 : State) (m : MediaItem) :
  preserves (dispatched w ok st0) (quarantine m).
Proof.
  unfold quarantine. apply preserves_modify.
  intros st (D1 & D2). split; [|exact D2].
  simpl. rewrite dom_insert_L. etrans; [exact D1|]. apply union_subseteq_r.
Qed.

Lemma dict_get_elem_of {V : Type} (k : string) (v : V)
    (d : list (string * V)) :
  dict_get k d = Some v -> (k, v) ∈ d.
Proof.
  induction d as [|[k' v'] d IH]; simpl; [discriminate|].
  destruct (decide (k = k')) as [->|N].
  - intros [= ->]. left.
  - intros H. right. apply IH, H.
Qed.

Lemma dict_set_elem_of {V : Type} (k k' : string) (v v' : V)
    (d : list (string * V)) :
  (k', v') ∈ dict_set k v d -> (k', v') = (k, v) \/ (k', v') ∈ d.
Proof.
  induction d as [|[k0 v0] d IH]; simpl.
  - intros H. apply list_elem_of_singleton in H. now left.
  - destruct (decide (k = k0)) as [->|N]; rewrite !elem_of_cons.
    + intros [H|H]; [now left | right; now right].
    + intros [H|H]; [right; now left|].
      destruct (IH H) as [?|?]; [now left | right; now right].
Qed.

Lemma find_bad_item_dispatched (w : World) (ok : MediaItem -> Prop)
    (st0 : State) (item_id : string) (m : MediaItem) :
  ok m ->
  preserves (dispatched w ok st0) (find_bad_item w (item_id, m)).
Proof.
  intros Hok. unfold find_bad_item. apply preserves_bind_gets.
  intros st H. pose proof H as (_ & -> & _).
  revert st H. apply preserves_try_except.
  - apply preserves_bind.
    + apply execute_preserves. intros st calls H. exact H.
    + intros json. apply download_file_dispatched, Hok.
  - intros e h. destruct (http_or_retry e); [|discriminate].
    intros [= <-]. apply preserves_bind; [apply dispatched_quarantine|].
    intros _. preserve.
Qed.

Lemma download_batch_dispatched (w : World) (ok : MediaItem -> Prop)
    (st0 : State) (batch : list (string * MediaItem)) :
  (forall i m, (i, m) ∈ batch -> ok m) ->
  preserves (dispatched w ok st0) (download_batch w batch).
Proof.
  intros Hbatch. unfold download_batch. apply preserves_try_except.
  - apply preserves_bind.
    + apply execute_preserves. intros st calls H. exact H.
    + intros r_json. apply preserves_for_each. intros result _.
      unfold download_result. destruct result as [json|]; [|preserve].
      destruct (dict_get (json_id json) batch) as [m|] eqn:Hm; [|preserve].
      apply preserves_bind_gets. intros st H. pose proof H as (_ & -> & _).
      apply download_file_dispatched; [|exact H].
      eapply Hbatch, dict_get_elem_of, Hm.
  - intros e h. destruct (isinstance e KeyboardInterrupt).
    { intros [= <-]. unfold future_cancel. preserve. }
    destruct (http_or_retry e); [|discriminate].
    intros [= <-]. unfold find_bad_items. apply preserves_for_each.
    intros [i m] Hin. apply find_bad_item_dispatched. eapply Hbatch, Hin.
Qed.

(** Gathering a batch returns; it touches neither the pool nor the
    ledger, and what it adds are candidates that are not on the disk
    and not in the ledger. *)
Lemma collect_batch_run (w : World) (items : list MediaItem) :
  forall (batch : list (string * MediaItem)) (st : State),
  exists batch' st',
    collect_batch w items batch st = Normal batch' st'
    /\ collecting st st'
    /\ pool_future_to_media st' = pool_future_to_media st
    /\ bad_ids st' = bad_ids st
    /\ forall i m, (i, m) ∈ batch' ->
         (i, m) ∈ batch
         \/ (m ∈ items
             /\ os_path_exists w (local_full_path st m) = false
             /\ check_id_ok (id m) (bad_ids st) = true).
Proof.
  induction items as [|c items IH]; intros batch st; simpl.
  - exists batch, st. split; [reflexivity|].
    split; [apply collecting_refl|]. auto.
  - unfold bind at 1. unfold check_candidate. run.
    fold (local_full_path st c).
    destruct (os_path_exists w (local_full_path st c)) eqn:Hex; run.
    + match goal with |- context [collect_batch _ _ _ ?s] =>
        destruct (IH batch s) as (b' & st' & E & C & Hp & Hb & Hin)
      end.
      exists b', st'. split; [exact E|].
      split; [exact C|]. split; [exact Hp|]. split; [exact Hb|].
      intros i m H. destruct (Hin i m H) as [?|(? & ? & ?)]; [now left|].
      right. split; [now right | auto].
    + destruct (check_id_ok (id c) (bad_ids st)) eqn:Hok; run.
      * destruct (negb (bool_decide _)); run;
          match goal with |- context [collect_batch _ _ ?b ?s] =>
            destruct (IH b s) as (b' & st' & E & C & Hp & Hb & Hin)
          end;
          exists b', st'; (split; [exact E|]);
          (split; [exact C|]); (split; [exact Hp|]); (split; [exact Hb|]);
          intros i m H; (destruct (Hin i m H) as [H'|(? & ? & ?)];
            [|right; split; [now right | auto]]);
          (apply dict_set_elem_of in H'; destruct H' as [[= -> ->]|?];
            [right; split; [left | auto] | now left]).
      * destruct (IH batch st) as (b' & st' & E & C & Hp & Hb & Hin).
        exists b', st'. split; [exact E|].
        split; [exact C|]. split; [exact Hp|]. split; [exact Hb|].
        intros i m H. destruct (Hin i m H) as [?|(? & ? & ?)]; [now left|].
        right. split; [now right | auto].
Qed.

Lemma elem_of_take_list {A : Type} (x : A) (n : nat) (l : list A) :
  x ∈ take n l -> x ∈ l.
Proof.
  rewrite elem_of_take. intros (i & Hi & _).
  eapply list_elem_of_lookup_2, Hi.
Qed.

Lemma elem_of_drop_list {A : Type} (x : A) (n : nat) (l : list A) :
  x ∈ drop n l -> x ∈ l.
Proof.
  intros H. apply list_elem_of_lookup_1 in H. destruct H as (i & Hi).
  rewrite lookup_drop in Hi. eapply list_elem_of_lookup_2, Hi.
Qed.

(** The records of a block are candidates. *)
Lemma grouper_loop_elem_of (rounds : nat) (l : list MediaItem)
    (block : list (option MediaItem)) (m : MediaItem) :
  block ∈ grouper_loop rounds l -> Some m ∈ block -> m ∈ l.
Proof.
  revert l. induction rounds as [|n IH]; intro l; simpl.
  - intros H. inversion H.
  - destruct l as [|x l]; [intros H; inversion H|].
    rewrite elem_of_cons. intros [E|H] Hm.
    + rewrite E in Hm. apply elem_of_app in Hm. destruct Hm as [Hm|Hm].
      * apply list_elem_of_fmap in Hm. destruct Hm as (y & [= ->] & Hy).
        eapply elem_of_take_list, Hy.
      * apply elem_of_replicate in Hm. destruct Hm as [? _]. discriminate.
    + specialize (IH _ H Hm). eapply elem_of_drop_list, IH.
Qed.

Lemma download_photo_media_dispatched (w : World)
    (candidates : list MediaItem) (st0 : State) :
  let ok m := m ∈ candidates
              /\ os_path_exists w (local_full_path st0 m) = false
              /\ id m ∉ dom (items (bad_ids st0)) in
  preserves (dispatched w ok st0) (download_photo_media w candidates).
Proof.
  intros ok. unfold download_photo_media. apply preserves_try_finally.
  - apply preserves_for_each. intros block Hblock st H.
    unfold download_block, bind.
    destruct (collect_batch_run w (omap (fun mi => mi) block) [] st)
      as (batch & st1 & -> & C & _ & Hb & Hin).
    pose proof (collecting_dispatched w ok st0 st st1 C H) as H1.
    case_bool_decide; [|exact H1].
    apply download_batch_dispatched; [|exact H1].
    intros i m Him. destruct (Hin i m Him) as [Hnil|(Hm & Hex & Hok)].
    { inversion Hnil. }
    destruct H as (D1 & _ & D3 & _).
    split; [|split].
    + apply list_elem_of_omap in Hm. destruct Hm as (o & Ho & ->).
      eapply grouper_loop_elem_of; eassumption.
    + unfold local_full_path in *. now rewrite <- D3.
    + unfold check_id_ok in Hok. apply bool_decide_eq_true in Hok.
      intros Hdom. apply D1 in Hdom. apply elem_of_dom in Hdom.
      rewrite Hok in Hdom. destruct Hdom as [? ?]. discriminate.
  - apply preserves_bind_gets. intros st H.
    apply preserves_bind.
    + apply preserves_for_each. intros f _. apply complete_one_dispatched.
    + intros _. apply preserves_modify.
      intros s (D1 & D2 & D3 & D4). split; [exact D1 | auto].
    + exact H.
Qed.

(** Claim C9.  For every candidate of a download run: if its local
    file exists it is marked downloaded in the store, counted as
    skipped, and left out of the batch, with no request to the catalog
    and no task; otherwise, if its identifier is in the Quarantine
    Ledger, nothing at all happens; otherwise it enters the batch (and
    its folder is made).  Over a whole run, every task handed to the
    pool is for a candidate whose file was not on the disk and whose
    identifier was not in the ledger when the run began. *)
Theorem candidate_triage (w : World) (media_item : MediaItem)
    (batch : list (string * MediaItem)) (st : State) :
  let path := local_full_path st media_item in
  let folder := OsPath.join (_root_folder st) [relative_folder media_item] in
  (os_path_exists w path = true ->
     check_candidate w media_item batch st
     = Normal batch
         (set_db (put_downloaded (id media_item) (_db st))
            (set_files_download_skipped (files_download_skipped st + 1) st)))
  /\ (os_path_exists w path = false ->
      id media_item ∈ dom (items (bad_ids st)) ->
      check_candidate w media_item batch st = Normal batch st)
  /\ (os_path_exists w path = false ->
      id media_item ∉ dom (items (bad_ids st)) ->
      check_candidate w media_item batch st
      = Normal (dict_set (id media_item) media_item batch)
               (if bool_decide (folder ∈ dirs st) then st
                else set_dirs ({[ folder ]} ∪ dirs st) st))
  /\ (forall candidates,
        dispatched w
          (fun m => m ∈ candidates
                    /\ os_path_exists w (local_full_path st m) = false
                    /\ id m ∉ dom (items (bad_ids st)))
          st (state_of (download_photo_media w candidates st))).
Proof.
  intros path folder.
  assert (Hcheck : check_id_ok (id media_item) (bad_ids st)
                   = negb (bool_decide
                             (id media_item ∈ dom (items (bad_ids st))))).
  { unfold check_id_ok.
    destruct (items (bad_ids st) !! id media_item) as [v|] eqn:E.
    - rewrite bool_decide_eq_false_2 by discriminate.
      rewrite bool_decide_eq_true_2 by (apply elem_of_dom; eauto).
      reflexivity.
    - rewrite bool_decide_eq_true_2 by reflexivity.
      rewrite bool_decide_eq_false_2; [reflexivity|].
      rewrite elem_of_dom, E. intros [? ?]. discriminate. }
  subst path folder. unfold local_full_path at 1 2 3, check_candidate. run.
  split; [intros ->; reflexivity|].
  split; [|split].
  - intros -> Hin. rewrite Hcheck, bool_decide_eq_true_2 by exact Hin.
    reflexivity.
  - intros -> Hin. rewrite Hcheck, bool_decide_eq_false_2 by exact Hin.
    change (negb false) with true. cbv beta iota.
    destruct (bool_decide (_ ∈ dirs st)); reflexivity.
  - intros candidates.
    apply (download_photo_media_dispatched w candidates st).
    apply dispatched_refl.
Qed.

(** *** The fallback to one request per item *)

(** An item whose get-by-id fails with an HTTP or retry error:
    quarantined, counted once, and on to the next. *)
Lemma find_bad_item_fails (w : World) (item_id : string) (m : MediaItem)
    (e : exn_class) (st : State) :
  mediaItems_get w item_id = Raises e ->
  http_or_retry e = true ->
  let m' := set_path_by_date w (_media_folder st) m in
  find_bad_item w (item_id, m) st
  = Normal tt
      (set_files_download_failed (files_download_failed st + 1)
         (set_bad_ids (add_id (relative_path m') (id m') (url m')
                              (bad_ids st))
            (set_api_calls (api_calls st ++ [GetRequest item_id]) st))).
Proof.
  intros Hget He m'. unfold find_bad_item. run. fold m'.
  unfold try_except, execute. run. rewrite Hget. run. rewrite He.
  unfold quarantine. run. reflexivity.
Qed.

(** An item whose get-by-id succeeds: handed to [download_file]. *)
Lemma find_bad_item_resolves (w : World) (item_id : string) (m : MediaItem)
    (json : MediaJson) (base_url : string) (st : State) :
  mediaItems_get w item_id = Returns json ->
  baseUrl json = Some base_url ->
  let m' := set_path_by_date w (_media_folder st) m in
  let asked := set_api_calls (api_calls st ++ [GetRequest item_id]) st in
  exists st1,
    wait_for_free_thread w (polls_needed w asked) asked = Normal tt st1
    /\ find_bad_item w (item_id, m) st
       = Normal tt
           (set_pool_future_to_media
              (dict_set (length (download_pool st1)) m'
                        (pool_future_to_media st1))
              (set_download_pool
                 (download_pool st1 ++
                    [{| task_base_url := base_url; task_media := m' |}])
                 (set_files_download_started
                    (files_download_started st1 + 1) st1))).
Proof.
  intros Hget Hb m' asked.
  destruct (download_file_run w m' json base_url asked Hb) as (st1 & Hw & E).
  exists st1. split; [exact Hw|].
  unfold find_bad_item. run. fold m'.
  unfold try_except, execute. run. rewrite Hget. run.
  fold asked. rewrite E. reflexivity.
Qed.

Lemma omap_cons_Some {A B : Type} (f : A -> option B) (x : A) (y : B)
    (l : list A) :
  f x = Some y -> omap f (x :: l) = y :: omap f l.
Proof. intros H. simpl. now rewrite H. Qed.

Lemma omap_cons_None {A B : Type} (f : A -> option B) (x : A) (l : list A) :
  f x = None -> omap f (x :: l) = omap f l.
Proof. intros H. simpl. now rewrite H. Qed.

Lemma filter_cons_true {A : Type} (f : A -> bool) (x : A) (l : list A) :
  f x = true -> List.filter f (x :: l) = x :: List.filter f l.
Proof. intros H. simpl. now rewrite H. Qed.

Lemma filter_cons_false {A : Type} (f : A -> bool) (x : A) (l : list A) :
  f x = false -> List.filter f (x :: l) = List.filter f l.
Proof. intros H. simpl. now rewrite H. Qed.

Lemma find_bad_items_run (w : World) (batch : list (string * MediaItem)) :
  Forall (resolvable w) batch ->
  forall st,
  exists st',
    find_bad_items w batch st = Normal tt st'
    /\ api_calls st' = (api_calls st ++ (GetRequest <$> dict_keys batch))%list
    /\ download_pool st'
       = (download_pool st ++ omap (resolve w (_media_folder st)) batch)%list
    /\ files_download_started st'
       = (files_download_started st
          + length (omap (resolve w (_media_folder st)) batch))%nat
    /\ (files_download_failed st + length (List.filter (get_fails w) batch)
        <= files_download_failed st')%nat
    /\ _media_folder st' = _media_folder st
    /\ dom (items (bad_ids st)) ⊆ dom (items (bad_ids st'))
    /\ (forall entry, entry ∈ batch -> get_fails w entry = true ->
          id entry.2 ∈ dom (items (bad_ids st'))).
Proof.
  induction 1 as [|[i m] batch Hr _ IH]; intro st.
  - exists st. simpl. rewrite !app_nil_r.
    repeat split; try reflexivity; try lia.
    intros entry H. inversion H.
  - unfold find_bad_items. rewrite for_each_cons.
    unfold resolvable in Hr. simpl in Hr.
    destruct (mediaItems_get w i) as [json|e] eqn:Hget.
    + destruct Hr as [base_url Hb].
      destruct (find_bad_item_resolves w i m json base_url st Hget Hb)
        as (st1 & Hw & ->).
      match type of Hw with wait_for_free_thread _ ?p ?s = _ =>
        pose proof (wait_collecting w p s) as Hc
      end.
      rewrite Hw in Hc.
      destruct Hc as (C1 & C2 & C3 & C4 & C5 & C6 & C7 & C8 & C9).
      simpl in C1, C2, C3, C4, C5, C6, C7, C8, C9.
      match goal with |- context [for_each _ _ ?s] =>
        destruct (IH s) as (st' & E & A & P & S & F & G & D & Q)
      end.
      simpl in A, P, S, F, G, D.
      exists st'. split; [exact E|].
      rewrite (omap_cons_Some _ _
                 {| task_base_url := base_url;
                    task_media := set_path_by_date w (_media_folder st) m |})
        by (unfold resolve; simpl; rewrite Hget, Hb; reflexivity).
      rewrite filter_cons_false
        by (unfold get_fails; simpl; now rewrite Hget).
      simpl dict_keys. rewrite fmap_cons. simpl length.
      split; [rewrite A, C2, <- app_assoc; reflexivity|].
      split; [rewrite P, C1, C5, <- app_assoc; reflexivity|].
      split; [rewrite S, C3, C5; lia|].
      split; [lia|]. split; [congruence|].
      split; [etrans; eassumption|].
      intros entry Hin Hf. apply elem_of_cons in Hin.
      destruct Hin as [->|Hin]; [|apply Q; assumption].
      unfold get_fails in Hf. simpl in Hf. rewrite Hget in Hf. discriminate.
    + rewrite (find_bad_item_fails w i m e st Hget Hr). cbv zeta.
      match goal with |- context [for_each _ _ ?s] =>
        destruct (IH s) as (st' & E & A & P & S & F & G & D & Q)
      end.
      simpl in A, P, S, F, G, D.
      exists st'. split; [exact E|].
      rewrite omap_cons_None
        by (unfold resolve; simpl; now rewrite Hget).
      rewrite filter_cons_true
        by (unfold get_fails; simpl; now rewrite Hget).
      simpl dict_keys. rewrite fmap_cons. simpl length.
      split; [rewrite A, <- app_assoc; reflexivity|].
      split; [exact P|]. split; [exact S|].
      split; [lia|]. split; [exact G|].
      split.
      { etrans; [|exact D]. rewrite dom_insert_L. set_solver. }
      intros entry Hin Hf. apply elem_of_cons in Hin.
      destruct Hin as [->|Hin]; [|apply Q; assumption].
      apply D. simpl. rewrite dom_insert_L. set_solver.
Qed.

(** Claim C7, amended.  When the bulk URL resolution of a batch fails
    with an HTTP or retry error, [download_batch] falls back to
    [find_bad_items], which asks for the items of the batch one at a
    time, in order.  An item whose get fails with an HTTP or retry
    error is added to the Quarantine Ledger and counted as one failed
    download, nothing else; an item whose get succeeds is handed to
    [download_file], which waits for a free thread and submits it to
    the pool.  When every get succeeds or fails in that way, the batch
    ends normally with one request per item sent, the tasks of the
    resolved items in the pool, and the failed ones in the ledger and
    the count.  A get that fails with any other exception ends the
    fallback with that exception: the item is neither added to the
    ledger nor counted, and the items after it are not asked for. *)
Theorem batch_failure_falls_back (w : World)
    (batch : list (string * MediaItem)) (e : exn_class) (st : State) :
  mediaItems_batchGet w (dict_keys batch) = Raises e ->
  http_or_retry e = true ->
  let asked :=
    set_api_calls (api_calls st ++ [BatchGetRequest (dict_keys batch)]) st in
  download_batch w batch st = find_bad_items w batch asked
  /\ (forall item_id m rest s e',
        mediaItems_get w item_id = Raises e' ->
        http_or_retry e' = true ->
        let m' := set_path_by_date w (_media_folder s) m in
        find_bad_items w ((item_id, m) :: rest) s
        = find_bad_items w rest
            (set_files_download_failed (files_download_failed s + 1)
               (set_bad_ids (add_id (relative_path m') (id m') (url m')
                                    (bad_ids s))
                  (set_api_calls (api_calls s ++ [GetRequest item_id]) s))))
  /\ (forall item_id m rest s json base_url,
        mediaItems_get w item_id = Returns json ->
        baseUrl json = Some base_url ->
        let m' := set_path_by_date w (_media_folder s) m in
        let s0 := set_api_calls (api_calls s ++ [GetRequest item_id]) s in
        exists s1,
          wait_for_free_thread w (polls_needed w s0) s0 = Normal tt s1
          /\ collecting s0 s1
          /\ find_bad_items w ((item_id, m) :: rest) s
             = find_bad_items w rest
                 (set_pool_future_to_media
                    (dict_set (length (download_pool s1)) m'
                              (pool_future_to_media s1))
                    (set_download_pool
                       (download_pool s1 ++
                          [{| task_base_url := base_url;
                              task_media := m' |}])
                       (set_files_download_started
                          (files_download_started s1 + 1) s1))))
  /\ (Forall (resolvable w) batch ->
      exists st',
        download_batch w batch st = Normal tt st'
        /\ api_calls st'
           = (api_calls st ++ BatchGetRequest (dict_keys batch)
                :: (GetRequest <$> dict_keys batch))%list
        /\ download_pool st'
           = (download_pool st
                ++ omap (resolve w (_media_folder st)) batch)%list
        /\ files_download_started st'
           = (files_download_started st
              + length (omap (resolve w (_media_folder st)) batch))%nat
        /\ (files_download_failed st
            + length (List.filter (get_fails w) batch)
            <= files_download_failed st')%nat
        /\ (forall entry, entry ∈ batch -> get_fails w entry = true ->
              id entry.2 ∈ dom (items (bad_ids st'))))
  /\ (forall item_id m rest s e',
        mediaItems_get w item_id = Raises e' ->
        http_or_retry e' = false ->
        find_bad_items w ((item_id, m) :: rest) s
        = Raised e' (set_api_calls (api_calls s ++ [GetRequest item_id]) s)).
Proof.
  intros Hbulk He asked.
  assert (Hfall : download_batch w batch st = find_bad_items w batch asked).
  { unfold download_batch, try_except, execute. run. rewrite Hbulk. run.
    assert (Hk : isinstance e KeyboardInterrupt = false).
    { destruct e; try reflexivity. discriminate He. }
    rewrite Hk, He. reflexivity. }
  split; [exact Hfall|]. split; [|split; [|split]].
  - intros item_id m rest s e' Hget He' m'.
    unfold find_bad_items. rewrite for_each_cons.
    rewrite (find_bad_item_fails w item_id m e' s Hget He'). reflexivity.
  - intros item_id m rest s json base_url Hget Hb m' s0.
    destruct (find_bad_item_resolves w item_id m json base_url s Hget Hb)
      as (s1 & Hw & E).
    exists s1. split; [exact Hw|]. split.
    { pose proof (wait_collecting w (polls_needed w s0) s0) as Hc.
      fold s0 in Hw. now rewrite Hw in Hc. }
    unfold find_bad_items. rewrite for_each_cons, E. reflexivity.
  - intros Hres. rewrite Hfall.
    destruct (find_bad_items_run w batch Hres asked)
      as (st' & E & A & P & S & F & G & D & Q).
    exists st'. split; [exact E|]. simpl in A, P, S, F.
    split; [rewrite A, <- app_assoc; reflexivity|].
    split; [exact P|]. split; [exact S|]. split; [exact F | exact Q].
  - intros item_id m rest s e' Hget He'.
    unfold find_bad_items. rewrite for_each_cons.
    unfold find_bad_item. run. unfold try_except, execute. run.
    rewrite Hget. run. rewrite He'. reflexivity.
Qed.

Lemma batch_failure_falls_back_witness :
  let w := quiet_world in
  let st := __init__ quiet_world "/data" empty_store ∅ in
  mediaItems_batchGet w (dict_keys batch_AB) = Raises HTTPError
  /\ http_or_retry HTTPError = true
  /\ Forall (resolvable w) batch_AB
  /\ exists st',
       download_batch w batch_AB st = Normal tt st'
       /\ api_calls st'
          = [BatchGetRequest ["A"; "B"]; GetRequest "A"; GetRequest "B"]
       /\ task_base_url <$> download_pool st' = ["https://lh3.example/A"]
       /\ (1 <= files_download_failed st')%nat
       /\ "B" ∈ dom (items (bad_ids st')).
Proof.
  intros w st.
  assert (H1 : mediaItems_batchGet w (dict_keys batch_AB) = Raises HTTPError)
    by reflexivity.
  assert (H2 : http_or_retry HTTPError = true) by reflexivity.
  assert (H3 : Forall (resolvable w) batch_AB).
  { repeat constructor. exists "https://lh3.example/A". reflexivity. }
  split; [exact H1|]. split; [exact H2|]. split; [exact H3|].
  destruct (batch_failure_falls_back w batch_AB HTTPError st H1 H2)
    as (_ & _ & _ & H & _).
  destruct (H H3) as (st' & E & A & P & _ & F & Q).
  exists st'. split; [exact E|]. split; [exact A|].
  split; [rewrite P; reflexivity|]. split; [exact F|].
  apply (Q ("B", photo "B" 60)); [|reflexivity].
  right. left.
Defined.

(** Claim C7 as stated fails: the fallback does not reach every item
    of the batch.  The bulk resolution fails with an [HTTPError] and
    the get of the first item with a [ConnectionError], which
    [find_bad_items] does not catch: the second item is not asked
    for, and the first, whose get failed, is neither in the ledger
    nor counted. *)
Lemma fallback_does_not_reach_every_item :
  ~ (forall (w : World) (batch : list (string * MediaItem))
            (e : exn_class) (st : State),
       mediaItems_batchGet w (dict_keys batch) = Raises e ->
       http_or_retry e = true ->
       let st' := state_of (download_batch w batch st) in
       api_calls st'
       = (api_calls st ++ BatchGetRequest (dict_keys batch)
            :: (GetRequest <$> dict_keys batch))%list
       /\ download_pool st'
          = (download_pool st
               ++ omap (resolve w (_media_folder st)) batch)%list
       /\ (files_download_failed st
           + length (List.filter (get_fails w) batch)
           <= files_download_failed st')%nat
       /\ (forall entry, entry ∈ batch -> get_fails w entry = true ->
             id entry.2 ∈ dom (items (bad_ids st')))).
Proof.
  intros claim.
  destruct (claim (failing_catalog HTTPError ConnectionError) batch_AB
              HTTPError (__init__ quiet_world "/data" empty_store ∅)
              eq_refl eq_refl) as (A & _).
  vm_compute in A. discriminate A.
Qed.

(** The same run: one get is sent, and the ledger and the count of
    failures are as they were. *)
Example fallback_stopped_by_connection_error :
  download_batch (failing_catalog HTTPError ConnectionError) batch_AB
    (__init__ quiet_world "/data" empty_store ∅)
  = Raised ConnectionError
      (set_api_calls [BatchGetRequest ["A"; "B"]; GetRequest "A"]
         (__init__ quiet_world "/data" empty_store ∅)).
Proof. vm_compute. reflexivity. Qed.

(** *** The scenarios of the design document, run *)

(** A library of three items, never scanned: three records are
    written and the watermark is the newest creation date. *)
Example first_scan_of_three_items :
  match index_photos_media quiet_world
          [Returns {| mediaItems := [photo "C" 3; photo "B" 2];
                      nextPageToken := Some "page2" |};
           Returns {| mediaItems := [photo "A" 1]; nextPageToken := None |}]
          (__init__ quiet_world "/data" empty_store ∅) with
  | Normal _ st' =>
      id <$> saved (_db st') = ["A"; "B"; "C"]
      /\ files_indexed st' = 3%nat
      /\ scan_date (_db st') = Some 3
      /\ api_calls st' = [ListRequest None PAGE_SIZE;
                          ListRequest (Some "page2") PAGE_SIZE]
  | _ => False
  end.
Proof. vm_compute. repeat split. Qed.

(** Forty-one candidates make two blocks of forty, the second one
    filled up. *)
Example grouper_pads_the_last_block :
  (fun block => (length block, length (omap (fun mi => mi) block)))
    <$> grouper (replicate 41 (photo "A" 1))
  = [(40, 40); (40, 1)]%nat.
Proof. vm_compute. reflexivity. Qed.

(** A transfer that meets no failure leaves the complete file at the
    final path and no temporary file. *)
Example download_without_failure :
  do_download_file (__init__ quiet_world "/data" empty_store ∅)
    {| temp_name := "tmpk3x9"; session_get := fun _ _ => None;
       copyfileobj := None; temp_file_close := None; response_close := None;
       os_rename := None; os_utime := None |}
    "https://lh3.example/A" (photo "A" 50) ∅
  = ({[ "/data/photos/2019/01/A.jpg" := Complete ]}, Returns tt).
Proof. vm_compute. reflexivity. Qed.

(** A download run over two records whose bulk resolution fails: both
    are asked for one by one; ["A"] resolves and is downloaded, ["B"]
    is rejected and ends in the ledger, with one failure counted. *)
Example run_with_one_bad_item :
  match download_photo_media quiet_world [photo "A" 50; photo "B" 60]
          (__init__ quiet_world "/data" empty_store ∅) with
  | Normal _ st' =>
      downloaded (_db st') = {[ "A" ]}
      /\ dom (items (bad_ids st')) = {[ "B" ]}
      /\ persisted (bad_ids st') = items (bad_ids st')
      /\ files_downloaded st' = 1%nat
      /\ files_download_failed st' = 1%nat
      /\ files_download_skipped st' = 0%nat
      /\ pool_future_to_media st' = []
      /\ api_calls st' = [BatchGetRequest ["A"; "B"];
                          GetRequest "A"; GetRequest "B"]
  | _ => False
  end.
Proof. vm_compute. repeat split. Qed.
End GooglePhotosSyncFacts.

(** ** Reconciliation *)
Module ReconcilerFacts.
Import GooglePhotosSync SyncSpec.

Section Reconciler.
Variable os_walk : string -> list (string * list string).
Variable relpath : string -> string -> string.

Lemma elem_of_removals (st : State) (listing : list (string * list string))
    (name : string) :
  name ∈ removals relpath st listing
  <-> exists dir_name file_names file_name,
        (dir_name, file_names) ∈ listing
        /\ file_name ∈ file_names
        /\ name = OsPath.join dir_name [file_name]
        /\ file_is_removed relpath st dir_name file_name = true.
Proof.
  unfold removals. rewrite list_elem_of_In, in_flat_map. split.
  - intros ([d fs] & Hin & Hname).
    apply list_elem_of_In, list_elem_of_fmap in Hname.
    destruct Hname as (f & -> & Hf).
    apply list_elem_of_In, filter_In in Hf. destruct Hf as [Hf Hr].
    exists d, fs, f. rewrite !list_elem_of_In. auto.
  - intros (d & fs & f & Hin & Hf & -> & Hr).
    exists (d, fs). split; [now apply list_elem_of_In|].
    apply list_elem_of_In, list_elem_of_fmap. exists f. split; [reflexivity|].
    apply list_elem_of_In, filter_In. split; [now apply list_elem_of_In|exact Hr].
Qed.

Lemma file_is_removed_true (st : State) (dir_name file_name : string) :
  file_is_removed relpath st dir_name file_name = true
  <-> String.prefix "." file_name = false
      /\ String.prefix "gphotos" file_name = false
      /\ get_file_by_path (relpath dir_name (_root_folder st)) file_name
                          (_db st) = None.
Proof.
  unfold file_is_removed.
  destruct (String.prefix "." file_name), (String.prefix "gphotos" file_name);
    cbn [orb]; try (split; [discriminate | intros (? & ? & ?); discriminate]).
  destruct (get_file_by_path _ _ _); split; try discriminate; auto.
  intros (_ & _ & ?). discriminate.
Qed.

(** The loop in closed form: the files removed are those that the
    store of [st] does not know, and the state is as it was. *)
Lemma check_directories_run (listing : list (string * list string)) :
  forall st : State,
    check_directories relpath st listing = (removals relpath st listing, st).
Proof.
  induction listing as [|[d fs] listing IH]; intro st; [reflexivity|].
  cbn [check_directories check_directory]. rewrite IH. reflexivity.
Qed.

(** Property X1.  [check_for_removed] removes exactly the files, in the
    directories that [os.walk] lists below the media folder, whose name
    starts neither with a dot nor with [gphotos] and for which the
    store has no record under (directory relative to the root, name);
    it removes no other file. *)
Theorem check_for_removed_exact (st : State) (name : string) :
  name ∈ (check_for_removed os_walk relpath st).1
  <-> exists dir_name file_names file_name,
        (dir_name, file_names)
          ∈ os_walk (OsPath.join (_root_folder st) [_media_folder st])
        /\ file_name ∈ file_names
        /\ name = OsPath.join dir_name [file_name]
        /\ String.prefix "." file_name = false
        /\ String.prefix "gphotos" file_name = false
        /\ get_file_by_path (relpath dir_name (_root_folder st)) file_name
                            (_db st) = None.
Proof.
  unfold check_for_removed. cbv zeta. rewrite check_directories_run.
  cbn [fst]. rewrite elem_of_removals.
  split; intros (d & fs & f & H1 & H2 & H3 & H4); exists d, fs, f;
    (split; [exact H1|]); (split; [exact H2|]); (split; [exact H3|]).
  - now apply file_is_removed_true.
  - now apply file_is_removed_true.
Qed.

Lemma filter_filter_negb {A : Type} (f : A -> bool) (l : list A) :
  List.filter f (List.filter (fun x => negb (f x)) l) = [].
Proof.
  induction l as [|x l IH]; simpl; [reflexivity|].
  destruct (f x) eqn:E; simpl; [exact IH|]. now rewrite E.
Qed.

Lemma removals_cons (st : State) (dir_name : string)
    (file_names : list string) (listing : list (string * list string)) :
  removals relpath st ((dir_name, file_names) :: listing)
  = (((fun file_name => OsPath.join dir_name [file_name])
      <$> List.filter (file_is_removed relpath st dir_name) file_names)
     ++ removals relpath st listing)%list.
Proof. reflexivity. Qed.

Lemma filter_nothing {A : Type} (f : A -> bool) (l : list A) :
  (forall x, x ∈ l -> f x = false) -> List.filter f l = [].
Proof.
  induction l as [|x l IH]; intros H; [reflexivity|].
  simpl. rewrite (H x) by left. apply IH. intros y Hy. apply H. now right.
Qed.

Lemma removals_without (st : State) (listing : list (string * list string)) :
  forall part : list (string * list string),
    (forall entry, entry ∈ part -> entry ∈ listing) ->
    removals relpath st
      (listing_without (removals relpath st listing) part) = [].
Proof.
  induction part as [|[d fs] part IH]; intros Hsub; [reflexivity|].
  unfold listing_without. rewrite fmap_cons. fold (listing_without
    (removals relpath st listing) part).
  rewrite removals_cons, IH by (intros entry H; apply Hsub; now right).
  rewrite app_nil_r, filter_nothing; [reflexivity|].
  intros f Hf. apply list_elem_of_In, filter_In in Hf.
  destruct Hf as [Hin Hkept].
  destruct (file_is_removed relpath st d f) eqn:Hr; [|reflexivity].
  exfalso. apply negb_true_iff, bool_decide_eq_false in Hkept.
  apply Hkept, elem_of_removals. exists d, fs, f.
  split; [apply Hsub; left|]. split; [now apply list_elem_of_In|]. auto.
Qed.

(** Property X2.  A second call finds nothing to remove: called again in the
    state in which the first call returned, when [os.walk] lists the
    same directories without the files that the first call passed to
    [os.remove], [check_for_removed] removes no file. *)
Theorem second_pass_removes_nothing (st : State) :
  let first := check_for_removed os_walk relpath st in
  let os_walk' := fun top => listing_without first.1 (os_walk top) in
  (check_for_removed os_walk' relpath first.2).1 = [].
Proof.
  intros first os_walk'. subst first os_walk'.
  unfold check_for_removed. cbv zeta. rewrite !check_directories_run.
  cbn [fst snd]. apply removals_without. auto.
Qed.

(** Property X3.  The hazard of a store that holds no record: every file listed
    whose name starts neither with a dot nor with [gphotos] is
    removed. *)
Theorem empty_store_removes_every_visible_file (st : State)
    (listing : list (string * list string)) :
  saved (_db st) = [] ->
  (check_directories relpath st listing).1
  = flat_map
      (fun '(dir_name, file_names) =>
         (fun file_name => OsPath.join dir_name [file_name])
         <$> List.filter
               (fun file_name => negb (String.prefix "." file_name)
                                 && negb (String.prefix "gphotos" file_name))
               file_names)
      listing.
Proof.
  intros Hdb. rewrite check_directories_run. cbn [fst].
  induction listing as [|[d fs] listing IH]; [reflexivity|].
  rewrite removals_cons, IH. cbn [flat_map]. f_equal. f_equal.
  apply filter_ext. intros f. unfold file_is_removed, get_file_by_path.
  rewrite Hdb. cbn [find].
  destruct (String.prefix "." f), (String.prefix "gphotos" f); reflexivity.
Qed.

End Reconciler.

Lemma empty_store_removes_every_visible_file_witness :
  let st := __init__ quiet_world "/data" empty_store ∅ in
  let relpath := fun d _ : string => d in
  let listing := [("/data/photos", [".cache"; "a.jpg"; "gphotos.sqlite"])] in
  saved (_db st) = []
  /\ (check_directories relpath st listing).1 = ["/data/photos/a.jpg"].
Proof.
  intros st rp listing.
  assert (H : saved (_db st) = []) by reflexivity.
  split; [exact H|].
  rewrite (empty_store_removes_every_visible_file rp st listing H).
  reflexivity.
Defined.


(** A store with one record, and a folder that holds its file, a
    stray file, a hidden file and the database. *)
Example reconcile_one_folder :
  let db := save_to_db (photo "A" 50) false empty_store in
  let st := __init__ quiet_world "/data" db ∅ in
  let os_walk := fun top : string =>
    [(String.append top "/2019/01",
      ["A.jpg"; "stray.jpg"; ".hidden"; "gphotos.lock"])] in
  let relpath := fun d _ : string => "photos/2019/01" in
  (check_for_removed os_walk relpath st).1
  = ["/data/photos/2019/01/stray.jpg"]
  /\ (check_for_removed os_walk relpath st).2 = st.
Proof. split; reflexivity. Qed.

End ReconcilerFacts.

(** ** More on the paths of [GoogleMedia] *)
Module GoogleMediaPathFacts.
Import GoogleMedia.

Lemma join_step_empty_l (b : string) : OsPath.join_step "" b = b.
Proof. unfold OsPath.join_step. destruct (OsPath.startswith_sep b); reflexivity. Qed.

(** Joining an empty component in the middle changes nothing. *)
Lemma join_empty_middle (a b : string) :
  OsPath.join a [""; b] = OsPath.join a [b].
Proof.
  unfold OsPath.join. simpl.
  rewrite OsPathFacts.join_step_assoc, join_step_empty_l. reflexivity.
Qed.

Lemma join_absolute_last (a : string) (p : list string) (b : string) :
  OsPath.startswith_sep b = true -> OsPath.join a (p ++ [b]) = b.
Proof.
  intros H. rewrite OsPathFacts.join_app. unfold OsPath.join at 1. simpl.
  unfold OsPath.join_step. now rewrite H.
Qed.

Section Edges.
Context {T : Type} `{MediaClass T}.

(** Property X5.  A relative path that starts with the separator is not
    relative at all: [local_folder] is that path, and the root path and
    the media folder are dropped. *)
Theorem absolute_relative_path_drops_root (self : T) :
  OsPath.startswith_sep (__relative_path (base self)) = true ->
  local_folder self = __relative_path (base self)
  /\ local_full_path self = remote_path self.
Proof.
  intros Habs. unfold local_full_path, remote_path.
  assert (E : local_folder self = __relative_path (base self)).
  { unfold local_folder.
    apply (join_absolute_last _ [media_folder (base self)]), Habs. }
  rewrite E. repeat split.
Qed.

(** Property X6.  With an empty media folder, as in the base class,
    [local_folder] is the join of the root path and the relative path:
    the empty component leaves no separator behind. *)
Theorem empty_media_folder_is_neutral (self : T) :
  media_folder (base self) = "" ->
  local_folder self
  = OsPath.join (__root_path (base self)) [__relative_path (base self)].
Proof. intros E. unfold local_folder. rewrite E. apply join_empty_middle. Qed.

(** Property X7.  The two paths that end in the file name fail exactly when
    the [filename] property fails, and with its exception; so on the
    base class, which does not implement [filename], both raise
    [NotImplementedError], while [local_folder] is defined. *)
Theorem paths_raise_what_filename_raises (self : T) (e : exn_class) :
  (local_full_path self = Raises e <-> filename self = Raises e)
  /\ (remote_path self = Raises e <-> filename self = Raises e)
  /\ forall m : GoogleMedia,
       local_full_path m = Raises NotImplementedError
       /\ remote_path m = Raises NotImplementedError.
Proof.
  unfold local_full_path, remote_path.
  split; [|split].
  - destruct (filename self) as [f|e']; simpl; split; congruence.
  - destruct (filename self) as [f|e']; simpl; split; congruence.
  - intros m. split; reflexivity.
Qed.

End Edges.

Lemma absolute_relative_path_drops_root_witness :
  let m := __init__ "/mnt/photos" "/data" in
  OsPath.startswith_sep (__relative_path (base m)) = true
  /\ local_folder m = "/mnt/photos".
Proof.
  intros m.
  assert (H : OsPath.startswith_sep (__relative_path (base m)) = true)
    by reflexivity.
  split; [exact H|].
  exact (proj1 (absolute_relative_path_drops_root m H)).
Defined.

Lemma empty_media_folder_is_neutral_witness :
  let m := __init__ "2019/01" "/data" in
  media_folder (base m) = ""
  /\ local_folder m = "/data/2019/01".
Proof.
  intros m.
  assert (H : media_folder (base m) = "") by reflexivity.
  split; [exact H|].
  rewrite (empty_media_folder_is_neutral m H). reflexivity.
Defined.

End GoogleMediaPathFacts.

(** ** The worker body *)
Module WorkerFacts.
Import GooglePhotosSync SyncSpec.

Section Worker.
Variables (st : State) (t : Transfer) (base_url : string) (m : MediaItem)
          (fs : gmap string Content).

Let folder := OsPath.join (_root_folder st) [relative_folder m].
Let temp := OsPath.join folder [temp_name t].
Let final := OsPath.join folder [filename m].
Let outcome := do_download_file st t base_url m fs.

Ltac distinct :=
  first [ assumption | apply not_eq_sym; assumption ].

(** Every way through [do_download_file]. *)
Ltac all_ways :=
  subst outcome; unfold do_download_file; fold folder; fold temp; fold final;
  destruct (is_video m); unfold try_block;
  (destruct (session_get t _ _) as [e1|];
   [|destruct (copyfileobj t) as [e2|];
     [|destruct (temp_file_close t) as [e3|];
       [|destruct (response_close t) as [e4|];
         [|destruct (os_rename t) as [e5|];
           [|destruct (os_utime t) as [e6|]]]]]]);
  repeat match goal with
    | |- context [isinstance ?x KeyboardInterrupt] =>
        let Hk := fresh "Hk" in
        destruct (isinstance x KeyboardInterrupt) eqn:Hk
    end;
  repeat first [ progress cbn [fst snd]
               | rewrite lookup_insert_eq | rewrite lookup_delete_eq
               | rewrite lookup_insert_ne by distinct
               | rewrite lookup_delete_ne by distinct ].

Lemma isinstance_KeyboardInterrupt (e : exn_class) :
  isinstance e KeyboardInterrupt = true -> e = KeyboardInterrupt.
Proof. destruct e; vm_compute; congruence. Qed.

(** Property X8.  The final path never holds a partial file: after
    [do_download_file], whichever way it ends, the final path holds
    what it held before or the complete file. *)
Theorem final_path_is_never_partial :
  temp <> final ->
  outcome.1 !! final = fs !! final \/ outcome.1 !! final = Some Complete.
Proof. intros Hne. all_ways; auto. Qed.

(** Property X9.  The temporary file is left behind only by an interrupted
    transfer: when [do_download_file] returns, or raises anything but
    [KeyboardInterrupt], the temporary file is gone. *)
Theorem temp_file_left_only_when_interrupted :
  temp <> final ->
  outcome.2 <> Raises KeyboardInterrupt ->
  outcome.1 !! temp = None.
Proof.
  intros Hne. all_ways; intros Hout; try reflexivity;
    try (exfalso; apply Hout; f_equal;
         match goal with
         | H : isinstance _ KeyboardInterrupt = true |- _ =>
             now apply isinstance_KeyboardInterrupt in H
         end).
Qed.

(** Property X10.  A failure of [os.utime] comes after the rename: the complete
    file is in place, and the clean-up, which finds no temporary file
    to remove, raises [FileNotFoundError] in the place of the error of
    [os.utime]. *)
Theorem utime_failure_is_masked (e : exn_class) :
  temp <> final ->
  session_get t (String.append base_url (if is_video m then "=dv" else "=d"))
              (if is_video m then _video_timeout st else _image_timeout st)
  = None ->
  copyfileobj t = None -> temp_file_close t = None ->
  response_close t = None -> os_rename t = None ->
  os_utime t = Some e -> e <> KeyboardInterrupt ->
  outcome.2 = Raises FileNotFoundError
  /\ outcome.1 !! final = Some Complete
  /\ outcome.1 !! temp = None.
Proof.
  intros Hne Hg Hc Ht Hr Hn Hu He.
  subst outcome. unfold do_download_file. fold folder. fold temp. fold final.
  assert (Hk : isinstance e KeyboardInterrupt = false).
  { destruct (isinstance e KeyboardInterrupt) eqn:E; [|reflexivity].
    apply isinstance_KeyboardInterrupt in E. contradiction. }
  destruct (is_video m); unfold try_block;
    rewrite Hg, Hc, Ht, Hr, Hn, Hu, Hk;
    rewrite lookup_insert_ne, lookup_delete_eq by distinct; cbn [fst snd];
    rewrite lookup_insert_eq, lookup_insert_ne, lookup_delete_eq by distinct;
    auto.
Qed.

End Worker.

Lemma temp_is_not_final (t : Transfer) :
  temp_name t = "tmpk3x9" ->
  OsPath.join (OsPath.join (_root_folder fresh_sync)
                           [relative_folder (photo "A" 50)]) [temp_name t]
  <> OsPath.join (OsPath.join (_root_folder fresh_sync)
                              [relative_folder (photo "A" 50)])
                 [filename (photo "A" 50)].
Proof. intros -> E. vm_compute in E. discriminate E. Qed.

Lemma final_path_is_never_partial_witness :
  let t := transfer_with (Some OSError) None in
  let out := do_download_file fresh_sync t "https://lh3.example/A"
                              (photo "A" 50) ∅ in
  "/data/photos/2019/01/tmpk3x9" <> "/data/photos/2019/01/A.jpg"
  /\ (out.1 !! "/data/photos/2019/01/A.jpg" = None
      \/ out.1 !! "/data/photos/2019/01/A.jpg" = Some Complete).
Proof.
  intros t out. split; [exact (temp_is_not_final t eq_refl)|].
  exact (final_path_is_never_partial fresh_sync t "https://lh3.example/A"
           (photo "A" 50) ∅ (temp_is_not_final t eq_refl)).
Defined.

Lemma temp_file_left_only_when_interrupted_witness :
  let t := transfer_with (Some OSError) None in
  let out := do_download_file fresh_sync t "https://lh3.example/A"
                              (photo "A" 50) ∅ in
  "/data/photos/2019/01/tmpk3x9" <> "/data/photos/2019/01/A.jpg"
  /\ out.2 <> Raises KeyboardInterrupt
  /\ out.1 !! "/data/photos/2019/01/tmpk3x9" = None.
Proof.
  intros t out.
  assert (H : out.2 <> Raises KeyboardInterrupt).
  { intros E. vm_compute in E. discriminate E. }
  split; [exact (temp_is_not_final t eq_refl)|]. split; [exact H|].
  exact (temp_file_left_only_when_interrupted fresh_sync t
           "https://lh3.example/A" (photo "A" 50) ∅
           (temp_is_not_final t eq_refl) H).
Defined.

Lemma utime_failure_is_masked_witness :
  let t := transfer_with None (Some OSError) in
  let out := do_download_file fresh_sync t "https://lh3.example/A"
                              (photo "A" 50) ∅ in
  "/data/photos/2019/01/tmpk3x9" <> "/data/photos/2019/01/A.jpg"
  /\ os_utime t = Some OSError
  /\ out.2 = Raises FileNotFoundError
  /\ out.1 !! "/data/photos/2019/01/A.jpg" = Some Complete
  /\ out.1 !! "/data/photos/2019/01/tmpk3x9" = None.
Proof.
  intros t out. split; [exact (temp_is_not_final t eq_refl)|].
  split; [reflexivity|].
  refine (utime_failure_is_masked fresh_sync t "https://lh3.example/A"
            (photo "A" 50) ∅ OSError (temp_is_not_final t eq_refl)
            eq_refl eq_refl eq_refl eq_refl eq_refl eq_refl _).
  discriminate.
Defined.

End WorkerFacts.

(** ** More on indexing *)
Module IndexerFacts.
Import GooglePhotosSync SyncSpec GooglePhotosSyncFacts.

Local Open Scope Z_scope.

(** *** One item *)

Lemma is_indexed_save (m x : MediaItem) (update : bool) (db : LocalData) :
  is_indexed (save_to_db m update db) x
  = if bool_decide (relative_folder m = relative_folder x)
       && bool_decide (filename m = filename x)
    then Some m else is_indexed db x.
Proof. reflexivity. Qed.

Lemma is_indexed_same_path (db : LocalData) (m x : MediaItem) :
  relative_folder m = relative_folder x -> filename m = filename x ->
  is_indexed db m = is_indexed db x.
Proof. unfold is_indexed. now intros -> ->. Qed.

Lemma covered_save (m : MediaItem) (update : bool) (db : LocalData) :
  match is_indexed db m with
  | Some r => modify_date r < modify_date m
  | None => True
  end ->
  covered (save_to_db m update db) m
  /\ extends_cover db (save_to_db m update db).
Proof.
  intros Hnew. split.
  - exists m. rewrite is_indexed_save, !bool_decide_eq_true_2 by reflexivity.
    split; [reflexivity | lia].
  - intros x (r & Hr & Hle). unfold covered. rewrite is_indexed_save.
    destruct (bool_decide (relative_folder m = relative_folder x)) eqn:E1;
      [|exists r; auto].
    destruct (bool_decide (filename m = filename x)) eqn:E2;
      [|exists r; auto].
    apply bool_decide_eq_true in E1, E2. cbn [andb].
    rewrite (is_indexed_same_path db m x E1 E2), Hr in Hnew.
    exists m. split; [reflexivity | lia].
Qed.

Lemma extends_cover_refl (db : LocalData) : extends_cover db db.
Proof. intros x H. exact H. Qed.

Lemma extends_cover_trans (db1 db2 db3 : LocalData) :
  extends_cover db1 db2 -> extends_cover db2 db3 -> extends_cover db1 db3.
Proof. intros H1 H2 x H. apply H2, H1, H. Qed.

Lemma extends_cover_saved (db db' : LocalData) :
  saved db' = saved db -> extends_cover db db'.
Proof.
  intros E x (r & Hr & Hle). exists r. split; [|exact Hle].
  unfold is_indexed, get_file_by_path in *. now rewrite E.
Qed.

(** What [index_item] does, case by case. *)
Lemma index_item_effect (w : World) (m : MediaItem) (st : State) :
  let m' := set_path_by_date w (_media_folder st) m in
  exists st',
    index_item w m st = Normal tt st'
    /\ _media_folder st' = _media_folder st
    /\ _startDate st' = _startDate st
    /\ match is_indexed (_db st) m' with
       | Some r =>
           if modify_date r <? modify_date m'
           then saved (_db st') = m' :: saved (_db st)
                /\ files_indexed st' = S (files_indexed st)
           else only_skipped st st'
       | None =>
           saved (_db st') = m' :: saved (_db st)
           /\ files_indexed st' = S (files_indexed st)
       end.
Proof.
  intros m'. unfold index_item. run. fold m'.
  destruct (is_indexed (_db st) m') as [r|].
  - destruct (modify_date r <? modify_date m'); run.
    + unfold write_media_index. run. cbn [_latest_download set_db].
      destruct (_ <? _); eexists; (split; [reflexivity|]);
        repeat split; cbn; lia.
    + eexists. split; [reflexivity|]. repeat split.
  - run. unfold write_media_index. run. cbn [_latest_download set_db].
    destruct (_ <? _); cbn [files_indexed set_latest_download set_db];
      destruct (bool_decide _); run; eexists; (split; [reflexivity|]);
      repeat split; cbn; lia.
Qed.

Lemma index_item_covers (w : World) (m : MediaItem) (st : State) :
  exists st',
    index_item w m st = Normal tt st'
    /\ _media_folder st' = _media_folder st
    /\ _startDate st' = _startDate st
    /\ extends_cover (_db st) (_db st')
    /\ covered (_db st') (set_path_by_date w (_media_folder st) m)
    /\ tallied st st'.
Proof.
  destruct (index_item_effect w m st) as (st' & E & F & S & H).
  cbv zeta in H. exists st'. split; [exact E|]. split; [exact F|].
  split; [exact S|].
  set (m' := set_path_by_date w (_media_folder st) m) in *.
  assert (Hw : match is_indexed (_db st) m' with
               | Some r => modify_date r < modify_date m'
               | None => True
               end ->
               saved (_db st') = m' :: saved (_db st) ->
               extends_cover (_db st) (_db st') /\ covered (_db st') m').
  { intros Hnew Hs.
    destruct (covered_save m' false (_db st) Hnew) as [C1 C2]. split.
    - eapply extends_cover_trans; [exact C2|].
      apply extends_cover_saved. exact Hs.
    - apply (extends_cover_saved (save_to_db m' false (_db st)));
        [exact Hs | exact C1]. }
  destruct (is_indexed (_db st) m') as [r|] eqn:Hr.
  - destruct (modify_date r <? modify_date m') eqn:Hlt.
    + destruct H as [Hs Hi]. apply Z.ltb_lt in Hlt.
      destruct (Hw Hlt Hs) as [C1 C2]. split; [exact C1|]. split; [exact C2|].
      exists [m']. split; [exact Hs|]. simpl. lia.
    + destruct H as (Hd & Hi & _). apply Z.ltb_ge in Hlt. rewrite Hd.
      split; [apply extends_cover_refl|]. split.
      * exists r. auto.
      * exists []. rewrite Hd. split; [reflexivity|]. simpl. lia.
  - destruct H as [Hs Hi]. destruct (Hw I Hs) as [C1 C2].
    split; [exact C1|]. split; [exact C2|].
    exists [m']. split; [exact Hs|]. simpl. lia.
Qed.

(** An item that the store covers is skipped. *)
Lemma index_item_skips (w : World) (m : MediaItem) (st : State) :
  covered (_db st) (set_path_by_date w (_media_folder st) m) ->
  exists st', index_item w m st = Normal tt st' /\ only_skipped st st'.
Proof.
  intros (r & Hr & Hle).
  destruct (index_item_effect w m st) as (st' & E & _ & _ & H).
  cbv zeta in H. rewrite Hr in H.
  assert (Hlt : (modify_date r
                 <? modify_date (set_path_by_date w (_media_folder st) m))
                = false) by (apply Z.ltb_ge; exact Hle).
  rewrite Hlt in H. eauto.
Qed.

Lemma only_skipped_refl (st : State) : only_skipped st st.
Proof. repeat split. Qed.

Lemma only_skipped_trans (st1 st2 st3 : State) :
  only_skipped st1 st2 -> only_skipped st2 st3 -> only_skipped st1 st3.
Proof.
  intros (A1 & A2 & A3 & A4 & A5) (B1 & B2 & B3 & B4 & B5).
  repeat split; congruence.
Qed.

Lemma tallied_refl (st : State) : tallied st st.
Proof. exists []. split; [reflexivity|]. simpl. lia. Qed.

Lemma tallied_trans (st1 st2 st3 : State) :
  tallied st1 st2 -> tallied st2 st3 -> tallied st1 st3.
Proof.
  intros (n1 & A1 & A2) (n2 & B1 & B2). exists (n2 ++ n1)%list.
  split; [rewrite B1, A1; now rewrite app_assoc|].
  rewrite length_app. lia.
Qed.

(** *** The items of a page *)

Lemma index_items_cover (w : World) (l : list MediaItem) (st : State) :
  exists st',
    for_each l (index_item w) st = Normal tt st'
    /\ _media_folder st' = _media_folder st
    /\ _startDate st' = _startDate st
    /\ extends_cover (_db st) (_db st')
    /\ Forall (fun m => covered (_db st')
                          (set_path_by_date w (_media_folder st) m)) l
    /\ tallied st st'.
Proof.
  revert st. induction l as [|m l IH]; intro st.
  - exists st. repeat split; try apply extends_cover_refl.
    + constructor.
    + apply tallied_refl.
  - rewrite for_each_cons.
    destruct (index_item_covers w m st) as (st1 & -> & F1 & S1 & C1 & V1 & T1).
    destruct (IH st1) as (st2 & E2 & F2 & S2 & C2 & V2 & T2).
    exists st2. split; [exact E2|]. split; [congruence|]. split; [congruence|].
    split; [eapply extends_cover_trans; eassumption|].
    split; [|eapply tallied_trans; eassumption].
    constructor; [apply C2, V1|]. now rewrite F1 in V2.
Qed.

Lemma index_items_skip (w : World) (l : list MediaItem) (st : State) :
  Forall (fun m => covered (_db st)
                     (set_path_by_date w (_media_folder st) m)) l ->
  exists st', for_each l (index_item w) st = Normal tt st'
              /\ only_skipped st st'.
Proof.
  revert st. induction l as [|m l IH]; intros st Hall.
  - exists st. split; [reflexivity | apply only_skipped_refl].
  - rewrite for_each_cons. inversion Hall as [|? ? Hm Hl]; subst.
    destruct (index_item_skips w m st Hm) as (st1 & -> & S1).
    destruct (IH st1) as (st2 & E2 & S2).
    { destruct S1 as (-> & _ & _ & -> & _). exact Hl. }
    exists st2. split; [exact E2|]. eapply only_skipped_trans; eassumption.
Qed.

(** *** The pages of a scan *)

Lemma index_pages_facts (w : World) (start_date : option Z)
    (catalog : list (pyresult PageJson)) :
  forall (items_json : PageJson) (st : State),
    scan_facts catalog st (index_pages w start_date catalog items_json st).
Proof.
  assert (Hstop : forall c st, scan_facts c st (Normal tt st)).
  { intros c st. repeat split; [apply extends_cover_refl | apply tallied_refl]. }
  induction catalog as [|answer rest IH]; intros items_json st;
    rewrite index_pages_eq;
    (destruct (json_empty items_json); [apply Hstop|]);
    (destruct (mediaItems items_json) as [|m l] eqn:El; [apply Hstop|]);
    run;
    destruct (index_items_cover w (m :: l) st)
      as (st1 & -> & F1 & S1 & C1 & _ & T1);
    cbv zeta;
    (destruct (truthy _);
     [|repeat split; simpl; assumption]).
  - rewrite search_media_run. cbv zeta. repeat split; simpl; assumption.
  - rewrite search_media_run. cbv zeta.
    destruct answer as [j|e].
    + match goal with |- context [index_pages _ _ _ _ ?s] =>
        destruct (IH j s) as (F2 & S2 & C2 & T2 & O2)
      end.
      simpl in F2, S2, C2, T2.
      repeat split; try congruence.
      * eapply extends_cover_trans; eassumption.
      * eapply tallied_trans; eassumption.
      * destruct (index_pages _ _ _ _ _); auto. now right.
    + repeat split; simpl; try assumption. left.
Qed.

Lemma index_pages_again (w : World) (catalog : list (pyresult PageJson)) :
  forall (start_date start_date' : option Z) (items_json : PageJson)
         (st st1 st2 : State),
    index_pages w start_date catalog items_json st = Normal tt st1 ->
    _media_folder st2 = _media_folder st ->
    extends_cover (_db st1) (_db st2) ->
    exists st3,
      index_pages w start_date' catalog items_json st2 = Normal tt st3
      /\ only_skipped st2 st3.
Proof.
  assert (Hstop : forall st2 : State,
             exists st3, Normal tt st2 = Normal tt st3 /\ only_skipped st2 st3).
  { intros st2. exists st2. split; [reflexivity | apply only_skipped_refl]. }
  induction catalog as [|answer rest IH];
    intros sd sd' items_json st st1 st2;
    rewrite !index_pages_eq;
    (destruct (json_empty items_json); [intros; apply Hstop|]);
    (destruct (mediaItems items_json) as [|m l] eqn:El; [intros; apply Hstop|]);
    run;
    destruct (index_items_cover w (m :: l) st)
      as (sta & -> & Fa & Sa & Ca & Ha & Ta);
    cbv zeta.
  - destruct (truthy _).
    + rewrite !search_media_run. cbv zeta. intros [= <-] Hf Hc.
      destruct (index_items_skip w (m :: l) st2) as (stb & -> & Hb).
      { rewrite Hf. eapply Forall_impl; [exact Ha|]. intros x Hx.
        apply Hc. exact Hx. }
      eexists. split; [reflexivity|]. exact Hb.
    + intros [= <-] Hf Hc.
      destruct (index_items_skip w (m :: l) st2) as (stb & -> & Hb).
      { rewrite Hf. eapply Forall_impl; [exact Ha|]. intros x Hx.
        apply Hc. exact Hx. }
      eexists. split; [reflexivity|]. exact Hb.
  - destruct (truthy _).
    + rewrite !search_media_run. cbv zeta.
      destruct answer as [j|e]; [|discriminate].
      cbv beta iota. intros Hrun Hf Hc.
      match type of Hrun with index_pages _ _ _ _ ?s = _ =>
        pose proof (index_pages_facts w sd rest j s) as Hfacts
      end.
      unfold scan_facts in Hfacts. rewrite Hrun in Hfacts.
      destruct Hfacts as (_ & _ & Cr & _). simpl in Cr.
      destruct (index_items_skip w (m :: l) st2) as (stb & -> & Hb).
      { rewrite Hf. eapply Forall_impl; [exact Ha|]. intros x Hx.
        apply Hc, Cr. exact Hx. }
      cbv beta iota zeta. rewrite ?search_media_run. cbv beta iota zeta.
      match goal with |- context [index_pages _ _ _ _ ?s] =>
        destruct (IH sd sd' j _ st1 s Hrun) as (st3 & E3 & H3)
      end.
      * simpl. destruct Hb as (_ & _ & _ & -> & _). rewrite Hf.
        symmetry. exact Fa.
      * simpl. destruct Hb as (-> & _). exact Hc.
      * exists st3. split; [exact E3|].
        eapply only_skipped_trans; [exact Hb|].
        destruct H3 as (? & ? & ? & ? & ?). repeat split; assumption.
    + intros [= <-] Hf Hc.
      destruct (index_items_skip w (m :: l) st2) as (stb & -> & Hb).
      { rewrite Hf. eapply Forall_impl; [exact Ha|]. intros x Hx.
        apply Hc. exact Hx. }
      eexists. split; [reflexivity|]. exact Hb.
Qed.

Lemma set_scan_date_same (d : Z) (db : LocalData) :
  scan_date db = Some d -> set_scan_date d db = db.
Proof. destruct db; simpl. now intros ->. Qed.

(** *** Whole scans *)

(** Property X12.  A scan that has returned has indexed all it was shown: run
    again from the state it left, against a catalog that gives the
    same answers, [index_photos_media] returns and has written
    nothing.  The store, the count of records indexed and the running
    maximum of the creation dates are what the first scan left. *)
Theorem second_scan_writes_nothing (w : World)
    (catalog : list (pyresult PageJson)) (st st1 : State) :
  index_photos_media w catalog st = Normal tt st1 ->
  exists st2,
    index_photos_media w catalog st1 = Normal tt st2
    /\ _db st2 = _db st1
    /\ files_indexed st2 = files_indexed st1
    /\ _latest_download st2 = _latest_download st1.
Proof.
  unfold index_photos_media. run. rewrite !search_media_run. cbv zeta.
  destruct (hd (Returns empty_json) catalog) as [j|e]; [|discriminate].
  cbv beta iota.
  match goal with |- context [index_pages w ?sd ?c ?j ?s] =>
    destruct (index_pages w sd c j s) as [[] sta|e sta|sta] eqn:Hrun;
      [|discriminate..]
  end.
  cbv beta iota. intros Hend.
  assert (Hst1 : _media_folder st1 = _media_folder sta
                 /\ extends_cover (_db sta) (_db st1)
                 /\ _startDate st1 = _startDate sta
                 /\ (_startDate sta = None ->
                     scan_date (_db st1) = Some (_latest_download st1))).
  { destruct (_startDate sta) as [d|] eqn:Hd; simpl in Hend;
      injection Hend as <-; simpl.
    - repeat split; [intros x Hx; exact Hx | exact Hd | discriminate].
    - repeat split; [intros x Hx; exact Hx | exact Hd]. }
  destruct Hst1 as (Hf & Hc & Hs & Hdate).
  match type of Hrun with index_pages _ ?sd ?c ?j ?s = _ =>
    match goal with |- context [index_pages w ?sd' c j ?s'] =>
      destruct (index_pages_again w c sd sd' j s sta s' Hrun)
        as (stb & -> & B1 & B2 & B3 & B4 & B5)
    end
  end.
  - simpl. pose proof (index_pages_facts w (effective_start_date st)
      (tl catalog) j (set_api_calls (api_calls st ++
         [search_request w None (effective_start_date st) (_endDate st)
                         (includeVideo st)]) st)) as Hfacts.
    unfold scan_facts in Hfacts. rewrite Hrun in Hfacts.
    destruct Hfacts as (F & _). simpl in F. congruence.
  - simpl. exact Hc.
  - simpl in B1, B2, B3, B4, B5. cbv beta iota.
    rewrite B5, Hs.
    destruct (_startDate sta) as [d|]; simpl.
    + eexists. split; [reflexivity|]. simpl. auto.
    + eexists. split; [reflexivity|]. simpl.
      rewrite B1, B3. rewrite set_scan_date_same by auto. auto.
Qed.

(** Property X14.  However a scan ends, the count [files_indexed] has grown by
    exactly the number of records that the scan wrote to the store,
    and the records that were there before are still there. *)
Theorem files_indexed_counts_the_records_written (w : World)
    (catalog : list (pyresult PageJson)) (st : State) :
  tallied st (state_of (index_photos_media w catalog st)).
Proof.
  unfold index_photos_media. run. rewrite search_media_run. cbv zeta.
  destruct (hd (Returns empty_json) catalog) as [j|e]; cbv beta iota;
    [|exists []; split; simpl; [reflexivity | lia]].
  match goal with |- context [index_pages w ?sd ?c ?j ?s] =>
    pose proof (index_pages_facts w sd c j s) as Hfacts;
    unfold scan_facts in Hfacts;
    destruct (index_pages w sd c j s) as [[] sta|e sta|sta]
  end; destruct Hfacts as (_ & _ & _ & T & _); unfold tallied in *;
    simpl in T; cbv beta iota; try exact T.
  destruct (negb _); exact T.
Qed.

(** Property X15.  A first page without items ends the scan at once, also when
    it carries a continuation token: the token is not followed, one
    search has been sent, and no record is written. *)
Theorem empty_first_page_ends_the_scan (w : World)
    (token : option string) (rest : list (pyresult PageJson)) (st : State) :
  let first_page := {| mediaItems := []; nextPageToken := token |} in
  exists st',
    index_photos_media w (Returns first_page :: rest) st = Normal tt st'
    /\ api_calls st'
       = (api_calls st
          ++ [search_request w None (effective_start_date st) (_endDate st)
                             (includeVideo st)])%list
    /\ saved (_db st') = saved (_db st)
    /\ files_indexed st' = files_indexed st.
Proof.
  intros first_page. unfold index_photos_media. run.
  rewrite search_media_run. cbv zeta. simpl hd. cbv beta iota.
  rewrite index_pages_eq. unfold first_page.
  destruct token as [t|]; simpl;
    (destruct (bool_decide _); eexists; (split; [reflexivity|]); simpl; auto).
Qed.

(** *** The requests of a scan *)

Lemma search_request_fits (w : World) (page_token : option string)
    (start_date : option Z) (st : State) :
  request_fits st start_date
    (search_request w page_token start_date (_endDate st) (includeVideo st)).
Proof.
  unfold search_request.
  destruct start_date as [d|], (_endDate st) as [d'|] eqn:He,
    (includeVideo st) eqn:Hv; simpl; rewrite ?He, ?Hv; simpl;
    repeat split; eauto.
Qed.

(** Property X16.  A scan sends list and search requests only, each for a page
    of [PAGE_SIZE].  It lists the whole library only when there is
    neither a start nor an end boundary and videos are included;
    otherwise it searches, and then for photos only unless videos are
    included.  This holds of every page, however the scan ends. *)
Theorem scan_requests_fit_the_settings (w : World)
    (catalog : list (pyresult PageJson)) (st : State) :
  exists calls,
    api_calls (state_of (index_photos_media w catalog st))
    = (api_calls st ++ calls)%list
    /\ calls <> []
    /\ Forall (request_fits st (effective_start_date st)) calls.
Proof.
  destruct (index_photos_media_run w catalog st)
    as (new & calls & A & S & N & _).
  exists calls. split; [exact A|]. split; [exact N|].
  eapply Forall_impl; [exact S|].
  intros r (page_token & ->). apply search_request_fits.
Qed.

Lemma second_scan_writes_nothing_witness :
  let w := SyncSpec.quiet_world in
  let st := SyncSpec.fresh_sync in
  let st1 := GooglePhotosSync.state_of
    (GooglePhotosSync.index_photos_media w SyncSpec.new_upload st) in
  GooglePhotosSync.saved (GooglePhotosSync._db st1) <> []
  /\ exists st2,
    GooglePhotosSync.index_photos_media w SyncSpec.new_upload st1
    = GooglePhotosSync.Normal tt st2
    /\ GooglePhotosSync._db st2 = GooglePhotosSync._db st1
    /\ GooglePhotosSync.files_indexed st2 = GooglePhotosSync.files_indexed st1
    /\ GooglePhotosSync._latest_download st2
       = GooglePhotosSync._latest_download st1.
Proof.
  intros w st st1. split; [vm_compute; discriminate|].
  apply (second_scan_writes_nothing w SyncSpec.new_upload st st1).
  vm_compute. reflexivity.
Defined.

End IndexerFacts.

(** ** Further properties of the download run *)
Module DownloadFacts.
Import GooglePhotosSync SyncSpec GooglePhotosSyncFacts.

(** *** Blocks of candidates *)

Lemma omap_padded_block (block : list MediaItem) (n : nat) :
  omap (fun mi => mi) (map Some block ++ replicate n None)%list = block.
Proof.
  rewrite omap_app.
  assert (H1 : omap (fun mi => mi) (map Some block) = block).
  { induction block as [|x b IH]; [reflexivity|].
    change (map Some (x :: b)) with (Some x :: map Some b).
    rewrite (omap_cons_Some _ _ x) by reflexivity. now rewrite IH. }
  assert (H2 : omap (fun mi : option MediaItem => mi) (replicate n None) = []).
  { induction n as [|n IH]; [reflexivity|].
    change (replicate (S n) (@None MediaItem))
      with (@None MediaItem :: replicate n None).
    rewrite omap_cons_None by reflexivity. exact IH. }
  rewrite H1, H2. apply app_nil_r.
Qed.

Lemma grouper_loop_blocks (rounds : nat) :
  forall l : list MediaItem,
    Forall (fun block => length block = BATCH_SIZE) (grouper_loop rounds l).
Proof.
  induction rounds as [|n IH]; intro l; simpl; [constructor|].
  destruct l as [|x l]; [constructor|].
  constructor; [|apply IH].
  rewrite length_app, length_map, length_replicate.
  assert (length (take BATCH_SIZE (x :: l)) <= BATCH_SIZE)%nat
    by (rewrite length_take; lia).
  lia.
Qed.

Lemma grouper_loop_concat (rounds : nat) :
  forall l : list MediaItem,
    (length l <= rounds)%nat ->
    concat ((fun block : list (option MediaItem) =>
              omap (fun mi => mi) block) <$> grouper_loop rounds l) = l.
Proof.
  induction rounds as [|n IH]; intros l Hl.
  - destruct l; [reflexivity | simpl in Hl; lia].
  - destruct l as [|x l]; [reflexivity|].
    change (grouper_loop (S n) (x :: l))
      with ((map Some (take BATCH_SIZE (x :: l))
             ++ replicate (BATCH_SIZE - length (take BATCH_SIZE (x :: l))) None)%list
            :: grouper_loop n (drop BATCH_SIZE (x :: l))).
    rewrite fmap_cons, concat_cons, omap_padded_block, IH.
    + apply take_drop.
    + rewrite length_drop. simpl in Hl |- *. unfold BATCH_SIZE. lia.
Qed.

(** Property X17.  [grouper] cuts the candidates into blocks of exactly
    [BATCH_SIZE] entries each, the last one filled up with [None];
    the records of the blocks, taken in order with the fill values
    dropped, are the candidates: none is lost, repeated or moved. *)
Theorem grouper_partitions_the_candidates (candidates : list MediaItem) :
  Forall (fun block => length block = BATCH_SIZE) (grouper candidates)
  /\ concat ((fun block : list (option MediaItem) =>
                omap (fun mi => mi) block) <$> grouper candidates)
     = candidates.
Proof.
  split; [apply grouper_loop_blocks|].
  apply grouper_loop_concat. reflexivity.
Qed.

(** *** Errors that are not caught *)

Lemma for_each_app {A : Type} (l1 l2 : list A) (body : A -> M unit)
    (st st1 : State) :
  for_each l1 body st = Normal tt st1 ->
  for_each (l1 ++ l2) body st = for_each l2 body st1.
Proof.
  revert st. induction l1 as [|x l1 IH]; intro st.
  - intros [= ->]. reflexivity.
  - change ((x :: l1) ++ l2)%list with (x :: (l1 ++ l2))%list.
    rewrite !for_each_cons.
    destruct (body x st) as [[] st'|e st'|st']; try discriminate.
    apply IH.
Qed.

Lemma isinstance_KeyboardInterrupt_eq (e : exn_class) :
  isinstance e KeyboardInterrupt = true <-> e = KeyboardInterrupt.
Proof. destruct e; vm_compute; split; congruence. Qed.

(** Property X18.  When the bulk URL resolution of a batch raises an
    exception that is neither an HTTP or retry error nor a
    [KeyboardInterrupt], [download_batch] ends with that exception:
    neither [except] clause takes it, so that there is no fallback to
    single requests, nothing is added to the Quarantine Ledger, no
    failure is counted and no task is submitted. *)
Theorem other_bulk_errors_propagate (w : World)
    (batch : list (string * MediaItem)) (e : exn_class) (st : State) :
  mediaItems_batchGet w (dict_keys batch) = Raises e ->
  http_or_retry e = false ->
  e <> KeyboardInterrupt ->
  download_batch w batch st
  = Raised e
      (set_api_calls (api_calls st ++ [BatchGetRequest (dict_keys batch)]) st).
Proof.
  intros Hbulk He Hk.
  assert (Hi : isinstance e KeyboardInterrupt = false).
  { destruct (isinstance e KeyboardInterrupt) eqn:E; [|reflexivity].
    apply isinstance_KeyboardInterrupt_eq in E. contradiction. }
  unfold download_batch, try_except, execute. run. rewrite Hbulk. run.
  rewrite Hi, He. reflexivity.
Qed.

(** Property X19.  In the fallback, a get-by-id that raises anything but an HTTP
    or retry error ends [find_bad_items] with that exception: the
    item is not added to the Quarantine Ledger, no failure is counted
    for it, and the entries after it are not asked for. *)
Theorem other_get_errors_stop_the_fallback (w : World)
    (before after : list (string * MediaItem)) (item_id : string)
    (m : MediaItem) (e : exn_class) (st st1 : State) :
  find_bad_items w before st = Normal tt st1 ->
  mediaItems_get w item_id = Raises e ->
  http_or_retry e = false ->
  find_bad_items w (before ++ (item_id, m) :: after) st
  = Raised e (set_api_calls (api_calls st1 ++ [GetRequest item_id]) st1).
Proof.
  intros Hbefore Hget He. unfold find_bad_items in *.
  rewrite (for_each_app _ _ _ _ _ Hbefore), for_each_cons.
  unfold find_bad_item. run. unfold try_except, execute. run.
  rewrite Hget. run. rewrite He. reflexivity.
Qed.

(** *** The answer of the bulk resolution *)

Lemma download_results_run (w : World) (batch : list (string * MediaItem))
    (results : list (option MediaJson)) :
  Forall (dispatchable batch) results ->
  forall st,
  exists st',
    for_each results (download_result w batch) st = Normal tt st'
    /\ api_calls st' = api_calls st
    /\ _media_folder st' = _media_folder st
    /\ download_pool st'
       = (download_pool st
          ++ omap (task_of_result w (_media_folder st) batch) results)%list
    /\ files_download_started st'
       = (files_download_started st
          + length (omap (task_of_result w (_media_folder st) batch)
                         results))%nat.
Proof.
  induction 1 as [|result results Hr _ IH]; intro st.
  - exists st. simpl. rewrite app_nil_r.
    repeat split; try reflexivity; lia.
  - rewrite for_each_cons. destruct result as [json|].
    + destruct Hr as [[m Hm] [base_url Hb]].
      unfold download_result at 1. rewrite Hm. run.
      destruct (download_file_run w
                  (set_path_by_date w (_media_folder st) m) json base_url st
                  Hb) as (st1 & Hw & ->).
      pose proof (wait_collecting w (polls_needed w st) st) as Hc.
      rewrite Hw in Hc.
      destruct Hc as (C1 & C2 & C3 & C4 & C5 & _).
      simpl in C1, C2, C3, C4, C5.
      match goal with |- context [for_each _ _ ?s] =>
        destruct (IH s) as (st' & E & A & G & P & S)
      end.
      simpl in A, G, P, S.
      exists st'. split; [exact E|].
      rewrite (omap_cons_Some _ _
                 {| task_base_url := base_url;
                    task_media := set_path_by_date w (_media_folder st) m |})
        by (unfold task_of_result; simpl; rewrite Hm; simpl; rewrite Hb;
            reflexivity).
      simpl length.
      split; [congruence|]. split; [congruence|].
      split; [rewrite P, C1, C5, <- app_assoc; reflexivity|].
      rewrite S, C3, C5. lia.
    + unfold download_result at 1. run.
      destruct (IH st) as (st' & E & A & G & P & S).
      exists st'. split; [exact E|].
      rewrite omap_cons_None by reflexivity. auto.
Qed.

(** Property X20.  When the bulk URL resolution answers, and every result is
    null or names a record of the batch and carries a base URL,
    [download_batch] returns having sent that one request, and has
    submitted one task per result that is not null, in the order of
    the answer, each for the record of the batch with that identifier,
    its path set by date, and the base URL of the result. *)
Theorem bulk_answer_is_submitted_in_order (w : World)
    (batch : list (string * MediaItem)) (r_json : BatchJson) (st : State) :
  mediaItems_batchGet w (dict_keys batch) = Returns r_json ->
  Forall (dispatchable batch) (mediaItemResults r_json) ->
  let tasks := omap (task_of_result w (_media_folder st) batch)
                    (mediaItemResults r_json) in
  exists st',
    download_batch w batch st = Normal tt st'
    /\ api_calls st'
       = (api_calls st ++ [BatchGetRequest (dict_keys batch)])%list
    /\ download_pool st' = (download_pool st ++ tasks)%list
    /\ files_download_started st'
       = (files_download_started st + length tasks)%nat.
Proof.
  intros Hbulk Hres tasks.
  unfold download_batch, try_except, execute. run. rewrite Hbulk. run.
  match goal with |- context [for_each _ _ ?s] =>
    destruct (download_results_run w batch _ Hres s) as (st' & -> & A & _ & P & S)
  end.
  exists st'. split; [reflexivity|]. simpl in A, P, S. auto.
Qed.

(** Property X21.  A result of the bulk resolution that names an identifier
    which is not in the batch ends [download_batch] with an
    [AttributeError]: the results before it have been submitted, those
    after it are dropped, and there is no fallback to single
    requests. *)
Theorem unknown_result_aborts_the_batch (w : World)
    (batch : list (string * MediaItem)) (r_json : BatchJson)
    (before after : list (option MediaJson)) (json : MediaJson)
    (st : State) :
  mediaItems_batchGet w (dict_keys batch) = Returns r_json ->
  mediaItemResults r_json = (before ++ Some json :: after)%list ->
  Forall (dispatchable batch) before ->
  dict_get (json_id json) batch = None ->
  exists st',
    download_batch w batch st = Raised AttributeError st'
    /\ api_calls st'
       = (api_calls st ++ [BatchGetRequest (dict_keys batch)])%list
    /\ download_pool st'
       = (download_pool st
          ++ omap (task_of_result w (_media_folder st) batch) before)%list.
Proof.
  intros Hbulk Hsplit Hres Hid.
  unfold download_batch, try_except, execute. run. rewrite Hbulk. run.
  rewrite Hsplit.
  match goal with |- context [for_each _ _ ?s] =>
    destruct (download_results_run w batch _ Hres s) as (st' & E & A & _ & P & _)
  end.
  rewrite (for_each_app _ _ _ _ _ E), for_each_cons.
  unfold download_result at 1. rewrite Hid. run.
  exists st'. split; [reflexivity|]. simpl in A, P. auto.
Qed.

(** *** A run ends, with every future collected *)

Lemma halts_ret {A : Type} (a : A) : halts (ret a).
Proof. intros st. exact I. Qed.

Lemma halts_raise {A : Type} (e : exn_class) : halts (@raise A e).
Proof. intros st. exact I. Qed.

Lemma halts_gets {A : Type} (f : State -> A) : halts (gets f).
Proof. intros st. exact I. Qed.

Lemma halts_modify (f : State -> State) : halts (modify f).
Proof. intros st. exact I. Qed.

Lemma halts_bind {A B : Type} (m : M A) (k : A -> M B) :
  halts m -> (forall a, halts (k a)) -> halts (bind m k).
Proof.
  intros Hm Hk st. unfold bind. specialize (Hm st).
  destruct (m st) as [a st'|e st'|st']; [apply Hk | exact I | exact Hm].
Qed.

Lemma halts_for_each {A : Type} (l : list A) (body : A -> M unit) :
  (forall x, x ∈ l -> halts (body x)) -> halts (for_each l body).
Proof.
  induction l as [|x l IH]; intros Hb; [apply halts_ret|].
  simpl. apply halts_bind; [apply Hb; left|].
  intros _. apply IH. intros y Hy. apply Hb. now right.
Qed.

Lemma halts_try_except {A : Type} (body : M A)
    (handler : exn_class -> option (M A)) :
  halts body ->
  (forall e h, handler e = Some h -> halts h) ->
  halts (try_except body handler).
Proof.
  intros Hb Hh st. unfold try_except. specialize (Hb st).
  destruct (body st) as [a st'|e st'|st']; [exact I | | exact Hb].
  destruct (handler e) as [h|] eqn:E; [eapply Hh, E | exact I].
Qed.

Lemma halts_try_finally {A : Type} (body : M A) (cleanup : M unit) :
  halts body -> halts cleanup -> halts (try_finally body cleanup).
Proof.
  intros Hb Hc st. unfold try_finally. specialize (Hb st).
  destruct (body st) as [a st'|e st'|st']; [| |exact Hb];
    specialize (Hc st'); destruct (cleanup st'); auto.
Qed.

Ltac halt :=
  repeat lazymatch goal with
    | |- halts (ret _) => apply halts_ret
    | |- halts (raise _) => apply halts_raise
    | |- halts (gets _) => apply halts_gets
    | |- halts (modify _) => apply halts_modify
    | |- halts (bind _ _) => apply halts_bind; [|intros ?]
    | |- halts (if ?c then _ else _) => destruct c
    | |- halts (match ?x with _ => _ end) => destruct x
    end.

Lemma complete_one_halts (w : World) (future : nat) :
  halts (complete_one w future).
Proof. unfold complete_one. halt. Qed.

Lemma do_download_complete_halts (w : World) (futures_list : list nat) :
  halts (do_download_complete w futures_list).
Proof.
  apply halts_for_each. intros f _. apply complete_one_halts.
Qed.

Lemma download_file_halts (w : World) (media_item : MediaItem)
    (media_json : MediaJson) :
  halts (download_file w media_item media_json).
Proof.
  intros st. destruct (baseUrl media_json) as [base_url|] eqn:Hb.
  - destruct (download_file_run w media_item media_json base_url st Hb)
      as (st1 & _ & ->). exact I.
  - rewrite download_file_without_url by exact Hb. exact I.
Qed.

Lemma execute_halts {A : Type} (request : Request) (answer : pyresult A) :
  halts (execute request answer).
Proof. unfold execute. halt. Qed.

Lemma find_bad_item_halts (w : World) (entry : string * MediaItem) :
  halts (find_bad_item w entry).
Proof.
  destruct entry as [item_id m]. unfold find_bad_item.
  apply halts_bind; [apply halts_gets|]. intros folder.
  apply halts_try_except.
  - apply halts_bind; [apply execute_halts|].
    intros json. apply download_file_halts.
  - intros e h. destruct (http_or_retry e); [|discriminate].
    intros [= <-]. unfold quarantine. halt.
Qed.

(** Statements that do not end with a [KeyboardInterrupt]. *)
Lemma quiet_ret {A : Type} (a : A) : quiet (ret a).
Proof. intros st st' H. discriminate H. Qed.

Lemma quiet_gets {A : Type} (f : State -> A) : quiet (gets f).
Proof. intros st st' H. discriminate H. Qed.

Lemma quiet_modify (f : State -> State) : quiet (modify f).
Proof. intros st st' H. discriminate H. Qed.

Lemma quiet_raise {A : Type} (e : exn_class) :
  e <> KeyboardInterrupt -> quiet (@raise A e).
Proof. intros N st st' H. injection H as -> _. now apply N. Qed.

Lemma quiet_bind {A B : Type} (m : M A) (k : A -> M B) :
  quiet m -> (forall a, quiet (k a)) -> quiet (bind m k).
Proof.
  intros Hm Hk st st'. unfold bind.
  destruct (m st) as [a s|e s|s] eqn:E; [apply Hk | | discriminate].
  intros H. injection H as -> ->. eapply Hm, E.
Qed.

Lemma quiet_for_each {A : Type} (l : list A) (body : A -> M unit) :
  (forall x, quiet (body x)) -> quiet (for_each l body).
Proof.
  intros Hb. induction l as [|x l IH]; [apply quiet_ret|].
  simpl. apply quiet_bind; [apply Hb | intros _; exact IH].
Qed.

(** Collecting a future never raises [KeyboardInterrupt]: the one
    [raise] that could is behind a test that no exception object
    passes. *)
Lemma complete_one_quiet (w : World) (future : nat) :
  quiet (complete_one w future).
Proof.
  unfold complete_one.
  apply quiet_bind; [apply quiet_gets|]. intros media_item.
  apply quiet_bind.
  - destruct (future_exception w future) as [e|].
    + apply quiet_bind; [apply quiet_modify|]. intros _.
      destruct media_item as [m|]; [|apply quiet_raise; discriminate].
      apply quiet_bind.
      * destruct (isinstance e HTTPError);
          [apply quiet_modify | apply quiet_ret].
      * intros _. rewrite instance_is_not_class. apply quiet_ret.
    + destruct media_item as [m|]; [|apply quiet_raise; discriminate].
      apply quiet_bind; [apply quiet_modify|]. intros _. apply quiet_modify.
  - intros _. apply quiet_bind; [apply quiet_gets|]. intros d.
    destruct (dict_get future d);
      [apply quiet_modify | apply quiet_raise; discriminate].
Qed.

Lemma do_download_complete_quiet (w : World) (futures_list : list nat) :
  quiet (do_download_complete w futures_list).
Proof. apply quiet_for_each. intros f. apply complete_one_quiet. Qed.

Lemma wait_quiet (w : World) (polls : nat) :
  quiet (wait_for_free_thread w polls).
Proof.
  induction polls as [|p IH]; intros st st';
    rewrite wait_for_free_thread_eq; case_bool_decide; try discriminate.
  cbv zeta.
  apply (quiet_bind (modify (fun st => set_clock (S (clock st)) st))).
  - apply quiet_modify.
  - intros _. apply quiet_bind; [apply do_download_complete_quiet|].
    intros _. exact IH.
Qed.

Lemma download_file_quiet (w : World) (media_item : MediaItem)
    (media_json : MediaJson) :
  quiet (download_file w media_item media_json).
Proof.
  unfold download_file. destruct (baseUrl media_json) as [base_url|];
    [|apply quiet_raise; discriminate].
  apply quiet_bind; [apply quiet_gets|]. intros polls.
  apply quiet_bind; [apply wait_quiet|]. intros _.
  apply quiet_bind; [apply quiet_modify|]. intros _.
  unfold submit. apply quiet_modify.
Qed.

Lemma execute_quiet {A : Type} (request : Request) (answer : pyresult A) :
  answer <> Raises KeyboardInterrupt -> quiet (execute request answer).
Proof.
  intros N. unfold execute. apply quiet_bind; [apply quiet_modify|].
  intros _. destruct answer as [a|e]; [apply quiet_ret|].
  apply quiet_raise. intros ->. now apply N.
Qed.

(** When no bulk resolution is interrupted, the [try] block of
    [download_batch] does not end with a [KeyboardInterrupt], so that
    the first [except] clause, which cancels the futures, is not
    entered. *)
Lemma download_batch_uninterrupted (w : World)
    (batch : list (string * MediaItem)) (st : State) :
  never_interrupted w ->
  download_batch w batch st
  = try_except
      (r_json <- execute (BatchGetRequest (dict_keys batch))
                         (mediaItems_batchGet w (dict_keys batch)) ;;
       for_each (mediaItemResults r_json) (download_result w batch))
      (fun e => if http_or_retry e then Some (find_bad_items w batch)
                else None)
      st.
Proof.
  intros Hw. unfold download_batch, try_except.
  match goal with |- context [bind ?m ?k st] =>
    assert (Hq : quiet (bind m k));
      [|destruct (bind m k st) as [a s|e s|s] eqn:E; try reflexivity]
  end.
  - apply quiet_bind; [apply execute_quiet, Hw|]. intros r_json.
    apply quiet_for_each. intros result. unfold download_result.
    destruct result as [json|]; [|apply quiet_ret].
    destruct (dict_get _ _); [|apply quiet_raise; discriminate].
    apply quiet_bind; [apply quiet_gets|]. intros folder.
    apply download_file_quiet.
  - destruct (isinstance e KeyboardInterrupt) eqn:Hi; [|reflexivity].
    apply isinstance_KeyboardInterrupt_eq in Hi. subst e.
    exfalso. eapply Hq, E.
Qed.

Lemma download_batch_halts (w : World) (batch : list (string * MediaItem)) :
  never_interrupted w -> halts (download_batch w batch).
Proof.
  intros Hw st. rewrite download_batch_uninterrupted by exact Hw.
  apply halts_try_except.
  - apply halts_bind; [apply execute_halts|]. intros r_json.
    apply halts_for_each. intros result _. unfold download_result.
    destruct result as [json|]; [|apply halts_ret].
    destruct (dict_get _ _); [|apply halts_raise].
    apply halts_bind; [apply halts_gets|]. intros folder.
    apply download_file_halts.
  - intros e h. destruct (http_or_retry e); [|discriminate].
    intros [= <-]. apply halts_for_each. intros entry _.
    apply find_bad_item_halts.
Qed.

Lemma download_block_halts (w : World) (block : list (option MediaItem)) :
  never_interrupted w -> halts (download_block w block).
Proof.
  intros Hw st. unfold download_block, bind.
  destruct (collect_batch_run w (omap (fun mi => mi) block) [] st)
    as (batch & st1 & -> & _).
  case_bool_decide; [apply download_batch_halts, Hw | exact I].
Qed.

Lemma filter_all {A : Type} (l : list A) :
  List.filter (fun _ => true) l = l.
Proof. induction l as [|x l IH]; simpl; congruence. Qed.

Lemma filter_none {A : Type} (l : list A) :
  List.filter (fun _ => false) l = [].
Proof. induction l as [|x l IH]; simpl; congruence. Qed.

(** The [finally] block of a run returns, from every state, with the
    dictionary of futures empty and the ledger stored. *)
Lemma finally_block_run (w : World) (st : State) :
  exists st',
    (futures_left <- gets (fun st => dict_keys (pool_future_to_media st)) ;;
     do_download_complete w futures_left ;;;
     modify (fun st => set_bad_ids (store_ids (bad_ids st)) st)) st
    = Normal tt st'
    /\ pool_future_to_media st' = []
    /\ persisted (bad_ids st') = items (bad_ids st').
Proof.
  destruct (collect_filtered w (fun _ => true) (pool_future_to_media st) []
              st eq_refl) as (st1 & E & Hp).
  { intros k Hk. inversion Hk. }
  rewrite filter_all in E. simpl in Hp. rewrite filter_none in Hp.
  run. rewrite E. eexists. split; [reflexivity|]. simpl. auto.
Qed.

(** Property X22.  A download run in which no bulk resolution is interrupted
    from the keyboard, so that no future is cancelled, ends, given
    that every worker finishes: it never waits for a free thread for
    ever.  And whether it returns or raises, by then every future has
    been collected, so that the dictionary of futures is empty, and
    the Quarantine Ledger has been stored as it stands. *)
Theorem download_run_ends_with_every_future_collected (w : World)
    (candidates : list MediaItem) (st : State) :
  never_interrupted w ->
  let r := download_photo_media w candidates st in
  not_spinning r
  /\ pool_future_to_media (state_of r) = []
  /\ persisted (bad_ids (state_of r)) = items (bad_ids (state_of r)).
Proof.
  intros Hw r. subst r. unfold download_photo_media, try_finally.
  pose proof (halts_for_each (grouper candidates) (download_block w)
                (fun block _ => download_block_halts w block Hw) st) as Hb.
  destruct (for_each (grouper candidates) (download_block w) st)
    as [[] st1|e st1|st1]; [| |destruct Hb];
    destruct (finally_block_run w st1) as (st2 & -> & Hp & Hl);
    repeat split; assumption.
Qed.

(** *** Candidates that are on the disk *)

Lemma collect_batch_on_disk (w : World) (items : list MediaItem) :
  forall (batch : list (string * MediaItem)) (st : State),
    (forall m, m ∈ items -> os_path_exists w (local_full_path st m) = true) ->
    exists st',
      collect_batch w items batch st = Normal batch st'
      /\ api_calls st' = api_calls st
      /\ download_pool st' = download_pool st
      /\ pool_future_to_media st' = pool_future_to_media st
      /\ _root_folder st' = _root_folder st
      /\ bad_ids st' = bad_ids st
      /\ files_download_skipped st'
         = (files_download_skipped st + length items)%nat
      /\ downloaded (_db st) ⊆ downloaded (_db st')
      /\ (forall m, m ∈ items -> id m ∈ downloaded (_db st')).
Proof.
  induction items as [|c items IH]; intros batch st Hdisk.
  - exists st. simpl. repeat split; try reflexivity; try lia.
    intros m Hm. inversion Hm.
  - simpl. unfold bind at 1. unfold check_candidate. run.
    fold (local_full_path st c). rewrite (Hdisk c) by left. run.
    match goal with |- context [collect_batch _ _ _ ?s] =>
      destruct (IH batch s) as (st' & E & A & P & F & R & B & S & D & Q)
    end.
    { intros m Hm. unfold local_full_path. simpl.
      apply Hdisk. now right. }
    simpl in A, P, F, R, B, S, D.
    exists st'. split; [exact E|]. simpl length.
    split; [exact A|]. split; [exact P|]. split; [exact F|].
    split; [exact R|]. split; [exact B|]. split; [lia|].
    split; [set_solver|].
    intros m Hm. apply elem_of_cons in Hm. destruct Hm as [->|Hm].
    + apply D. set_solver.
    + apply Q, Hm.
Qed.

Lemma blocks_on_disk (w : World) (blocks : list (list (option MediaItem))) :
  forall st : State,
    (forall block m, block ∈ blocks -> Some m ∈ block ->
       os_path_exists w (local_full_path st m) = true) ->
    let items := concat ((fun block : list (option MediaItem) =>
                            omap (fun mi => mi) block) <$> blocks) in
    exists st',
      for_each blocks (download_block w) st = Normal tt st'
      /\ api_calls st' = api_calls st
      /\ download_pool st' = download_pool st
      /\ pool_future_to_media st' = pool_future_to_media st
      /\ bad_ids st' = bad_ids st
      /\ files_download_skipped st'
         = (files_download_skipped st + length items)%nat
      /\ downloaded (_db st) ⊆ downloaded (_db st')
      /\ (forall m, m ∈ items -> id m ∈ downloaded (_db st')).
Proof.
  induction blocks as [|block blocks IH]; intros st Hdisk items.
  - exists st. subst items. simpl. repeat split; try reflexivity; try lia.
    intros m Hm. inversion Hm.
  - rewrite for_each_cons. unfold download_block at 1, bind at 1.
    destruct (collect_batch_on_disk w (omap (fun mi => mi) block) [] st)
      as (st1 & -> & A1 & P1 & F1 & R1 & B1 & S1 & D1 & Q1).
    { intros m Hm. apply list_elem_of_omap in Hm.
      destruct Hm as (o & Ho & ->). apply (Hdisk block); [left | exact Ho]. }
    cbv beta iota. rewrite bool_decide_eq_false_2 by (simpl; lia).
    unfold ret at 1.
    destruct (IH st1) as (st' & E & A & P & F & B & S & D & Q).
    { intros b m Hb Hm. unfold local_full_path. rewrite R1.
      apply (Hdisk b); [now right | exact Hm]. }
    exists st'. split; [exact E|].
    subst items. rewrite fmap_cons, concat_cons, length_app.
    split; [congruence|]. split; [congruence|]. split; [congruence|].
    split; [congruence|]. split; [lia|].
    split; [etrans; eassumption|].
    intros m Hm. apply elem_of_app in Hm. destruct Hm as [Hm|Hm].
    + apply D, Q1, Hm.
    + apply Q, Hm.
Qed.

(** Property X23.  A run all of whose candidates are on the local disk, begun
    with no future in flight, returns without a single request to the
    catalog and without a task for the pool: every candidate is
    counted as skipped and is marked downloaded in the store. *)
Theorem candidates_on_disk_need_no_request (w : World)
    (candidates : list MediaItem) (st : State) :
  pool_future_to_media st = [] ->
  (forall m, m ∈ candidates ->
     os_path_exists w (local_full_path st m) = true) ->
  exists st',
    download_photo_media w candidates st = Normal tt st'
    /\ api_calls st' = api_calls st
    /\ download_pool st' = download_pool st
    /\ files_download_skipped st'
       = (files_download_skipped st + length candidates)%nat
    /\ (forall m, m ∈ candidates -> id m ∈ downloaded (_db st')).
Proof.
  intros Hpool Hdisk. unfold download_photo_media, try_finally.
  destruct (blocks_on_disk w (grouper candidates) st)
    as (st1 & -> & A & P & F & B & S & D & Q).
  { intros block m Hb Hm. apply Hdisk.
    eapply grouper_loop_elem_of; eassumption. }
  cbv zeta in S, Q.
  unfold grouper in S, Q. rewrite grouper_loop_concat in S, Q by reflexivity.
  run. rewrite F, Hpool. simpl.
  eexists. split; [reflexivity|]. simpl. auto.
Qed.

(** *** The size of the bulk requests *)

Section DictFacts.
Context {K V : Type} `{EqDecision K}.

Lemma dict_set_keys (k k' : K) (v : V) (d : list (K * V)) :
  k' ∈ dict_keys (dict_set k v d) <-> k' = k \/ k' ∈ dict_keys d.
Proof.
  induction d as [|[k0 v0] d IH]; simpl.
  - rewrite list_elem_of_singleton. split; [auto|].
    intros [?|Hn]; [assumption | inversion Hn].
  - destruct (decide (k = k0)) as [->|N]; simpl; rewrite !elem_of_cons.
    + tauto.
    + unfold dict_keys in IH. rewrite IH. tauto.
Qed.

Lemma dict_set_NoDup (k : K) (v : V) (d : list (K * V)) :
  NoDup (dict_keys d) -> NoDup (dict_keys (dict_set k v d)).
Proof.
  induction d as [|[k0 v0] d IH]; simpl.
  - intros _. apply NoDup_singleton.
  - rewrite NoDup_cons. intros [Hn Hd].
    destruct (decide (k = k0)) as [->|N]; simpl.
    + apply NoDup_cons. split; assumption.
    + apply NoDup_cons. split; [|apply IH, Hd].
      intros Hin. apply dict_set_keys in Hin.
      destruct Hin as [->|Hin]; [now apply N | now apply Hn].
Qed.

Lemma dict_set_length_le (k : K) (v : V) (d : list (K * V)) :
  (length (dict_set k v d) <= S (length d))%nat.
Proof.
  induction d as [|[k0 v0] d IH]; simpl; [lia|].
  destruct (decide (k = k0)); simpl; lia.
Qed.

Lemma dict_del_keys (k k' : K) (d : list (K * V)) :
  k' ∈ dict_keys (dict_del k d) -> k' ∈ dict_keys d.
Proof.
  induction d as [|[k0 v0] d IH]; simpl; [auto|].
  destruct (decide (k = k0)) as [->|N]; simpl; rewrite !elem_of_cons.
  - auto.
  - intros [?|?]; [now left | right; now apply IH].
Qed.

Lemma dict_del_NoDup (k : K) (d : list (K * V)) :
  NoDup (dict_keys d) -> NoDup (dict_keys (dict_del k d)).
Proof.
  induction d as [|[k0 v0] d IH]; simpl; [auto|].
  rewrite NoDup_cons. intros [Hn Hd].
  destruct (decide (k = k0)) as [->|N]; simpl; [exact Hd|].
  apply NoDup_cons. split; [|apply IH, Hd].
  intros Hin. apply Hn. eapply dict_del_keys, Hin.
Qed.

Lemma dict_del_not_in (k : K) (d : list (K * V)) :
  NoDup (dict_keys d) -> k ∉ dict_keys (dict_del k d).
Proof.
  induction d as [|[k0 v0] d IH]; simpl.
  - intros _ Hin. inversion Hin.
  - rewrite NoDup_cons. intros [Hn Hd].
    destruct (decide (k = k0)) as [->|N]; simpl; [exact Hn|].
    rewrite not_elem_of_cons. split; [exact N | apply IH, Hd].
Qed.

Lemma dict_del_other (k k' : K) (d : list (K * V)) :
  k' <> k -> k' ∈ dict_keys d -> k' ∈ dict_keys (dict_del k d).
Proof.
  intros Hne. induction d as [|[k0 v0] d IH]; simpl; [auto|].
  destruct (decide (k = k0)) as [->|N]; simpl; rewrite !elem_of_cons.
  - intros [?|?]; [congruence | assumption].
  - intros [?|?]; [now left | right; now apply IH].
Qed.

End DictFacts.

Lemma collect_batch_keys (w : World) (items : list MediaItem) :
  forall (batch : list (string * MediaItem)) (st : State),
    NoDup (dict_keys batch) ->
    exists batch' st',
      collect_batch w items batch st = Normal batch' st'
      /\ NoDup (dict_keys batch')
      /\ (length batch' <= length batch + length items)%nat.
Proof.
  induction items as [|c items IH]; intros batch st Hnd; simpl.
  - exists batch, st. split; [reflexivity|]. split; [exact Hnd | lia].
  - unfold bind at 1. unfold check_candidate. run.
    destruct (os_path_exists w _); run.
    + match goal with |- context [collect_batch _ _ _ ?s] =>
        destruct (IH batch s Hnd) as (b' & st' & E & N & L)
      end.
      exists b', st'. split; [exact E|]. split; [exact N | lia].
    + destruct (check_id_ok (id c) (bad_ids st)); run.
      * pose proof (dict_set_NoDup (id c) c batch Hnd) as Hnd'.
        pose proof (dict_set_length_le (id c) c batch) as Hl.
        destruct (negb (bool_decide _)); run;
          match goal with |- context [collect_batch _ _ ?b ?s] =>
            destruct (IH b s Hnd') as (b' & st' & E & N & L)
          end;
          exists b', st'; (split; [exact E|]); (split; [exact N | lia]).
      * destruct (IH batch st Hnd) as (b' & st' & E & N & L).
        exists b', st'. split; [exact E|]. split; [exact N | lia].
Qed.

Lemma asked_well_refl (st : State) : asked_well st st.
Proof. exists []. split; [now rewrite app_nil_r | constructor]. Qed.

Lemma collecting_asked_well (st0 st st' : State) :
  collecting st st' -> asked_well st0 st -> asked_well st0 st'.
Proof.
  intros (_ & C & _) (calls & A & W). exists calls.
  split; [congruence | exact W].
Qed.

Lemma execute_asked_well {A : Type} (st0 : State) (request : Request)
    (answer : pyresult A) :
  well_sized request -> preserves (asked_well st0) (execute request answer).
Proof.
  intros Hw st (calls & Hc & W).
  assert (H : asked_well st0
                (set_api_calls (api_calls st ++ [request]) st)).
  { exists (calls ++ [request])%list. simpl. split.
    - rewrite Hc, <- app_assoc. reflexivity.
    - apply Forall_app. split; [exact W|]. constructor; [exact Hw|constructor]. }
  unfold execute. run. destruct answer; exact H.
Qed.

Lemma download_file_asked_well (w : World) (st0 : State)
    (media_item : MediaItem) (media_json : MediaJson) :
  preserves (asked_well st0) (download_file w media_item media_json).
Proof.
  intros st H. destruct (baseUrl media_json) as [base_url|] eqn:Hb.
  - destruct (download_file_run w media_item media_json base_url st Hb)
      as (st1 & Hw & ->).
    pose proof (wait_collecting w (polls_needed w st) st) as Hc.
    rewrite Hw in Hc. simpl in Hc.
    destruct (collecting_asked_well st0 st st1 Hc H) as (calls & A & W).
    exists calls. split; [exact A | exact W].
  - rewrite download_file_without_url by exact Hb. exact H.
Qed.

Lemma find_bad_item_asked_well (w : World) (st0 : State)
    (entry : string * MediaItem) :
  preserves (asked_well st0) (find_bad_item w entry).
Proof.
  destruct entry as [item_id m]. unfold find_bad_item.
  apply preserves_bind_gets. intros s Hs.
  apply (preserves_try_except (asked_well st0)); [| |exact Hs].
  - apply preserves_bind.
    + apply execute_asked_well. exact I.
    + intros json. apply download_file_asked_well.
  - intros e h. destruct (http_or_retry e); [|discriminate].
    intros [= <-]. unfold quarantine. apply preserves_bind.
    + apply preserves_modify. intros s' Hs'. exact Hs'.
    + intros _. apply preserves_modify. intros s' Hs'. exact Hs'.
Qed.

Lemma download_batch_asked_well (w : World) (st0 : State)
    (batch : list (string * MediaItem)) :
  well_sized (BatchGetRequest (dict_keys batch)) ->
  preserves (asked_well st0) (download_batch w batch).
Proof.
  intros Hw. unfold download_batch. apply preserves_try_except.
  - apply preserves_bind; [apply execute_asked_well, Hw|].
    intros r_json. apply preserves_for_each. intros result _.
    unfold download_result. destruct result as [json|]; [|preserve].
    destruct (dict_get _ _); [|preserve].
    apply preserves_bind_gets. intros s Hs.
    apply download_file_asked_well, Hs.
  - intros e h. destruct (isinstance e KeyboardInterrupt).
    { intros [= <-]. unfold future_cancel. preserve. }
    destruct (http_or_retry e); [|discriminate].
    intros [= <-]. apply preserves_for_each. intros entry _.
    apply find_bad_item_asked_well.
Qed.

Lemma length_omap_le {A B : Type} (f : A -> option B) (l : list A) :
  (length (omap f l) <= length l)%nat.
Proof.
  induction l as [|x l IH]; [reflexivity|].
  destruct (f x) as [y|] eqn:E.
  - rewrite (omap_cons_Some f x y l E). simpl. lia.
  - rewrite (omap_cons_None f x l E). simpl. lia.
Qed.

Lemma download_block_asked_well (w : World) (st0 : State)
    (block : list (option MediaItem)) :
  length block = BATCH_SIZE ->
  preserves (asked_well st0) (download_block w block).
Proof.
  intros Hlen st H. unfold download_block, bind.
  destruct (collect_batch_keys w (omap (fun mi => mi) block) [] st)
    as (batch & st1 & E & Hnd & Hl); [constructor|].
  pose proof (collect_batch_preserves (asked_well st0) w
                (omap (fun mi => mi) block) []
                (fun s n Hs => Hs) (fun s db Hs => Hs) (fun s d Hs => Hs)
                st H) as H1.
  rewrite E in H1 |- *. simpl in H1. cbv beta iota.
  case_bool_decide as Hpos; [|exact H1].
  apply download_batch_asked_well; [|exact H1].
  simpl. unfold dict_keys. rewrite length_map.
  pose proof (length_omap_le (fun mi : option MediaItem => mi) block).
  simpl in Hl. split; [lia | exact Hnd].
Qed.

(** Property X24.  Every bulk resolution that a download run sends asks for at
    least one and at most [BATCH_SIZE] identifiers, none of them
    twice, however the run ends. *)
Theorem bulk_requests_are_well_sized (w : World)
    (candidates : list MediaItem) (st : State) :
  exists calls,
    api_calls (state_of (download_photo_media w candidates st))
    = (api_calls st ++ calls)%list
    /\ Forall well_sized calls.
Proof.
  change (asked_well st (state_of (download_photo_media w candidates st))).
  apply (preserves_try_finally (asked_well st)); [| |apply asked_well_refl].
  - apply preserves_for_each. intros block Hblock.
    apply download_block_asked_well.
    pose proof (grouper_loop_blocks (length candidates) candidates) as Hb.
    rewrite Forall_forall in Hb. apply Hb, Hblock.
  - apply preserves_bind_gets. intros s Hs.
    apply (preserves_bind (asked_well st)); [| |exact Hs].
    + intros s' Hs'. eapply collecting_asked_well; [|exact Hs'].
      apply do_download_complete_collecting.
    + intros _. apply preserves_modify. intros s' Hs'. exact Hs'.
Qed.

(** *** The books of the coordinating thread *)

Lemma filter_ext_list {A : Type} (P Q : A -> bool) (l : list A) :
  (forall x, x ∈ l -> P x = Q x) -> List.filter P l = List.filter Q l.
Proof.
  induction l as [|x l IH]; intros H; [reflexivity|].
  simpl. rewrite (H x) by left.
  rewrite IH; [reflexivity|]. intros y Hy. apply H. now right.
Qed.

Lemma count_flip {A : Type} (P Q : A -> bool) (l : list A) (a : A) :
  NoDup l -> a ∈ l -> P a = false -> Q a = true ->
  (forall x, x <> a -> P x = Q x) ->
  length (List.filter Q l) = S (length (List.filter P l)).
Proof.
  intros Hnd Hin Pa Qa Hext. induction l as [|x l IH]; [inversion Hin|].
  apply NoDup_cons in Hnd. destruct Hnd as [Hx Hnd].
  apply elem_of_cons in Hin. destruct Hin as [->|Hin].
  - simpl. rewrite Pa, Qa. simpl. do 2 f_equal.
    apply filter_ext_list. intros y Hy. symmetry. apply Hext.
    intros ->. contradiction.
  - assert (Hne : x <> a) by (intros ->; contradiction).
    simpl. rewrite (Hext x Hne). destruct (Q x); simpl; rewrite IH; auto.
Qed.

Section PoolFacts.
Context {V : Type}.

Lemma dict_get_key (k : nat) (v : V) (d : list (nat * V)) :
  dict_get k d = Some v -> (k, v) ∈ d /\ k ∈ dict_keys d.
Proof.
  induction d as [|[k' v'] d IH]; simpl; [discriminate|].
  destruct (decide (k = k')) as [->|N].
  - intros [= ->]. split; left.
  - intros H. destruct (IH H). split; now right.
Qed.

Lemma dict_del_elem_of (k k' : nat) (v' : V) (d : list (nat * V)) :
  (k', v') ∈ dict_del k d -> (k', v') ∈ d.
Proof.
  induction d as [|[k0 v0] d IH]; simpl; [auto|].
  destruct (decide (k = k0)) as [->|N]; rewrite !elem_of_cons.
  - auto.
  - intros [?|?]; [now left | right; now apply IH].
Qed.

Lemma dict_set_elem (k k' : nat) (v v' : V) (d : list (nat * V)) :
  (k', v') ∈ dict_set k v d -> (k', v') = (k, v) \/ (k', v') ∈ d.
Proof.
  induction d as [|[k0 v0] d IH]; simpl.
  - intros H. apply list_elem_of_singleton in H. now left.
  - destruct (decide (k = k0)) as [->|N]; rewrite !elem_of_cons.
    + intros [H|H]; [now left | right; now right].
    + intros [H|H]; [right; now left|].
      destruct (IH H) as [?|?]; [now left | right; now right].
Qed.

End PoolFacts.

Lemma collected_after_del (st st' : State) (f x : nat) :
  pool_future_to_media st' = dict_del f (pool_future_to_media st) ->
  x <> f -> collected st' x = collected st x.
Proof.
  intros Hp Hne. unfold collected. rewrite Hp. f_equal.
  apply bool_decide_ext. split.
  - apply dict_del_keys.
  - apply dict_del_other, Hne.
Qed.

Lemma collected_after_set (st st' : State) (f x : nat) (m : MediaItem) :
  pool_future_to_media st' = dict_set f m (pool_future_to_media st) ->
  x <> f -> collected st' x = collected st x.
Proof.
  intros Hp Hne. unfold collected. rewrite Hp. f_equal.
  apply bool_decide_ext. rewrite dict_set_keys. tauto.
Qed.

(** Assignments that leave the pool and its counts alone, and take
    no mark from the store, keep the books in order. *)
Lemma accounted_frame (w : World) (st st' : State) :
  pool_future_to_media st' = pool_future_to_media st ->
  download_pool st' = download_pool st ->
  files_download_started st' = files_download_started st ->
  files_downloaded st' = files_downloaded st ->
  downloaded (_db st) ⊆ downloaded (_db st') ->
  accounted w st -> accounted w st'.
Proof.
  intros Hp Hd Hs Hf Hdb (A1 & A2 & A3 & A4 & A5).
  unfold accounted, collected in *. rewrite Hp, Hd, Hs, Hf.
  split; [exact A1|]. split; [exact A2|]. split; [exact A3|].
  split; [exact A4|].
  intros f t Hl Hr Hc. apply Hdb. eapply A5; eassumption.
Qed.

(** Collecting a future that is in the dictionary. *)
Lemma accounted_collect (w : World) (st st' : State) (f : nat)
    (m : MediaItem) :
  accounted w st ->
  dict_get f (pool_future_to_media st) = Some m ->
  pool_future_to_media st' = dict_del f (pool_future_to_media st) ->
  download_pool st' = download_pool st ->
  files_download_started st' = files_download_started st ->
  files_downloaded st'
  = (if returned w f then S (files_downloaded st) else files_downloaded st) ->
  downloaded (_db st) ⊆ downloaded (_db st') ->
  (returned w f = true -> id m ∈ downloaded (_db st')) ->
  accounted w st'.
Proof.
  intros (A1 & A2 & A3 & A4 & A5) Hm Hp Hd Hs Hf Hdb Hmark.
  destruct (dict_get_key f m _ Hm) as [Hin Hkey].
  destruct (A2 f m Hin) as (t0 & Ht0 & Hmedia).
  assert (Hold : collected st f = false).
  { unfold collected. now rewrite bool_decide_eq_true_2. }
  assert (Hnew : collected st' f = true).
  { unfold collected. rewrite Hp, bool_decide_eq_false_2; [reflexivity|].
    apply dict_del_not_in, A1. }
  split; [rewrite Hp; apply dict_del_NoDup, A1|].
  split.
  { intros f' m' H'. rewrite Hp in H'. apply dict_del_elem_of in H'.
    rewrite Hd. apply A2, H'. }
  split; [congruence|].
  split.
  - rewrite Hf, Hd, A4. destruct (returned w f) eqn:Hr.
    + symmetry. apply (count_flip _ _ _ f).
      * apply NoDup_seq.
      * apply elem_of_seq. apply lookup_lt_Some in Ht0. lia.
      * now rewrite Hold, andb_false_r.
      * now rewrite Hr, Hnew.
      * intros x Hx. now rewrite (collected_after_del st st' f x Hp Hx).
    + f_equal. apply filter_ext_list. intros x _.
      destruct (decide (x = f)) as [->|Hx]; [now rewrite Hr|].
      now rewrite (collected_after_del st st' f x Hp Hx).
  - intros f' t Hl Hr Hc. rewrite Hd in Hl.
    destruct (decide (f' = f)) as [->|Hx].
    + assert (t = t0) by congruence. subst t. rewrite Hmedia.
      apply Hmark, Hr.
    + rewrite (collected_after_del st st' f f' Hp Hx) in Hc.
      apply Hdb. eapply A5; eassumption.
Qed.

Lemma complete_one_accounted (w : World) (future : nat) :
  preserves (accounted w) (complete_one w future).
Proof.
  intros st A.
  destruct (dict_get future (pool_future_to_media st)) as [m|] eqn:Hm.
  - rewrite (complete_one_run w future m st Hm). simpl state_of.
    unfold future_exception.
    destruct (task_exception w future) as [e|] eqn:He; cbv zeta.
    + destruct (isinstance e HTTPError);
        (eapply (accounted_collect w st _ future m A Hm);
         unfold returned; rewrite ?He; simpl; try reflexivity;
         discriminate).
    + eapply (accounted_collect w st _ future m A Hm);
        unfold returned; rewrite ?He; simpl; try reflexivity;
        try lia; set_solver.
  - unfold complete_one. run. rewrite Hm.
    destruct (future_exception w future) as [e|]; run; simpl; [|exact A].
    eapply accounted_frame; [..|exact A]; reflexivity.
Qed.

Lemma do_download_complete_accounted (w : World) (futures_list : list nat) :
  preserves (accounted w) (do_download_complete w futures_list).
Proof.
  apply preserves_for_each. intros f _. apply complete_one_accounted.
Qed.

Lemma wait_accounted (w : World) (polls : nat) :
  preserves (accounted w) (wait_for_free_thread w polls).
Proof.
  induction polls as [|p IH]; intros st A;
    rewrite wait_for_free_thread_eq; case_bool_decide; try exact A.
  cbv zeta. run. simpl pool_future_to_media. simpl clock.
  set (st1 := set_clock (S (clock st)) st).
  set (done_list := List.filter _ _).
  assert (A1 : accounted w st1)
    by (eapply accounted_frame; [..|exact A]; reflexivity).
  pose proof (do_download_complete_accounted w done_list st1 A1) as A2.
  destruct (do_download_complete w done_list st1) as [[] st2|e st2|st2];
    simpl in *; try exact A2.
  apply IH, A2.
Qed.

(** Submitting a task: the new future is the index of the task. *)
Lemma accounted_submit (w : World) (st : State) (base_url : string)
    (m : MediaItem) :
  accounted w st ->
  accounted w
    (set_pool_future_to_media
       (dict_set (length (download_pool st)) m (pool_future_to_media st))
       (set_download_pool
          (download_pool st ++
             [{| task_base_url := base_url; task_media := m |}])
          (set_files_download_started (files_download_started st + 1) st))).
Proof.
  intros (A1 & A2 & A3 & A4 & A5).
  set (n := length (download_pool st)).
  set (st' := set_pool_future_to_media _ _).
  assert (Hp : pool_future_to_media st'
               = dict_set n m (pool_future_to_media st)) by reflexivity.
  assert (Hfresh : collected st' n = false).
  { unfold collected. rewrite Hp, bool_decide_eq_true_2; [reflexivity|].
    apply dict_set_keys. now left. }
  split; [apply dict_set_NoDup, A1|].
  split.
  { intros f' m' H'. simpl in H'. apply dict_set_elem in H'.
    destruct H' as [[= -> ->]|H'].
    - eexists. split; [apply list_lookup_middle; reflexivity | reflexivity].
    - destruct (A2 f' m' H') as (t & Ht & Hmedia).
      exists t. split; [|exact Hmedia]. simpl.
      now apply lookup_app_l_Some. }
  split; [simpl; rewrite length_app; simpl; lia|].
  split.
  - simpl files_downloaded. simpl download_pool.
    rewrite length_app. simpl length. rewrite Nat.add_1_r, seq_S.
    rewrite List.filter_app. simpl List.filter at 2.
    fold n. rewrite Hfresh, andb_false_r, app_nil_r, A4.
    f_equal. apply filter_ext_list. intros x Hx.
    apply elem_of_seq in Hx.
    rewrite (collected_after_set st st' n x m Hp) by lia. reflexivity.
  - intros f' t Hl Hr Hc. simpl in Hl. simpl _db.
    destruct (decide (f' = n)) as [->|Hx]; [congruence|].
    rewrite (collected_after_set st st' n f' m Hp Hx) in Hc.
    apply (A5 f' t); [|exact Hr | exact Hc].
    apply lookup_app_Some in Hl. destruct Hl as [Hl|[Hge Hl]]; [exact Hl|].
    apply list_lookup_singleton_Some in Hl. destruct Hl as [Hl _].
    fold n in Hge. lia.
Qed.

Lemma download_file_accounted (w : World) (media_item : MediaItem)
    (media_json : MediaJson) :
  preserves (accounted w) (download_file w media_item media_json).
Proof.
  intros st A. destruct (baseUrl media_json) as [base_url|] eqn:Hb.
  - destruct (download_file_run w media_item media_json base_url st Hb)
      as (st1 & Hw & ->).
    pose proof (wait_accounted w (polls_needed w st) st A) as A1.
    rewrite Hw in A1. simpl in A1. simpl state_of.
    apply accounted_submit, A1.
  - rewrite download_file_without_url by exact Hb. exact A.
Qed.

Ltac framed :=
  apply preserves_modify;
  let s := fresh "s" in
  let Hs := fresh "Hs" in
  intros s Hs; eapply accounted_frame; [..|exact Hs];
  simpl; try reflexivity; try set_solver.

Lemma execute_accounted {A : Type} (w : World) (request : Request)
    (answer : pyresult A) :
  preserves (accounted w) (execute request answer).
Proof.
  apply execute_preserves. intros st calls H.
  eapply accounted_frame; [..|exact H]; reflexivity.
Qed.

Lemma find_bad_item_accounted (w : World) (entry : string * MediaItem) :
  preserves (accounted w) (find_bad_item w entry).
Proof.
  destruct entry as [item_id m]. unfold find_bad_item.
  apply preserves_bind_gets. intros s Hs.
  apply (preserves_try_except (accounted w)); [| |exact Hs].
  - apply preserves_bind; [apply execute_accounted|].
    intros json. apply download_file_accounted.
  - intros e h. destruct (http_or_retry e); [|discriminate].
    intros [= <-]. unfold quarantine.
    apply preserves_bind; [framed|]. intros _. framed.
Qed.

Lemma download_batch_accounted (w : World)
    (batch : list (string * MediaItem)) :
  never_interrupted w ->
  preserves (accounted w) (download_batch w batch).
Proof.
  intros Hw st A. rewrite download_batch_uninterrupted by exact Hw.
  revert st A. apply preserves_try_except.
  - apply preserves_bind; [apply execute_accounted|].
    intros r_json. apply preserves_for_each. intros result _.
    unfold download_result. destruct result as [json|]; [|preserve].
    destruct (dict_get _ _); [|preserve].
    apply preserves_bind_gets. intros s Hs.
    apply download_file_accounted, Hs.
  - intros e h. destruct (http_or_retry e); [|discriminate].
    intros [= <-]. apply preserves_for_each. intros entry _.
    apply find_bad_item_accounted.
Qed.

Lemma check_candidate_accounted (w : World) (media_item : MediaItem)
    (batch : list (string * MediaItem)) :
  preserves (accounted w) (check_candidate w media_item batch).
Proof.
  unfold check_candidate. apply preserves_bind_gets. intros s Hs.
  cbv zeta.
  destruct (os_path_exists w _).
  - apply (preserves_bind (accounted w)); [framed| |exact Hs].
    intros _. apply preserves_bind; [framed|]. intros _. apply preserves_ret.
  - apply (preserves_bind_gets (accounted w)); [|exact Hs].
    intros s1 Hs1. destruct (check_id_ok _ _); [|exact Hs1].
    apply (preserves_bind_gets (accounted w)); [|exact Hs1].
    intros s2 Hs2.
    apply (preserves_bind (accounted w)); [| |exact Hs2].
    + destruct (negb _); [framed | apply preserves_ret].
    + intros _. apply preserves_ret.
Qed.

Lemma collect_batch_accounted (w : World) (items : list MediaItem) :
  forall batch, preserves (accounted w) (collect_batch w items batch).
Proof.
  induction items as [|c items IH]; intro batch; simpl.
  - apply preserves_ret.
  - apply preserves_bind; [apply check_candidate_accounted|].
    intros batch'. apply IH.
Qed.

Lemma download_photo_media_accounted (w : World)
    (candidates : list MediaItem) :
  never_interrupted w ->
  preserves (accounted w) (download_photo_media w candidates).
Proof.
  intros Hw. unfold download_photo_media. apply preserves_try_finally.
  - apply preserves_for_each. intros block _. unfold download_block.
    apply preserves_bind; [apply collect_batch_accounted|].
    intros batch. destruct (bool_decide _);
      [apply download_batch_accounted, Hw | apply preserves_ret].
  - apply preserves_bind_gets. intros s Hs.
    apply (preserves_bind (accounted w)); [| |exact Hs].
    + apply do_download_complete_accounted.
    + intros _. framed.
Qed.

Lemma init_accounted (w : World) (root : string) (db : LocalData)
    (ledger : gmap string (string * string)) :
  accounted w (__init__ w root db ledger).
Proof.
  split; [constructor|]. split; [intros f m H; inversion H|].
  split; [reflexivity|]. split; [reflexivity|].
  intros f t H. discriminate H.
Qed.

(** Property X25.  The books of a download run in which no bulk resolution
    is interrupted from the keyboard, so that no future is cancelled,
    are right at its end, whether it returns or raises.  From an
    object whose books are in order, as a new one is:
    [files_download_started] is the number of tasks handed to the
    pool; [files_downloaded] is the number of those tasks whose worker
    returned without an exception; and the record of every such task
    is marked downloaded in the store. *)
Theorem downloads_are_counted_and_marked (w : World)
    (candidates : list MediaItem) (st : State) :
  never_interrupted w ->
  accounted w st ->
  let st' := state_of (download_photo_media w candidates st) in
  files_download_started st' = length (download_pool st')
  /\ files_downloaded st'
     = length (List.filter (returned w) (seq 0 (length (download_pool st'))))
  /\ (forall f t, download_pool st' !! f = Some t -> returned w f = true ->
        id (task_media t) ∈ downloaded (_db st')).
Proof.
  intros Hw A st'.
  pose proof (download_photo_media_accounted w candidates Hw st A)
    as (_ & _ & A3 & A4 & A5).
  fold st' in A3, A4, A5.
  assert (Hempty : pool_future_to_media st' = []).
  { subst st'. unfold download_photo_media, try_finally.
    pose proof (halts_for_each (grouper candidates) (download_block w)
                  (fun block _ => download_block_halts w block Hw) st) as Hb.
    destruct (for_each (grouper candidates) (download_block w) st)
      as [[] st1|e st1|st1]; [| |destruct Hb];
      destruct (finally_block_run w st1) as (st2 & -> & Hp & _);
      exact Hp. }
  assert (Hall : forall f, collected st' f = true).
  { intros f. unfold collected. rewrite Hempty. reflexivity. }
  split; [exact A3|]. split.
  - rewrite A4. f_equal. apply filter_ext_list. intros x _.
    now rewrite Hall, andb_true_r.
  - intros f t Hl Hr. apply (A5 f t Hl Hr), Hall.
Qed.

Lemma other_bulk_errors_propagate_witness :
  let w := SyncSpec.catalog_raises ConnectionError in
  let st := SyncSpec.fresh_sync in
  GooglePhotosSync.download_batch w SyncSpec.batch_AB st
  = GooglePhotosSync.Raised ConnectionError
      (GooglePhotosSync.set_api_calls
         (GooglePhotosSync.api_calls st
          ++ [GooglePhotosSync.BatchGetRequest
                (GooglePhotosSync.dict_keys SyncSpec.batch_AB)])%list st).
Proof.
  intros w st.
  apply (other_bulk_errors_propagate w SyncSpec.batch_AB ConnectionError st);
    [reflexivity | reflexivity | discriminate].
Defined.

Lemma other_get_errors_stop_the_fallback_witness :
  let w := SyncSpec.catalog_raises ConnectionError in
  let st := SyncSpec.fresh_sync in
  GooglePhotosSync.find_bad_items w SyncSpec.batch_AB st
  = GooglePhotosSync.Raised ConnectionError
      (GooglePhotosSync.set_api_calls
         (GooglePhotosSync.api_calls st
          ++ [GooglePhotosSync.GetRequest "A"])%list st).
Proof.
  intros w st.
  apply (other_get_errors_stop_the_fallback w []
           [("B", SyncSpec.photo "B" 60)] "A" (SyncSpec.photo "A" 50)
           ConnectionError st st); reflexivity.
Defined.

Lemma bulk_answer_is_submitted_in_order_witness :
  let w := SyncSpec.answering_world false in
  let st := SyncSpec.fresh_sync in
  exists st',
    GooglePhotosSync.download_batch w SyncSpec.batch_AB st
    = GooglePhotosSync.Normal tt st'
    /\ GooglePhotosSync.api_calls st'
       = (GooglePhotosSync.api_calls st
          ++ [GooglePhotosSync.BatchGetRequest
                (GooglePhotosSync.dict_keys SyncSpec.batch_AB)])%list
    /\ GooglePhotosSync.download_pool st'
       = (GooglePhotosSync.download_pool st
          ++ omap (SyncSpec.task_of_result w
                     (GooglePhotosSync._media_folder st) SyncSpec.batch_AB)
               [Some (SyncSpec.resolved "A"); Some (SyncSpec.resolved "B")])%list
    /\ GooglePhotosSync.files_download_started st'
       = (GooglePhotosSync.files_download_started st + 2)%nat.
Proof.
  intros w st.
  apply (bulk_answer_is_submitted_in_order w SyncSpec.batch_AB
           {| GooglePhotosSync.batch_pageToken := None;
              GooglePhotosSync.mediaItemResults :=
                [Some (SyncSpec.resolved "A"); Some (SyncSpec.resolved "B")] |}
           st).
  - reflexivity.
  - repeat constructor; simpl; eauto.
Defined.

Lemma unknown_result_aborts_the_batch_witness :
  let w := SyncSpec.catalog_answers
             [Some (SyncSpec.resolved "A"); Some (SyncSpec.resolved "Z");
              Some (SyncSpec.resolved "B")] in
  let st := SyncSpec.fresh_sync in
  exists st',
    GooglePhotosSync.download_batch w SyncSpec.batch_AB st
    = GooglePhotosSync.Raised AttributeError st'
    /\ length (GooglePhotosSync.download_pool st') = 1%nat.
Proof.
  intros w st.
  destruct (unknown_result_aborts_the_batch w SyncSpec.batch_AB
              {| GooglePhotosSync.batch_pageToken := None;
                 GooglePhotosSync.mediaItemResults :=
                   [Some (SyncSpec.resolved "A"); Some (SyncSpec.resolved "Z");
                    Some (SyncSpec.resolved "B")] |}
              [Some (SyncSpec.resolved "A")] [Some (SyncSpec.resolved "B")]
              (SyncSpec.resolved "Z") st) as (st' & E & _ & P).
  - reflexivity.
  - reflexivity.
  - repeat constructor; simpl; eauto.
  - reflexivity.
  - exists st'. split; [exact E|]. rewrite P. reflexivity.
Defined.

Lemma candidates_on_disk_need_no_request_witness :
  let w := SyncSpec.answering_world true in
  let st := SyncSpec.fresh_sync in
  let candidates := [SyncSpec.photo "A" 50; SyncSpec.photo "B" 60] in
  exists st',
    GooglePhotosSync.download_photo_media w candidates st
    = GooglePhotosSync.Normal tt st'
    /\ GooglePhotosSync.api_calls st' = GooglePhotosSync.api_calls st
    /\ GooglePhotosSync.download_pool st' = GooglePhotosSync.download_pool st
    /\ GooglePhotosSync.files_download_skipped st'
       = (GooglePhotosSync.files_download_skipped st + 2)%nat
    /\ (forall m, m ∈ candidates ->
          GooglePhotosSync.id m
          ∈ GooglePhotosSync.downloaded (GooglePhotosSync._db st')).
Proof.
  intros w st candidates.
  apply (candidates_on_disk_need_no_request w candidates st).
  - reflexivity.
  - intros m _. reflexivity.
Defined.

Lemma downloads_are_counted_and_marked_witness :
  let w := SyncSpec.quiet_world in
  let candidates := [SyncSpec.photo "A" 50; SyncSpec.photo "B" 60] in
  let st' := GooglePhotosSync.state_of
    (GooglePhotosSync.download_photo_media w candidates SyncSpec.fresh_sync) in
  SyncSpec.never_interrupted w
  /\ GooglePhotosSync.files_download_started st'
     = length (GooglePhotosSync.download_pool st')
  /\ GooglePhotosSync.files_downloaded st'
     = length (List.filter (SyncSpec.returned w)
                 (seq 0 (length (GooglePhotosSync.download_pool st'))))
  /\ (forall f t,
        GooglePhotosSync.download_pool st' !! f = Some t ->
        SyncSpec.returned w f = true ->
        GooglePhotosSync.id (GooglePhotosSync.task_media t)
        ∈ GooglePhotosSync.downloaded (GooglePhotosSync._db st')).
Proof.
  intros w candidates.
  assert (Hw : SyncSpec.never_interrupted w).
  { intros ids H. discriminate H. }
  split; [exact Hw|].
  apply (downloads_are_counted_and_marked w candidates
           SyncSpec.fresh_sync Hw).
  split; [constructor|]. split; [intros f m H; inversion H|].
  split; [reflexivity|]. split; [reflexivity|].
  intros f t H. discriminate H.
Defined.

Lemma download_run_ends_with_every_future_collected_witness :
  let w := SyncSpec.quiet_world in
  let r := GooglePhotosSync.download_photo_media w
             [SyncSpec.photo "A" 50; SyncSpec.photo "B" 60]
             SyncSpec.fresh_sync in
  SyncSpec.never_interrupted w
  /\ SyncSpec.not_spinning r
  /\ GooglePhotosSync.pool_future_to_media (GooglePhotosSync.state_of r) = []
  /\ GooglePhotosSync.persisted
       (GooglePhotosSync.bad_ids (GooglePhotosSync.state_of r))
     = GooglePhotosSync.items
         (GooglePhotosSync.bad_ids (GooglePhotosSync.state_of r)).
Proof.
  intros w.
  assert (Hw : SyncSpec.never_interrupted w).
  { intros ids H. discriminate H. }
  split; [exact Hw|].
  exact (download_run_ends_with_every_future_collected w
           [SyncSpec.photo "A" 50; SyncSpec.photo "B" 60]
           SyncSpec.fresh_sync Hw).
Defined.

Example run_with_one_bad_item_is_counted :
  let st' := GooglePhotosSync.state_of
    (GooglePhotosSync.download_photo_media SyncSpec.quiet_world
       [SyncSpec.photo "A" 50; SyncSpec.photo "B" 60] SyncSpec.fresh_sync) in
  GooglePhotosSync.files_download_started st' = 1%nat
  /\ GooglePhotosSync.files_downloaded st' = 1%nat
  /\ GooglePhotosSync.files_download_failed st' = 1%nat.
Proof. vm_compute. repeat split. Qed.

End DownloadFacts.

(** ** Further properties of the settings *)
Module SettingFacts.
Import GooglePhotosSync SyncSpec.

(** Property X26.  The date setters ignore a missing or empty value: through
    them a boundary can be set and replaced, never cleared.  Each
    touches its own boundary only, and a value that is not empty is
    parsed and stored. *)
Theorem date_setters_never_clear (w : World) (val : option string)
    (st : State) :
  (is_Some (_startDate st) ->
   is_Some (_startDate (start_date_setter w val st)))
  /\ (is_Some (_endDate st) ->
      is_Some (_endDate (end_date_setter w val st)))
  /\ _endDate (start_date_setter w val st) = _endDate st
  /\ _startDate (end_date_setter w val st) = _startDate st
  /\ (truthy val = false ->
      start_date_setter w val st = st /\ end_date_setter w val st = st)
  /\ (forall s, val = Some s -> truthy val = true ->
      _startDate (start_date_setter w val st) = Some (string_to_date w s)
      /\ _endDate (end_date_setter w val st) = Some (string_to_date w s)).
Proof.
  unfold start_date_setter, end_date_setter.
  destruct val as [s|]; [destruct (truthy (Some s)) eqn:Ht|].
  - split; [intros _; simpl; eauto|]. split; [intros _; simpl; eauto|].
    split; [reflexivity|]. split; [reflexivity|].
    split; [discriminate|]. intros s' [= <-] _. split; reflexivity.
  - split; [auto|]. split; [auto|]. split; [reflexivity|].
    split; [reflexivity|]. split; [auto|]. intros s' _ [=].
  - split; [auto|]. split; [auto|]. split; [reflexivity|].
    split; [reflexivity|]. split; [auto|]. intros s' [=].
Qed.
End SettingFacts.
